(** * Verification of the kvstore-backed identifier allocator
    (pkg/kvstore/allocator/allocator.go).

    The allocator maps application keys to numeric identifiers through
    master keys [id/<N>] and slave keys [value/<key>/<node>] held in a
    shared key-value store.  This development embeds the allocator's
    functions as state-passing Rocq functions over a model of the store
    and of the allocator's local components, and proves properties of
    lookup, allocation, release, garbage collection and local-key sync. *)

From Stdlib Require Import ZArith Lia List String Ascii Bool.
From stdpp Require Import base option list strings gmap.

Import ListNotations.
Local Open Scope string_scope.
Local Open Scope list_scope.
Local Open Scope Z_scope.

(** ** Go runtime helpers: [strings], [strconv] and [path] *)

Module gostrings.

(** [strings.LastIndex(s, "/")], scanning left to right: [i] is the index
    of the byte at the head of [s], [last] the index of the last
    separator met so far ([-1] when none). *)
Fixpoint LastIndexFrom (sep : ascii) (s : string) (i last : Z) : Z :=
  match s with
  | EmptyString => last
  | String c s' =>
      LastIndexFrom sep s' (i + 1) (if Ascii.eqb c sep then i else last)
  end.

Definition LastIndex (s : string) (sep : ascii) : Z :=
  LastIndexFrom sep s 0 (-1).

(** [len(s)] as a Go [int]. *)
Definition len (s : string) : Z := Z.of_nat (String.length s).

(** [strings.HasPrefix(s, prefix)]. *)
Definition HasPrefix (s prefix : string) : bool := String.prefix prefix s.

(** [strings.TrimPrefix(s, prefix)]. *)
Fixpoint drop (n : nat) (s : string) : string :=
  match n, s with
  | O, _ => s
  | S n', String _ s' => drop n' s'
  | S _, EmptyString => EmptyString
  end.

Definition TrimPrefix (s prefix : string) : string :=
  if HasPrefix s prefix then drop (String.length prefix) s else s.

(** [strings.Join(elems, sep)]. *)
Fixpoint Join (elems : list string) (sep : string) : string :=
  match elems with
  | [] => ""
  | [e] => e
  | e :: rest => e +:+ sep +:+ Join rest sep
  end.

(** Does the byte [c] occur in [s]? *)
Fixpoint contains (c : ascii) (s : string) : bool :=
  match s with
  | EmptyString => false
  | String c' s' => Ascii.eqb c' c || contains c s'
  end.

(** [s] cut at every occurrence of [sep]; [cur] is the segment being
    read, most recent byte first. *)
Fixpoint SplitFrom (sep : ascii) (s : string) (cur : string) : list string :=
  match s with
  | EmptyString => [String.rev cur]
  | String c s' =>
      if Ascii.eqb c sep then String.rev cur :: SplitFrom sep s' ""
      else SplitFrom sep s' (String c cur)
  end.

Definition Split (s : string) (sep : ascii) : list string :=
  SplitFrom sep s "".

End gostrings.

Module strconv.

Definition digitOf (c : ascii) : option Z :=
  let n := Z.of_nat (nat_of_ascii c) in
  if (48 <=? n) && (n <=? 57) then Some (n - 48) else None.

Definition maxUint64 : Z := 2 ^ 64 - 1.

(** The digits of [s] read in base 10 on top of [acc]; [None] on a byte
    that is not a digit or once the value leaves the 64-bit range. *)
Fixpoint parseDigits (s : string) (acc : Z) : option Z :=
  match s with
  | EmptyString => Some acc
  | String c s' =>
      match digitOf c with
      | None => None
      | Some d =>
          let acc' := acc * 10 + d in
          if acc' <=? maxUint64 then parseDigits s' acc' else None
      end
  end.

(** [strconv.ParseUint(s, 10, 64)]: [None] stands for a non-nil error
    (empty input, a byte that is not a digit, value out of range). *)
Definition ParseUint (s : string) : option Z :=
  match s with
  | EmptyString => None
  | _ => parseDigits s 0
  end.

Definition digitChar (d : Z) : ascii := ascii_of_nat (Z.to_nat (48 + d)).

Fixpoint formatFuel (fuel : nat) (n : Z) (acc : string) : string :=
  match fuel with
  | O => acc
  | S fuel' =>
      let acc' := String (digitChar (n mod 10)) acc in
      if n / 10 =? 0 then acc' else formatFuel fuel' (n / 10) acc'
  end.

(** [strconv.FormatUint(n, 10)] for a 64-bit [n] (at most 20 digits). *)
Definition FormatUint (n : Z) : string := formatFuel 20 n "".

End strconv.

Module gopath.

(** One step of [path.Clean] on the stack of kept elements (most recent
    first): empty and ["."] elements are dropped, [".."] removes the
    element before it, is kept in front of a relative path and dropped
    at the root. *)
Definition cleanStep (rooted : bool) (stack : list string) (seg : string)
  : list string :=
  if String.eqb seg "" then stack
  else if String.eqb seg "." then stack
  else if String.eqb seg ".." then
    match stack with
    | [] => if rooted then [] else [".."]
    | top :: below =>
        if String.eqb top ".." then ".." :: stack else below
    end
  else seg :: stack.

(** [path.Clean(p)]. *)
Definition Clean (p : string) : string :=
  match p with
  | EmptyString => "."
  | String c _ =>
      let rooted := Ascii.eqb c "/" in
      let kept :=
        List.rev (fold_left (cleanStep rooted) (gostrings.Split p "/") []) in
      let body := gostrings.Join kept "/" in
      if rooted then "/" +:+ body
      else if String.eqb body "" then "." else body
  end.

Fixpoint dropEmpty (elems : list string) : list string :=
  match elems with
  | [] => []
  | e :: rest => if String.eqb e "" then dropEmpty rest else elems
  end.

(** [path.Join(elems...)]: leading empty elements are ignored, the rest
    is joined with slashes and cleaned; all empty gives [""]. *)
Definition Join (elems : list string) : string :=
  match dropEmpty elems with
  | [] => ""
  | rest => Clean (gostrings.Join rest "/")
  end.

End gopath.

(** ** Shared types *)

(** A Go [error] value, by its message. *)
Definition error := string.

(** [%s] applied to an [error] that may be nil. *)
Definition fmtErr (err : option error) : string :=
  match err with
  | Some msg => msg
  | None => "%!s(<nil>)"
  end.

(** A [context.Context], by what [ctx.Err()] answers at each logical
    time; the logical time is the number of calls made to the kvstore and
    to the backoff so far.  [None]: the context is not done. *)
Definition Context := nat -> option error.

(** [context.Background()] and [context.TODO()]. *)
Definition Background : Context := fun _ => None.

(** ** The kvstore client *)

Module kvstore.

(** [kvstore.Value]: the bytes stored under a key, the revision of its
    last modification, and whether the key is bound to the client's
    lease. *)
Record Value := mkValue {
  Data : string;
  ModRevision : Z;
  Leased : bool
}.

(** [kvstore.KeyValuePairs], a Go map from key to [Value].  The pairs
    are kept in the order in which a [range] loop visits them; no key
    occurs twice. *)
Definition KeyValuePairs := list (string * Value).

(** The calls the allocator makes; a lock handle is named by the path it
    locks. *)
Inductive Call :=
| LockPathCall (path : string)
| UnlockCall (lock : string)
| ListPrefixCall (prefix : string)
| ListPrefixIfLockedCall (prefix lock : string)
| CreateOnlyCall (key value : string) (lease : bool)
| CreateOnlyIfLockedCall (key value : string) (lease : bool) (lock : string)
| UpdateIfDifferentCall (key value : string) (lease : bool)
| UpdateIfDifferentIfLockedCall (key value : string) (lease : bool) (lock : string)
| DeleteCall (key : string)
| DeleteIfLockedCall (key lock : string)
| BackoffWaitCall (name : string) (minNs factor attempt : Z).

(** Modelled from the spec: the kvstore client of section 6.1 (package
    pkg/kvstore is not part of the sources at hand).  [pairs] is the
    content of the store, [revision] its revision counter, [calls] the
    calls received so far (most recent first), and [faults] decides the
    fate of the calls to come: the n-th next call fails with the n-th
    entry when that is [Some err], and succeeds otherwise. *)
Record Store := mkStore {
  pairs : KeyValuePairs;
  revision : Z;
  calls : list Call;
  faults : list (option error)
}.

(** The value under a key, the pairs without a key, and the pairs with
    a key set: the map operations of the model. *)
Definition lookup (key : string) (kvs : KeyValuePairs) : option Value :=
  snd <$> List.find (fun p => String.eqb (fst p) key) kvs.

Definition remove (key : string) (kvs : KeyValuePairs) : KeyValuePairs :=
  List.filter (fun p => negb (String.eqb (fst p) key)) kvs.

Fixpoint put (key : string) (v : Value) (kvs : KeyValuePairs) : KeyValuePairs :=
  match kvs with
  | [] => [(key, v)]
  | (k, v') :: rest =>
      if String.eqb k key then (k, v) :: rest else (k, v') :: put key v rest
  end.

(** Modelled from the spec: every operation of section 6.1 returns an
    error beside its result (package pkg/kvstore is not part of the
    sources at hand).  A call that can fail is recorded and consumes one
    entry of [faults]. *)
Definition enter (c : Call) (s : Store) : option error * Store :=
  (List.hd None (faults s),
   mkStore (pairs s) (revision s) (c :: calls s) (List.tl (faults s))).

(** Modelled from the spec: a write stamps the pair with the revision it
    creates ([modRevision] of section 6.1) and binds it to the lease when
    asked to. *)
Definition write (key value : string) (lease : bool) (s : Store) : Store :=
  let rev := revision s + 1 in
  mkStore (put key (mkValue value rev lease) (pairs s)) rev (calls s) (faults s).

(** Modelled from the spec: the removal of a key. *)
Definition erase (key : string) (s : Store) : Store :=
  mkStore (remove key (pairs s)) (revision s + 1) (calls s) (faults s).

(** Modelled from the spec: [CreateOnly] and [CreateOnlyIfLocked] of
    section 6.1, "create only if absent", with the result
    [(created, err)]. *)
Definition createOnly (c : Call) (key value : string) (lease : bool) (s : Store)
  : (bool * option error) * Store :=
  match enter c s with
  | (Some err, s') => ((false, Some err), s')
  | (None, s') =>
      match lookup key (pairs s') with
      | Some _ => ((false, None), s')
      | None => ((true, None), write key value lease s')
      end
  end.

(** Modelled from the spec: [UpdateIfDifferent] and
    [UpdateIfDifferentIfLocked] of section 6.1, "update if different",
    with the result [(changed, err)]. *)
Definition updateIfDifferent (c : Call) (key value : string) (lease : bool) (s : Store)
  : (bool * option error) * Store :=
  match enter c s with
  | (Some err, s') => ((false, Some err), s')
  | (None, s') =>
      match lookup key (pairs s') with
      | Some v =>
          if String.eqb (Data v) value then ((false, None), s')
          else ((true, None), write key value lease s')
      | None => ((true, None), write key value lease s')
      end
  end.

(** Modelled from the spec: [Delete] and [DeleteIfLocked] of section
    6.1. *)
Definition delete (c : Call) (key : string) (s : Store) : option error * Store :=
  match enter c s with
  | (Some err, s') => (Some err, s')
  | (None, s') => (None, erase key s')
  end.

(** Modelled from the spec: [ListPrefix] and [ListPrefixIfLocked] of
    section 6.1, every pair whose key starts with [prefix]. *)
Definition listPrefix (c : Call) (prefix : string) (s : Store)
  : (KeyValuePairs * option error) * Store :=
  match enter c s with
  | (Some err, s') => (([], Some err), s')
  | (None, s') =>
      ((List.filter (fun p => gostrings.HasPrefix (fst p) prefix) (pairs s'), None), s')
  end.

(** Modelled from the spec: the operations of section 6.1 under their
    names. *)
Definition CreateOnly key value lease :=
  createOnly (CreateOnlyCall key value lease) key value lease.
Definition CreateOnlyIfLocked key value lease lock :=
  createOnly (CreateOnlyIfLockedCall key value lease lock) key value lease.
Definition UpdateIfDifferent key value lease :=
  updateIfDifferent (UpdateIfDifferentCall key value lease) key value lease.
Definition UpdateIfDifferentIfLocked key value lease lock :=
  updateIfDifferent (UpdateIfDifferentIfLockedCall key value lease lock) key value lease.
Definition Delete key := delete (DeleteCall key) key.
Definition DeleteIfLocked key lock := delete (DeleteIfLockedCall key lock) key.
Definition ListPrefix prefix := listPrefix (ListPrefixCall prefix) prefix.
Definition ListPrefixIfLocked prefix lock :=
  listPrefix (ListPrefixIfLockedCall prefix lock) prefix.

(** Modelled from the spec: [LockPath(ctx, path)] of section 6.1, the
    handle, or the error of a failed acquisition. *)
Definition LockPath (path : string) (s : Store) : (string + error) * Store :=
  match enter (LockPathCall path) s with
  | (Some err, s') => (inr err, s')
  | (None, s') => (inl path, s')
  end.

(** Modelled from the spec: [Unlock()] of the lock handle of section
    6.1; the allocator does not look at its result. *)
Definition Unlock (lock : string) (s : Store) : Store :=
  mkStore (pairs s) (revision s) (UnlockCall lock :: calls s) (faults s).

(** The logical time. *)
Definition now (s : Store) : nat := length (calls s).

End kvstore.

(** ** The allocator's local components *)

(** [idpool.ID], an unsigned 64-bit integer, and the reserved [idpool.NoID]. *)
Definition ID := Z.
Definition NoID : ID := 0.

(** Modelled from the spec: [ID.String()], the decimal ID of section 3
    (package pkg/idpool is not part of the sources at hand). *)
Definition ID_String (id : ID) : string := strconv.FormatUint id.

(** A list of IDs without an ID, and the membership test. *)
Definition removeID (id : ID) (l : list ID) : list ID :=
  List.filter (fun x => negb (x =? id)) l.

Definition memID (id : ID) (l : list ID) : bool :=
  List.existsb (fun x => x =? id) l.

Module idpool.

(** Modelled from the spec: the ID pool of section 4.1 (package
    pkg/idpool is not part of the sources at hand).  An ID of the pool
    is free, leased, or in use.  [free] lists the free IDs in the order
    in which the pool will hand them out; the spec leaves that order
    open, so nothing below depends on it. *)
Record IDPool := mkIDPool {
  free : list ID;
  leased : list ID;
  inUse : list ID
}.

(** Modelled from the spec: [NewIDPool], a dense pool over
    [[minID, maxID]] (section 4.1). *)
Definition NewIDPool (minID maxID : ID) : IDPool :=
  mkIDPool (seqZ minID (maxID - minID + 1)) [] [].

(** Modelled from the spec: [LeaseAvailableID] of section 4.1, remove
    and return a free ID, marking it leased; [NoID] when no ID is
    free. *)
Definition LeaseAvailableID (p : IDPool) : ID * IDPool :=
  match free p with
  | [] => (NoID, p)
  | id :: rest => (id, mkIDPool rest (id :: leased p) (inUse p))
  end.

(** Modelled from the spec: [Use] of section 4.1, promote a leased ID to
    in-use; idempotent. *)
Definition Use (id : ID) (p : IDPool) : IDPool :=
  if memID id (leased p)
  then mkIDPool (free p) (removeID id (leased p)) (id :: inUse p)
  else p.

(** Modelled from the spec: [Release] of section 4.1, return a leased or
    in-use ID to free. *)
Definition Release (id : ID) (p : IDPool) : IDPool :=
  if memID id (leased p) || memID id (inUse p)
  then mkIDPool (id :: free p) (removeID id (leased p)) (removeID id (inUse p))
  else p.

End idpool.

Module localkeys.

(** A local reference: the ID, the reference count and the verified
    bit. *)
Record localKey := mkLocalKey {
  val : ID;
  refcnt : Z;
  verified : bool
}.

(** Modelled from the spec: the local key table of section 4.2
    (localkeys.go is not part of the sources at hand), as the list of
    its entries [(keyString, (id, refcount, verified))], at most one
    per key.  The spec does not say when [release] and [verify] report
    an error; here they do when the key has no entry. *)
Definition localKeys := list (string * localKey).

(** Modelled from the spec: [newLocalKeys], the empty table. *)
Definition newLocalKeys : localKeys := [].

(** The entry of a key, the table with an entry changed, and the table
    without a key: the map operations of the model. *)
Definition find (key : string) (lk : localKeys) : option localKey :=
  snd <$> List.find (fun p => String.eqb (fst p) key) lk.

Fixpoint update (key : string) (f : localKey -> localKey) (lk : localKeys) : localKeys :=
  match lk with
  | [] => []
  | (k, e) :: rest =>
      if String.eqb k key then (k, f e) :: rest else (k, e) :: update key f rest
  end.

Definition drop (key : string) (lk : localKeys) : localKeys :=
  List.filter (fun p => negb (String.eqb (fst p) key)) lk.

(** One more reference. *)
Definition retain (e : localKey) : localKey :=
  mkLocalKey (val e) (refcnt e + 1) (verified e).

(** Modelled from the spec: [use(k)] of section 4.2, if [k] is present,
    increment its refcount and return its ID; [NoID] otherwise. *)
Definition use (key : string) (lk : localKeys) : ID * localKeys :=
  match find key lk with
  | Some e => (val e, update key retain lk)
  | None => (NoID, lk)
  end.

(** Modelled from the spec: [allocate(k, id)] of section 4.2, insert
    [(k, id)] if absent and return [id]; else increment the refcount and
    return the existing ID. *)
Definition allocate (key : string) (id : ID) (lk : localKeys)
  : (ID * option error) * localKeys :=
  match find key lk with
  | Some e => ((val e, None), update key retain lk)
  | None => ((id, None), lk ++ [(key, mkLocalKey id 1 false)])
  end.

(** Modelled from the spec: [release(k)] of section 4.2, decrement;
    [true] iff the refcount hit zero, the entry is then removed. *)
Definition release (key : string) (lk : localKeys)
  : (bool * option error) * localKeys :=
  match find key lk with
  | Some e =>
      if refcnt e - 1 =? 0 then ((true, None), drop key lk)
      else ((false, None),
            update key (fun e => mkLocalKey (val e) (refcnt e - 1) (verified e)) lk)
  | None => ((false, Some "unable to find key in local cache"), lk)
  end.

(** Modelled from the spec: [verify(k)] of section 4.2, set the verified
    bit. *)
Definition verify (key : string) (lk : localKeys) : option error * localKeys :=
  match find key lk with
  | Some _ =>
      (None, update key (fun e => mkLocalKey (val e) (refcnt e) true) lk)
  | None => (Some ("key " +:+ key +:+ " not found"), lk)
  end.

(** Modelled from the spec: [lookupKey(k)] of section 4.2, the ID of
    [k], [NoID] when it has no entry. *)
Definition lookupKey (key : string) (lk : localKeys) : ID :=
  match find key lk with
  | Some e => val e
  | None => NoID
  end.

(** A Go map from ID to key with an entry set. *)
Fixpoint putID (id : ID) (key : string) (m : list (ID * string)) : list (ID * string) :=
  match m with
  | [] => [(id, key)]
  | (i, k) :: rest =>
      if i =? id then (i, key) :: rest else (i, k) :: putID id key rest
  end.

(** Modelled from the spec: [getVerifiedIDs()] of section 4.2, the map
    from ID to key of the verified entries, in the order in which a
    [range] loop visits it. *)
Definition getVerifiedIDs (lk : localKeys) : list (ID * string) :=
  fold_left
    (fun m p => if verified (snd p) then putID (val (snd p)) (fst p) m else m)
    lk [].

End localkeys.

Module cache.

(** Modelled from the spec: the cache of section 4.4 (cache.go is not
    part of the sources at hand), its two dictionaries key to ID and ID
    to key.  The watcher that feeds it runs beside the allocator's
    calls; its effect is whatever content the cache has when a call
    starts. *)
Record cache := mkCache {
  cache_ids : gmap Z string;
  cache_keys : gmap string Z
}.

(** Modelled from the spec: [newCache], [get(keyString)] and
    [insert(key, id)] of section 4.4. *)
Definition newCache : cache := mkCache ∅ ∅.

Definition get (key : string) (c : cache) : ID :=
  default NoID (cache_keys c !! key).

Definition insert (key : string) (id : ID) (c : cache) : cache :=
  mkCache (<[id := key]> (cache_ids c)) (<[key := id]> (cache_keys c)).

End cache.

Module backoff.

(** [backoff.Exponential]: the fields the allocator sets ([Min] in
    nanoseconds) and the count of waits made. *)
Record Exponential := mkExponential {
  Min : Z;
  Factor : Z;
  Name : string;
  attempt : Z
}.

(** Modelled from the spec: [Wait(ctx)] of the backoff (package
    pkg/backoff is not part of the sources at hand).  The wait is
    recorded with the configuration it runs under; it honors the
    context: when the context is done by the end of the wait, its error
    is returned verbatim. *)
Definition Wait (ctx : Context) (b : Exponential) (s : kvstore.Store)
  : (option error * Exponential) * kvstore.Store :=
  let b' := mkExponential (Min b) (Factor b) (Name b) (attempt b + 1) in
  let s' := kvstore.mkStore (kvstore.pairs s) (kvstore.revision s)
              (kvstore.BackoffWaitCall (Name b) (Min b) (Factor b) (attempt b')
                 :: kvstore.calls s)
              (kvstore.faults s) in
  ((ctx (kvstore.now s'), b'), s').

End backoff.

(** ** The allocator *)

(** [maxAllocAttempts]: the number of attempted allocation requests
    performed before failing. *)
Definition maxAllocAttempts : nat := 16.

(** [time.Millisecond], in nanoseconds. *)
Definition Millisecond : Z := 1000000.

(** The [AllocatorKey] interface. *)
Class AllocatorKey (K : Type) := {
  GetKey : K -> string;
  PutKey : string -> K + error;
  KeyString : K -> string
}.

(** Keys that are their own string representation. *)
#[export] Instance StringKey : AllocatorKey string := {
  GetKey := fun k => k;
  PutKey := fun v => inl v;
  KeyString := fun k => k
}.

(** The [Allocator] struct.  [events] records whether an events channel
    was given, [initialListDone] whether the channel of that name has
    been closed.  The mutexes and the remote caches have no counterpart:
    one call runs at a time. *)
Record Allocator := mkAllocator {
  events : bool;
  basePrefix : string;
  idPrefix : string;
  valuePrefix : string;
  lockPrefix : string;
  min : ID;
  max : ID;
  prefixMask : ID;
  localKeys : localkeys.localKeys;
  suffix : string;
  lockless : bool;
  backoffTemplate : backoff.Exponential;
  mainCache : cache.cache;
  initialListDone : bool;
  idPool : idpool.IDPool;
  enableMasterKeyProtection : bool;
  disableGC : bool
}.

Definition set_localKeys (lk : localkeys.localKeys) (a : Allocator) : Allocator :=
  mkAllocator (events a) (basePrefix a) (idPrefix a) (valuePrefix a) (lockPrefix a)
    (min a) (max a) (prefixMask a) lk (suffix a) (lockless a) (backoffTemplate a)
    (mainCache a) (initialListDone a) (idPool a) (enableMasterKeyProtection a)
    (disableGC a).

Definition set_idPool (p : idpool.IDPool) (a : Allocator) : Allocator :=
  mkAllocator (events a) (basePrefix a) (idPrefix a) (valuePrefix a) (lockPrefix a)
    (min a) (max a) (prefixMask a) (localKeys a) (suffix a) (lockless a)
    (backoffTemplate a) (mainCache a) (initialListDone a) p
    (enableMasterKeyProtection a) (disableGC a).

Definition set_mainCache (c : cache.cache) (a : Allocator) : Allocator :=
  mkAllocator (events a) (basePrefix a) (idPrefix a) (valuePrefix a) (lockPrefix a)
    (min a) (max a) (prefixMask a) (localKeys a) (suffix a) (lockless a)
    (backoffTemplate a) c (initialListDone a) (idPool a)
    (enableMasterKeyProtection a) (disableGC a).

(** The state a call runs in: the allocator, the kvstore it talks to, and
    [picks], which settles each [select] that finds two channels ready
    ([true]: the context's; when [picks] has run out: the other). *)
Record State := mkState {
  alloc : Allocator;
  store : kvstore.Store;
  picks : list bool
}.

(** *** The state monad of the allocator's methods *)

Definition M (A : Type) : Type := State -> A * State.

#[export] Instance M_ret : MRet M := fun A x s => (x, s).

#[export] Instance M_bind : MBind M :=
  fun A B f m s => let (x, s') := m s in f x s'.

(** Run a kvstore operation. *)
Definition onStore {A} (op : kvstore.Store -> A * kvstore.Store) : M A :=
  fun s => let (x, st) := op (store s) in (x, mkState (alloc s) st (picks s)).

(** Run an operation of a local component. *)
Definition onLocalKeys {A} (op : localkeys.localKeys -> A * localkeys.localKeys) : M A :=
  fun s => let (x, lk) := op (localKeys (alloc s)) in
           (x, mkState (set_localKeys lk (alloc s)) (store s) (picks s)).

Definition onIDPool {A} (op : idpool.IDPool -> A * idpool.IDPool) : M A :=
  fun s => let (x, p) := op (idPool (alloc s)) in
           (x, mkState (set_idPool p (alloc s)) (store s) (picks s)).

Definition onMainCache (op : cache.cache -> cache.cache) : M unit :=
  fun s => (tt, mkState (set_mainCache (op (mainCache (alloc s))) (alloc s))
                  (store s) (picks s)).

(** Read the allocator. *)
Definition self : M Allocator := fun s => (alloc s, s).

(** [ctx.Err()] now. *)
Definition ctxErr (ctx : Context) : M (option error) :=
  fun s => (ctx (kvstore.now (store s)), s).

(** [lock.Unlock()]. *)
Definition Unlock (lock : string) : M unit :=
  onStore (fun st => (tt, kvstore.Unlock lock st)).

(** [prefixMatchesKey]: the last slash of [key] sits right after [prefix]. *)
Definition prefixMatchesKey (prefix key : string) : bool :=
  let lastSlash := gostrings.LastIndex key "/" in
  gostrings.len prefix =? lastSlash.

(** The loop [for k, v := range pairs] of [GetNoCache] and
    [GetNoCacheIfLocked]: the ID of the first pair met that matches the
    prefix and whose value parses, [NoID] when the loop runs out. *)
Fixpoint scanPairs (prefix : string) (pairs : kvstore.KeyValuePairs) : ID :=
  match pairs with
  | [] => NoID
  | (k, v) :: rest =>
      if prefixMatchesKey prefix k then
        match strconv.ParseUint (kvstore.Data v) with
        | Some id => id
        | None => scanPairs prefix rest
        end
      else scanPairs prefix rest
  end.

Section Methods.

Context {K : Type} `{AllocatorKey K}.

(** [lockPath] locks a key in the scope of an allocator. *)
Definition lockPath (ctx : Context) (key : string) : M (string + error) :=
  a ← self;
  let suffix := gostrings.TrimPrefix key (basePrefix a) in
  onStore (kvstore.LockPath (gopath.Join [lockPrefix a; suffix])).

(** [selectAvailableID]: the selected ID ORed with [prefixMask], the ID
    string and the originally selected ID. *)
Definition selectAvailableID : M (ID * string * ID) :=
  id ← onIDPool idpool.LeaseAvailableID;
  if negb (id =? NoID) then
    a ← self;
    let unmaskedID := id in
    let id := Z.lor id (prefixMask a) in
    mret (id, ID_String id, unmaskedID)
  else mret (0, "", 0).

(** [createValueNodeKey]: write the slave key [value/<key>/<suffix>] of
    the node under the lock, bound to the lease, and mark the local key
    as verified. *)
Definition createValueNodeKey (ctx : Context) (key : string) (newID : ID)
    (lock : string) : M (option error) :=
  a ← self;
  let valueKey := gopath.Join [valuePrefix a; key; suffix a] in
  '(_, err) ← onStore
    (kvstore.UpdateIfDifferentIfLocked valueKey (ID_String newID) true lock);
  match err with
  | Some err =>
      mret (Some ("unable to create value-node key '" +:+ valueKey +:+ "': " +:+ err))
  | None =>
      (* mark the key as verified; a failure is only logged *)
      _ ← onLocalKeys (localkeys.verify key);
      mret None
  end.

(** [GetNoCacheIfLocked]: the ID allocated to a key in the kvstore, read
    under the given lock. *)
Definition GetNoCacheIfLocked (ctx : Context) (key : K) (lock : string)
  : M (ID * option error) :=
  a ← self;
  let prefix := gopath.Join [valuePrefix a; GetKey key] in
  '(pairs, err) ← onStore (kvstore.ListPrefixIfLocked prefix lock);
  match err with
  | Some err => mret (0, Some err)
  | None => mret (scanPairs prefix pairs, None)
  end.

(** [GetNoCache]: the ID allocated to a key in the kvstore. *)
Definition GetNoCache (ctx : Context) (key : K) : M (ID * option error) :=
  a ← self;
  let prefix := gopath.Join [valuePrefix a; GetKey key] in
  '(pairs, err) ← onStore (kvstore.ListPrefix prefix);
  match err with
  | Some err => mret (0, Some err)
  | None => mret (scanPairs prefix pairs, None)
  end.

(** [GetIfLocked]: the ID allocated to a key, from the cache or else from
    the kvstore under the given lock. *)
Definition GetIfLocked (ctx : Context) (key : K) (lock : string)
  : M (ID * option error) :=
  a ← self;
  let id := cache.get (GetKey key) (mainCache a) in
  if negb (id =? NoID) then mret (id, None)
  else GetNoCacheIfLocked ctx key lock.

(** [Get]: the ID allocated to a key, from the cache or else from the
    kvstore. *)
Definition Get (ctx : Context) (key : K) : M (ID * option error) :=
  a ← self;
  let id := cache.get (GetKey key) (mainCache a) in
  if negb (id =? NoID) then mret (id, None)
  else GetNoCache ctx key.

(** The closure [releaseKeyAndID] of [lockedAllocate]. *)
Definition releaseKeyAndID (k : string) (unmaskedID : ID) : M unit :=
  _ ← onLocalKeys (localkeys.release k);
  onIDPool (fun p => (tt, idpool.Release unmaskedID p)).

(** [lockedAllocate], the block [if value != 0 { ... }]: the key has an
    ID already, the slave key is written for it. *)
Definition useExistingID (ctx : Context) (k : string) (value : ID) (lock : string)
  : M (ID * bool * option error) :=
  err ← createValueNodeKey ctx k value lock;
  match err with
  | Some err =>
      _ ← onLocalKeys (localkeys.release k);
      mret (0, false, Some ("unable to create slave key '" +:+ k +:+ "': " +:+ err))
  | None => mret (value, false, None)
  end.

(** [lockedAllocate], from [a.selectAvailableID()] to the end: a new ID
    is selected, the master key and then the slave key are created. *)
Definition allocateNewID (ctx : Context) (k : string) (lock : string)
  : M (ID * bool * option error) :=
  '(id, strID, unmaskedID) ← selectAvailableID;
  if id =? 0 then
    mret (0, false, Some "no more available IDs in configured space")
  else
    '(oldID, err) ← onLocalKeys (localkeys.allocate k id);
    match err with
    | Some err =>
        _ ← onIDPool (fun p => (tt, idpool.Release unmaskedID p));
        mret (0, false, Some ("unable to reserve local key '" +:+ k +:+ "': " +:+ err))
    | None =>
        (* another local writer beat us to allocating an ID for the key *)
        if negb (id =? oldID) then
          releaseKeyAndID k unmaskedID;;
          mret (0, false, Some "another writer has allocated this key")
        else
          a ← self;
          (* create /id/<ID> and fail if it already exists *)
          let keyPath := gopath.Join [idPrefix a; strID] in
          '(success, err) ← onStore (kvstore.CreateOnlyIfLocked keyPath k false lock);
          if bool_decide (is_Some err) || negb success then
            releaseKeyAndID k unmaskedID;;
            mret (0, false,
                  Some ("unable to create master key '" +:+ keyPath +:+ "': " +:+ fmtErr err))
          else
            (* notify the pool that the leased ID is now in use *)
            _ ← onIDPool (fun p => (tt, idpool.Use unmaskedID p));
            err ← createValueNodeKey ctx k id lock;
            match err with
            | Some err =>
                (* the master key is leaked here: it has been exposed and
                   may be in use by other nodes *)
                releaseKeyAndID k unmaskedID;;
                mret (0, false,
                      Some ("slave key creation failed '" +:+ k +:+ "': " +:+ err))
            | None => mret (id, true, None)
            end
    end.

(** [lockedAllocate], after the lock has been taken: the body that runs
    before the deferred [lock.Unlock()]. *)
Definition lockedAllocateLocked (ctx : Context) (key : K) (k lock : string)
  : M (ID * bool * option error) :=
  (* the part from [if value != 0] on, for the value settled before it *)
  let settled (value : ID) : M (ID * bool * option error) :=
    if negb (value =? 0) then useExistingID ctx k value lock
    else allocateNewID ctx k lock
  in
  '(value, err) ← GetIfLocked ctx key lock;
  match err with
  | Some err => mret (0, false, Some err)
  | None =>
      if value =? 0 then
        a ← self;
        let value := localkeys.lookupKey k (localKeys a) in
        if negb (value =? 0) then
          (* re-create master key *)
          let keyPath := gopath.Join [idPrefix a; strconv.FormatUint value] in
          '(success, err) ← onStore (kvstore.CreateOnlyIfLocked keyPath k false lock);
          if bool_decide (is_Some err) || negb success then
            mret (0, false,
                  Some ("unable to create master key '" +:+ keyPath +:+ "': " +:+ fmtErr err))
          else settled value
        else settled value
      else
        '(_, err) ← onLocalKeys (localkeys.allocate k value);
        match err with
        | Some err =>
            mret (0, false, Some ("unable to reserve local key '" +:+ k +:+ "': " +:+ err))
        | None => settled value
        end
  end.

(** [lockedAllocate]: one attempt to allocate under the kvstore lock of
    the key. *)
Definition lockedAllocate (ctx : Context) (key : K) : M (ID * bool * option error) :=
  let k := GetKey key in
  r ← lockPath ctx k;
  match r with
  | inr err => mret (0, false, Some err)
  | inl lock =>
      res ← lockedAllocateLocked ctx key k lock;
      (* defer lock.Unlock() *)
      Unlock lock;;
      mret res
  end.

(** What a [select] between [<-a.initialListDone] and [<-ctx.Done()]
    comes to. *)
Inductive Selected :=
| InitialListDone
| CtxDone (err : error)
| Blocked.

(** The [select] that opens [Allocate] and [Release]: with both channels
    ready the choice is the runtime's, with none the caller waits. *)
Definition selectInitialListDone (ctx : Context) : M Selected :=
  fun s =>
    match ctx (kvstore.now (store s)), initialListDone (alloc s) with
    | Some err, true =>
        match picks s with
        | true :: rest => (CtxDone err, mkState (alloc s) (store s) rest)
        | false :: rest => (InitialListDone, mkState (alloc s) (store s) rest)
        | [] => (InitialListDone, s)
        end
    | Some err, false => (CtxDone err, s)
    | None, true => (InitialListDone, s)
    | None, false => (Blocked, s)
    end.

(** The loop [for attempt := 0; attempt < maxAllocAttempts; attempt++]
    of [Allocate] with [remaining] iterations to go; [err] is the
    function's variable of that name. *)
Fixpoint allocateAttempts (ctx : Context) (key : K) (remaining : nat)
    (boff : backoff.Exponential) (err : option error)
  : M (ID * bool * option error) :=
  match remaining with
  | O => mret (0, false, err)
  | S remaining' =>
      '(value, isNew, err) ← lockedAllocate ctx key;
      match err with
      | None =>
          onMainCache (cache.insert (GetKey key) value);;
          mret (value, isNew, None)
      | Some _ =>
          done ← ctxErr ctx;
          match done with
          | Some cancelled =>
              mret (0, false, Some ("key allocation cancelled: " +:+ cancelled))
          | None =>
              '(waitErr, boff') ← onStore (backoff.Wait ctx boff);
              match waitErr with
              | Some waitErr => mret (0, false, Some waitErr)
              | None => allocateAttempts ctx key remaining' boff' err
              end
          end
      end
  end.

(** [Allocate]; [None] when the call waits for ever on the initial key
    list. *)
Definition Allocate (ctx : Context) (key : K)
  : M (option (ID * bool * option error)) :=
  let k := GetKey key in
  sel ← selectInitialListDone ctx;
  match sel with
  | Blocked => mret None
  | CtxDone err =>
      mret (Some (0, false,
        Some ("allocation was cancelled while waiting for initial key list to be received: "
              +:+ err)))
  | InitialListDone =>
      val ← onLocalKeys (localkeys.use k);
      if negb (val =? NoID) then
        onMainCache (cache.insert k val);;
        mret (Some (val, false, None))
      else
        a ← self;
        (* make a copy of the template and customize it *)
        let boff := backoffTemplate a in
        let boff := backoff.mkExponential (backoff.Min boff) (backoff.Factor boff)
                      (KeyString key) (backoff.attempt boff) in
        res ← allocateAttempts ctx key maxAllocAttempts boff None;
        mret (Some res)
  end.

(** [Release]; [None] when the call waits for ever on the initial key
    list. *)
Definition Release (ctx : Context) (key : K) : M (option (bool * option error)) :=
  sel ← selectInitialListDone ctx;
  match sel with
  | Blocked => mret None
  | CtxDone err =>
      mret (Some (false,
        Some ("release was cancelled while waiting for initial key list to be received: "
              +:+ err)))
  | InitialListDone =>
      let k := GetKey key in
      '(lastUse, err) ← onLocalKeys (localkeys.release k);
      match err with
      | Some err => mret (Some (lastUse, Some err))
      | None =>
          if (lastUse : bool) then
            a ← self;
            let valueKey := gopath.Join [valuePrefix a; k; suffix a] in
            (* a failed Delete is only logged *)
            _ ← onStore (kvstore.Delete valueKey);
            mret (Some (lastUse, None))
          else mret (Some (lastUse, None))
      end
  end.

(** One iteration of the loop [for key, v := range allocated] of
    [RunGC]. *)
Definition runGCIteration (staleKeysPrevRound : gmap string Z)
    (key : string) (v : kvstore.Value) (staleKeys : gmap string Z)
  : M (gmap string Z) :=
  r ← lockPath Background key;
  match r with
  | inr _ => mret staleKeys
  | inl lock =>
      a ← self;
      (* fetch list of all /value/<key> keys *)
      let valueKeyPrefix := gopath.Join [valuePrefix a; kvstore.Data v] in
      '(pairs, err) ← onStore (kvstore.ListPrefixIfLocked valueKeyPrefix lock);
      match err with
      | Some _ => Unlock lock;; mret staleKeys
      | None =>
          let hasUsers :=
            List.existsb (fun p => prefixMatchesKey valueKeyPrefix (fst p)) pairs in
          staleKeys' ←
            (if negb hasUsers then
               match staleKeysPrevRound !! key with
               | Some modRev =>
                   if modRev =? kvstore.ModRevision v then
                     (* a failed delete is only logged *)
                     _ ← onStore (kvstore.DeleteIfLocked key lock);
                     mret staleKeys
                   else mret (<[key := kvstore.ModRevision v]> staleKeys)
               | None => mret (<[key := kvstore.ModRevision v]> staleKeys)
               end
             else mret staleKeys);
          Unlock lock;;
          mret staleKeys'
      end
  end.

(** The loop [for key, v := range allocated] of [RunGC]. *)
Fixpoint runGCLoop (staleKeysPrevRound : gmap string Z)
    (allocated : kvstore.KeyValuePairs) (staleKeys : gmap string Z)
  : M (gmap string Z) :=
  match allocated with
  | [] => mret staleKeys
  | (key, v) :: rest =>
      staleKeys' ← runGCIteration staleKeysPrevRound key v staleKeys;
      runGCLoop staleKeysPrevRound rest staleKeys'
  end.

(** [RunGC] scans the kvstore for unused master keys and removes them;
    a nil map is the empty map. *)
Definition RunGC (staleKeysPrevRound : gmap string Z)
  : M (gmap string Z * option error) :=
  a ← self;
  '(allocated, err) ← onStore (kvstore.ListPrefix (idPrefix a));
  match err with
  | Some err => mret (∅, Some ("list failed: " +:+ err))
  | None =>
      staleKeys ← runGCLoop staleKeysPrevRound allocated ∅;
      mret (staleKeys, None)
  end.

(** [recreateMasterKey]; the results of the writes are only logged. *)
Definition recreateMasterKey (id : ID) (value : string) (reliablyMissing : bool)
  : M unit :=
  a ← self;
  let keyPath := gopath.Join [idPrefix a; ID_String id] in
  let valueKey := gopath.Join [valuePrefix a; value; suffix a] in
  _ ← (if reliablyMissing
       then onStore (kvstore.CreateOnly keyPath value false)
       else onStore (kvstore.UpdateIfDifferent keyPath value false));
  _ ← (if reliablyMissing
       then onStore (kvstore.CreateOnly valueKey (ID_String id) true)
       else onStore (kvstore.UpdateIfDifferent valueKey (ID_String id) true));
  mret tt.

(** The loop [for id, value := range ids] of [syncLocalKeys]. *)
Fixpoint syncLocalKeysLoop (ids : list (ID * string)) : M unit :=
  match ids with
  | [] => mret tt
  | (id, value) :: rest =>
      recreateMasterKey id value false;;
      syncLocalKeysLoop rest
  end.

(** [syncLocalKeys]: run at start and then every
    [option.Config.KVstorePeriodicSync] by [startLocalKeySync]. *)
Definition syncLocalKeys : M (option error) :=
  a ← self;
  let ids := localkeys.getVerifiedIDs (localKeys a) in
  syncLocalKeysLoop ids;;
  mret None.

End Methods.

(** *** Construction *)

(** [AllocatorOption] is the base type for allocator options. *)
Definition AllocatorOption := Allocator -> Allocator.

Definition WithEvents : AllocatorOption := fun a =>
  mkAllocator true (basePrefix a) (idPrefix a) (valuePrefix a) (lockPrefix a)
    (min a) (max a) (prefixMask a) (localKeys a) (suffix a) (lockless a)
    (backoffTemplate a) (mainCache a) (initialListDone a) (idPool a)
    (enableMasterKeyProtection a) (disableGC a).

Definition WithSuffix (v : string) : AllocatorOption := fun a =>
  mkAllocator (events a) (basePrefix a) (idPrefix a) (valuePrefix a) (lockPrefix a)
    (min a) (max a) (prefixMask a) (localKeys a) v (lockless a)
    (backoffTemplate a) (mainCache a) (initialListDone a) (idPool a)
    (enableMasterKeyProtection a) (disableGC a).

Definition WithMin (id : ID) : AllocatorOption := fun a =>
  mkAllocator (events a) (basePrefix a) (idPrefix a) (valuePrefix a) (lockPrefix a)
    id (max a) (prefixMask a) (localKeys a) (suffix a) (lockless a)
    (backoffTemplate a) (mainCache a) (initialListDone a) (idPool a)
    (enableMasterKeyProtection a) (disableGC a).

Definition WithMax (id : ID) : AllocatorOption := fun a =>
  mkAllocator (events a) (basePrefix a) (idPrefix a) (valuePrefix a) (lockPrefix a)
    (min a) id (prefixMask a) (localKeys a) (suffix a) (lockless a)
    (backoffTemplate a) (mainCache a) (initialListDone a) (idPool a)
    (enableMasterKeyProtection a) (disableGC a).

Definition WithPrefixMask (mask : ID) : AllocatorOption := fun a =>
  mkAllocator (events a) (basePrefix a) (idPrefix a) (valuePrefix a) (lockPrefix a)
    (min a) (max a) mask (localKeys a) (suffix a) (lockless a)
    (backoffTemplate a) (mainCache a) (initialListDone a) (idPool a)
    (enableMasterKeyProtection a) (disableGC a).

Definition WithMasterKeyProtection : AllocatorOption := fun a =>
  mkAllocator (events a) (basePrefix a) (idPrefix a) (valuePrefix a) (lockPrefix a)
    (min a) (max a) (prefixMask a) (localKeys a) (suffix a) (lockless a)
    (backoffTemplate a) (mainCache a) (initialListDone a) (idPool a)
    true (disableGC a).

Definition WithoutGC : AllocatorOption := fun a =>
  mkAllocator (events a) (basePrefix a) (idPrefix a) (valuePrefix a) (lockPrefix a)
    (min a) (max a) (prefixMask a) (localKeys a) (suffix a) (lockless a)
    (backoffTemplate a) (mainCache a) (initialListDone a) (idPool a)
    (enableMasterKeyProtection a) true.

(** The struct literal of [NewAllocator], for the first ten bytes
    [suffix10] of a fresh UUID.  The ID pool is created only after the
    checks; until then the field holds an empty pool. *)
Definition initialAllocator (basePath suffix10 : string) (locklessCapability : bool)
  : Allocator :=
  mkAllocator false basePath
    (gopath.Join [basePath; "id"])
    (gopath.Join [basePath; "value"])
    (gopath.Join [basePath; "locks"])
    1 strconv.maxUint64 0
    localkeys.newLocalKeys
    suffix10
    locklessCapability
    (backoff.mkExponential (20 * Millisecond) 2 "" 0)
    cache.newCache
    false
    (idpool.mkIDPool [] [] [])
    false false.

(** The loop [for _, fn := range opts] of [NewAllocator]. *)
Definition applyOptions (opts : list AllocatorOption) (a : Allocator) : Allocator :=
  fold_left (fun a fn => fn a) opts a.

(** [NewAllocator].  [client] tells whether [kvstore.Client()] is non-nil,
    [uuid] is the string of the fresh UUID and [locklessCapability] the
    answer of the function of that name.  The outer [None] is the
    run-time panic of slicing a UUID string shorter than ten bytes.  The
    cache's watcher and the local key sync are started in the background
    and are not part of the returned state. *)
Definition NewAllocator (client : bool) (uuid : string) (locklessCapability : bool)
    (basePath : string) (opts : list AllocatorOption)
  : option (option Allocator * option error) :=
  if negb client then Some (None, Some "kvstore client not configured")
  else if (String.length uuid <? 10)%nat then None
  else
    let a := initialAllocator basePath (String.substring 0 10 uuid) locklessCapability in
    let a := applyOptions opts a in
    let a := set_mainCache cache.newCache a in
    if String.eqb (suffix a) "<nil>" then
      Some (None, Some "allocator suffix is <nil> and unlikely unique")
    else if min a <? 1 then
      Some (None, Some "minimum ID must be >= 1")
    else if max a <=? min a then
      Some (None, Some "maximum ID must be greater than minimum ID")
    else
      Some (Some (set_idPool (idpool.NewIDPool (min a) (max a)) a), None).

(** ** Vocabulary of the statements *)

(** The pairs a prefix listing returns from a store. *)
Definition listed (prefix : string) (st : kvstore.Store) : kvstore.KeyValuePairs :=
  List.filter (fun p => gostrings.HasPrefix (fst p) prefix) (kvstore.pairs st).

(** The fate of the next call that can fail. *)
Definition nextFault (st : kvstore.Store) : option error :=
  List.hd None (kvstore.faults st).

(** Does a pair count for [prefix] and carry an ID? *)
Definition usable (prefix : string) (p : string * kvstore.Value) : bool :=
  prefixMatchesKey prefix (fst p) && bool_decide (is_Some (strconv.ParseUint (kvstore.Data (snd p)))).

Section Vocabulary.

Context {K : Type} `{AllocatorKey K}.

(** The prefix under which the slave keys of [key] are listed. *)
Definition slavePrefix (a : Allocator) (key : K) : string :=
  gopath.Join [valuePrefix a; GetKey key].

(** What a state looks like after one more call to its store. *)
Definition called (c : kvstore.Call) (s : State) : State :=
  mkState (alloc s) (snd (kvstore.enter c (store s))) (picks s).

End Vocabulary.

(** The fate of the call after [n] more calls that can fail. *)
Definition faultAt (n : nat) (st : kvstore.Store) : option error :=
  nth n (kvstore.faults st) None.

(** The path [lockPath] locks for a key. *)
Definition lockName (a : Allocator) (k : string) : string :=
  gopath.Join [lockPrefix a; gostrings.TrimPrefix k (basePrefix a)].

(** States reached from a state. *)
Definition onStoreState (f : kvstore.Store -> kvstore.Store) (s : State) : State :=
  mkState (alloc s) (f (store s)) (picks s).

Definition unlocked (lock : string) : State -> State :=
  onStoreState (kvstore.Unlock lock).

Definition wrote (key value : string) (lease : bool) : State -> State :=
  onStoreState (kvstore.write key value lease).

Definition erased (key : string) : State -> State :=
  onStoreState (kvstore.erase key).

Definition withPool (p : idpool.IDPool) (s : State) : State :=
  mkState (set_idPool p (alloc s)) (store s) (picks s).

Definition withLocalKeys (lk : localkeys.localKeys) (s : State) : State :=
  mkState (set_localKeys lk (alloc s)) (store s) (picks s).

(** A state with the content of its store replaced. *)
Definition withPairs (f : kvstore.KeyValuePairs -> kvstore.KeyValuePairs) (s : State)
  : State :=
  mkState (alloc s)
    (kvstore.mkStore (f (kvstore.pairs (store s))) (kvstore.revision (store s))
       (kvstore.calls (store s)) (kvstore.faults (store s)))
    (picks s).

(** A pair that matches [prefix] and whose value does not parse. *)
Definition corrupt (prefix : string) (p : string * kvstore.Value) : bool :=
  prefixMatchesKey prefix (fst p)
  && negb (bool_decide (is_Some (strconv.ParseUint (kvstore.Data (snd p))))).

(** The two writes [recreateMasterKey] makes for a local key: the master
    key and then the slave key. *)
Definition recreateCalls (a : Allocator) (reliablyMissing : bool)
    (entry : ID * string) : list kvstore.Call :=
  let keyPath := gopath.Join [idPrefix a; ID_String (fst entry)] in
  let valueKey := gopath.Join [valuePrefix a; snd entry; suffix a] in
  if reliablyMissing
  then [kvstore.CreateOnlyCall keyPath (snd entry) false;
        kvstore.CreateOnlyCall valueKey (ID_String (fst entry)) true]
  else [kvstore.UpdateIfDifferentCall keyPath (snd entry) false;
        kvstore.UpdateIfDifferentCall valueKey (ID_String (fst entry)) true].

(** Does the master value have a slave key, as [RunGC] decides it. *)
Definition hasUsers (valueKeyPrefix : string) (st : kvstore.Store) : bool :=
  List.existsb (fun p => prefixMatchesKey valueKeyPrefix (fst p))
    (listed valueKeyPrefix st).

(** The calls of one iteration of [RunGC] that gets its lock, in the
    order in which they are made. *)
Definition gcCalls (lock valueKeyPrefix key : string) (deletes : bool)
  : list kvstore.Call :=
  [kvstore.LockPathCall lock; kvstore.ListPrefixIfLockedCall valueKeyPrefix lock]
  ++ (if deletes then [kvstore.DeleteIfLockedCall key lock] else [])
  ++ [kvstore.UnlockCall lock].

(** Is the call a lock acquisition? *)
Definition isLockPath (c : kvstore.Call) : bool :=
  match c with kvstore.LockPathCall _ => true | _ => false end.

(** The number of lock acquisitions a store has seen; [lockedAllocate]
    makes one per attempt. *)
Definition attempts (st : kvstore.Store) : nat :=
  length (List.filter isLockPath (kvstore.calls st)).

(** A backoff after one more wait. *)
Definition waitedOnce (b : backoff.Exponential) : backoff.Exponential :=
  backoff.mkExponential (backoff.Min b) (backoff.Factor b) (backoff.Name b)
    (backoff.attempt b + 1).

(** The calls of [n] rounds in each of which the lock is refused and the
    backoff waited on, in the order in which they are made. *)
Fixpoint failedRounds (lock : string) (b : backoff.Exponential) (n : nat)
  : list kvstore.Call :=
  match n with
  | O => []
  | S n' =>
      kvstore.LockPathCall lock
      :: kvstore.BackoffWaitCall (backoff.Name b) (backoff.Min b) (backoff.Factor b)
           (backoff.attempt b + 1)
      :: failedRounds lock (waitedOnce b) n'
  end.

(** The backoff [Allocate] starts from for a key. *)
Definition backoffFor {K} `{AllocatorKey K} (a : Allocator) (key : K) : backoff.Exponential :=
  backoff.mkExponential (backoff.Min (backoffTemplate a)) (backoff.Factor (backoffTemplate a))
    (KeyString key) (backoff.attempt (backoffTemplate a)).

(** An option that leaves the backoff template alone. *)
Definition keepsBackoff (o : AllocatorOption) : Prop :=
  forall a, backoffTemplate (o a) = backoffTemplate a.

(** The state after a wait on the backoff. *)
Definition waited (b : backoff.Exponential) (s : State) : State :=
  mkState (alloc s) (snd (backoff.Wait Background b (store s))) (picks s).

(** A method that acquires no lock. *)
Definition quiet {A} (m : M A) : Prop :=
  forall s, attempts (store (snd (m s))) = attempts (store s).

(** ** Fixtures: one participant [n1] on [cilium/state/identities/v1] *)

(** The allocator once the watcher has closed [initialListDone]. *)
Definition initialListClosed (a : Allocator) : Allocator :=
  mkAllocator (events a) (basePrefix a) (idPrefix a) (valuePrefix a) (lockPrefix a)
    (min a) (max a) (prefixMask a) (localKeys a) (suffix a) (lockless a)
    (backoffTemplate a) (mainCache a) true (idPool a)
    (enableMasterKeyProtection a) (disableGC a).

Definition n1Options : list AllocatorOption := [WithMin 1; WithMax 3; WithSuffix "n1"].

Definition n1Allocator : Allocator :=
  match NewAllocator true "0f1e2d3c-4b5a-6978-8796-a5b4c3d2e1f0" false
          "cilium/state/identities/v1" n1Options with
  | Some (Some a, _) => initialListClosed a
  | _ => initialAllocator "" "" false
  end.

(** [n1] in front of a store with the given content and faults. *)
Definition n1State (pairs : kvstore.KeyValuePairs) (faults : list (option error)) : State :=
  mkState n1Allocator (kvstore.mkStore pairs 100 [] faults) [].

Definition slaveFoo : string := "cilium/state/identities/v1/value/label;foo;/n1".
Definition slaveFooBar : string := "cilium/state/identities/v1/value/label;foo;bar;/n1".

(** Scenario S3: [n1] allocates ["a"], ["b"], ["c"] and then ["d"]. *)
Definition allocateFour (ctx : Context) :
  M (option (ID * bool * option error) * option (ID * bool * option error)
     * option (ID * bool * option error) * option (ID * bool * option error)) :=
  r1 ← Allocate ctx "a";
  r2 ← Allocate ctx "b";
  r3 ← Allocate ctx "c";
  r4 ← Allocate ctx "d";
  mret (r1, r2, r3, r4).

(** [n1] in front of an empty store where the lock, the listing and the
    creation of the master key succeed and the write of the slave key
    fails. *)
Definition slaveWriteFails : State :=
  n1State [] [None; None; None; Some "etcdserver: request timed out"].

(** [n1] with every ID of its pool in use. *)
Definition poolExhausted : State :=
  withPool (idpool.mkIDPool [] [] [3; 2; 1]) (n1State [] []).

(** [n1] holding its last local reference to ["a"], the store about to
    fail its next call. *)
Definition lastLocalUse : State :=
  withLocalKeys [("a", localkeys.mkLocalKey 1 1 true)]
    (n1State [("cilium/state/identities/v1/id/1", kvstore.mkValue "a" 1 false);
              ("cilium/state/identities/v1/value/a/n1", kvstore.mkValue "1" 2 true)]
       [Some "etcdserver: request timed out"]).

(** [n1] holding a verified reference to ["a"] as ID 1 while the master
    key of ID 1 carries another key. *)
Definition staleMaster : State :=
  withLocalKeys [("a", localkeys.mkLocalKey 1 1 true)]
    (n1State [("cilium/state/identities/v1/id/1", kvstore.mkValue "b" 1 false)] []).

(** The master key of ID 1, last written at revision 5 for the key ["a"],
    alone in the store: no participant holds ["a"]. *)
Definition masterOne : string := "cilium/state/identities/v1/id/1".

Definition unusedMaster (faults : list (option error)) : State :=
  n1State [(masterOne, kvstore.mkValue "a" 5 false)] faults.

(** What a round of [RunGC] returns in front of [unusedMaster]. *)
Definition staleOne : gmap string Z := {[ masterOne := 5 ]}.

(** Sixteen refusals of the lock, told apart by their messages, and [n1]
    in front of a store that answers them to the next sixteen calls. *)
Definition sixteenRefusals : list error :=
  ["refused 1"; "refused 2"; "refused 3"; "refused 4"; "refused 5"; "refused 6";
   "refused 7"; "refused 8"; "refused 9"; "refused 10"; "refused 11"; "refused 12";
   "refused 13"; "refused 14"; "refused 15"; "refused 16"].

Definition locksRefused : State := n1State [] (map Some sixteenRefusals).

(** A context cancelled at the logical time [t0]. *)
Definition cancelledAt (t0 : nat) : Context :=
  fun t => if (t0 <=? t)%nat then Some "context canceled" else None.

(** ** Further methods *)

(** [WaitForInitialSync] waits until the initial sync is complete; [None]
    when the call waits for ever. *)
Definition WaitForInitialSync (ctx : Context) : M (option (option error)) :=
  sel ← selectInitialListDone ctx;
  match sel with
  | Blocked => mret None
  | CtxDone err =>
      mret (Some (Some ("identity sync with kvstore was cancelled: " +:+ err)))
  | InitialListDone => mret (Some None)
  end.

(** [NewAllocatorForGC] returns an allocator that can be used to run
    [RunGC]: the three prefixes are set, every other field holds its
    zero value (the nil table, pool and cache as empty ones, the nil
    channel as one that is never closed). *)
Definition NewAllocatorForGC (basePath : string) : Allocator :=
  mkAllocator false ""
    (gopath.Join [basePath; "id"])
    (gopath.Join [basePath; "value"])
    (gopath.Join [basePath; "locks"])
    0 0 0
    localkeys.newLocalKeys
    ""
    false
    (backoff.mkExponential 0 0 "" 0)
    cache.newCache
    false
    (idpool.mkIDPool [] [] [])
    false false.

(** The options the package offers. *)
Inductive providedOption : AllocatorOption -> Prop :=
| provided_WithEvents : providedOption WithEvents
| provided_WithSuffix v : providedOption (WithSuffix v)
| provided_WithMin id : providedOption (WithMin id)
| provided_WithMax id : providedOption (WithMax id)
| provided_WithPrefixMask mask : providedOption (WithPrefixMask mask)
| provided_WithMasterKeyProtection : providedOption WithMasterKeyProtection
| provided_WithoutGC : providedOption WithoutGC.

(** ** Further vocabulary *)

(** A path element that [path.Clean] keeps as it is: not empty, neither
    ["."] nor [".."], and without a slash. *)
Definition plainSegment (seg : string) : bool :=
  negb (String.eqb seg "") && negb (String.eqb seg ".") && negb (String.eqb seg "..")
  && negb (gostrings.contains "/" seg).

(** A state with [(key, id)] inserted into its main cache. *)
Definition cached (key : string) (id : ID) (s : State) : State :=
  mkState (set_mainCache (cache.insert key id (mainCache (alloc s))) (alloc s))
    (store s) (picks s).

(** The slave key of a key for the node of an allocator. *)
Definition slaveKey (a : Allocator) (k : string) : string :=
  gopath.Join [valuePrefix a; k; suffix a].

(** The master key of an ID. *)
Definition masterKey (a : Allocator) (id : ID) : string :=
  gopath.Join [idPrefix a; ID_String id].

(** A local key marked as verified. *)
Definition verifiedKey (e : localkeys.localKey) : localkeys.localKey :=
  localkeys.mkLocalKey (localkeys.val e) (localkeys.refcnt e) true.

(** Two stores that hold the same pairs at the same revision and will
    fail the same calls. *)
Definition sameContent (st1 st2 : kvstore.Store) : Prop :=
  kvstore.pairs st1 = kvstore.pairs st2
  /\ kvstore.revision st1 = kvstore.revision st2
  /\ kvstore.faults st1 = kvstore.faults st2.

(** ** Further fixtures *)

(** A second participant [n2] on the same base path. *)
Definition n2Allocator : Allocator :=
  match NewAllocator true "9a8b7c6d-5e4f-4a3b-9c2d-1e0f9a8b7c6d" false
          "cilium/state/identities/v1" [WithMin 1; WithMax 3; WithSuffix "n2"] with
  | Some (Some a, _) => initialListClosed a
  | _ => initialAllocator "" "" false
  end.

(** The store once [n1] has allocated ["a"] as ID 1. *)
Definition heldByN1 : kvstore.KeyValuePairs :=
  [("cilium/state/identities/v1/id/1", kvstore.mkValue "a" 101 false);
   ("cilium/state/identities/v1/value/a/n1", kvstore.mkValue "1" 102 true)].

(** [n2] in front of a store with the given content and faults. *)
Definition n2State (pairs : kvstore.KeyValuePairs) (faults : list (option error)) : State :=
  mkState n2Allocator (kvstore.mkStore pairs 102 [] faults) [].

(** [n1] holding a verified reference to ["a"] as ID 1 in front of a
    store with the given content. *)
Definition n1Holding (pairs : kvstore.KeyValuePairs) (faults : list (option error)) : State :=
  withLocalKeys [("a", localkeys.mkLocalKey 1 1 true)] (n1State pairs faults).

(** Is the call a listing or a conditional write made under the given
    lock? *)
Definition underLock (lock : string) (c : kvstore.Call) : bool :=
  match c with
  | kvstore.ListPrefixIfLockedCall _ l
  | kvstore.CreateOnlyIfLockedCall _ _ _ l
  | kvstore.UpdateIfDifferentIfLockedCall _ _ _ l => String.eqb l lock
  | _ => false
  end.

(** A method all of whose calls to the kvstore satisfy [P]. *)
Definition emits {A} (P : kvstore.Call -> bool) (m : M A) : Prop :=
  forall s, exists mid,
    kvstore.calls (store (snd (m s))) = mid ++ kvstore.calls (store s)
    /\ forallb P mid = true.

(** A method whose result satisfies [P] in every state. *)
Definition yields {A} (P : A -> Prop) (m : M A) : Prop :=
  forall s, P (fst (m s)).

(** The shape of what an attempt returns: an ID other than [NoID] with no
    error, or no ID and [false] with an error. *)
Definition attemptResult (r : ID * bool * option error) : Prop :=
  match r with
  | (value, _, None) => value <> NoID
  | (value, isNew, Some _) => value = 0 /\ isNew = false
  end.

(** [n1] before the initial list of keys has been received. *)
Definition n1Starting : State :=
  match NewAllocator true "0f1e2d3c-4b5a-6978-8796-a5b4c3d2e1f0" false
          "cilium/state/identities/v1" n1Options with
  | Some (Some a, _) => mkState a (kvstore.mkStore [] 100 [] []) []
  | _ => n1State [] []
  end.

(** * Properties *)

(** ** Strings and paths *)

Example Join_value_prefix :
  gopath.Join ["cilium/state/identities/v1"; "value"] = "cilium/state/identities/v1/value".
Proof. reflexivity. Qed.

Example Join_slave_key :
  gopath.Join ["a/value"; "label;foo;"; "n1"] = "a/value/label;foo;/n1".
Proof. reflexivity. Qed.

Example Join_cleans :
  gopath.Join ["/a//b/./c/.."; ""; "x"] = "/a/b/x"
  /\ gopath.Join ["a/value"; "../id"] = "a/id"
  /\ gopath.Join ["../.."; "a"; ".."; ".."] = "../../.."
  /\ gopath.Join [""; ""] = "".
Proof. repeat split. Qed.

Example ParseUint_FormatUint_samples :
  strconv.FormatUint 18446744073709551615 = "18446744073709551615"
  /\ strconv.FormatUint 0 = "0"
  /\ strconv.ParseUint "18446744073709551615" = Some 18446744073709551615
  /\ strconv.ParseUint "18446744073709551616" = None
  /\ strconv.ParseUint "+1" = None
  /\ strconv.ParseUint "" = None
  /\ strconv.ParseUint "007" = Some 7.
Proof. repeat split; vm_compute; reflexivity. Qed.

Section LastIndexFacts.

Import gostrings.

Variable sep : ascii.

Lemma len_nonneg s : 0 <= len s.
Proof. unfold len. lia. Qed.

Lemma len_String c s : len (String c s) = len s + 1.
Proof. unfold len. cbn [String.length]. lia. Qed.

Lemma append_String c (a b : string) : String c a +:+ b = String c (a +:+ b).
Proof. reflexivity. Qed.

Lemma append_empty (b : string) : "" +:+ b = b.
Proof. reflexivity. Qed.

Lemma LastIndexFrom_app a b i last :
  LastIndexFrom sep (a +:+ b) i last
  = LastIndexFrom sep b (i + len a) (LastIndexFrom sep a i last).
Proof.
  revert i last. induction a as [|c a IH]; intros i last.
  - rewrite append_empty. unfold len. cbn. f_equal. lia.
  - rewrite append_String, len_String. cbn [LastIndexFrom]. rewrite IH. f_equal. lia.
Qed.

Lemma LastIndexFrom_absent s i last :
  contains sep s = false -> LastIndexFrom sep s i last = last.
Proof.
  revert i last. induction s as [|c s IH]; intros i last Hc; cbn in *; [done|].
  apply orb_false_iff in Hc as [-> Hc]. by apply IH.
Qed.

Lemma LastIndexFrom_range s i last :
  LastIndexFrom sep s i last = last
  \/ (i <= LastIndexFrom sep s i last < i + len s).
Proof.
  revert i last. induction s as [|c s IH]; intros i last; cbn [LastIndexFrom].
  - by left.
  - rewrite len_String. pose proof (len_nonneg s).
    destruct (Ascii.eqb c sep).
    + right. destruct (IH (i + 1) i) as [-> | ?]; lia.
    + destruct (IH (i + 1) last) as [-> | ?]; [by left | right; lia].
Qed.

Lemma LastIndexFrom_present s i last :
  contains sep s = true -> i <= LastIndexFrom sep s i last < i + len s.
Proof.
  revert i last. induction s as [|c s IH]; intros i last Hc; cbn in *; [done|].
  rewrite len_String. pose proof (len_nonneg s).
  destruct (Ascii.eqb c sep); cbn in Hc.
  - destruct (LastIndexFrom_range s (i + 1) i) as [-> | ?]; lia.
  - specialize (IH (i + 1) last Hc). lia.
Qed.

Lemma LastIndex_lt_len s : LastIndex s sep < len s.
Proof.
  unfold LastIndex. pose proof (len_nonneg s).
  destruct (LastIndexFrom_range s 0 (-1)) as [-> | ?]; lia.
Qed.

End LastIndexFacts.

Lemma contains_app c (a b : string) :
  gostrings.contains c (a +:+ b) = gostrings.contains c a || gostrings.contains c b.
Proof.
  induction a as [|c' a IH]; [done|].
  rewrite append_String. cbn [gostrings.contains]. by rewrite IH, orb_assoc.
Qed.

Lemma HasPrefix_app s prefix :
  gostrings.HasPrefix s prefix = true -> exists rest, s = prefix +:+ rest.
Proof.
  unfold gostrings.HasPrefix. revert s.
  induction prefix as [|c p IH]; intros s Hp.
  - by exists s.
  - destruct s as [|c' s]; [done|]. cbn [String.prefix] in Hp.
    destruct (ascii_dec c c') as [->|]; [|done].
    destruct (IH s Hp) as [rest ->]. by exists rest.
Qed.

(** A key that extends [prefix] matches it exactly when what follows is
    one slash and one path segment. *)
Lemma prefixMatchesKey_app prefix rest :
  prefixMatchesKey prefix (prefix +:+ rest) = true
  <-> exists seg, rest = String "/" seg /\ gostrings.contains "/" seg = false.
Proof.
  unfold prefixMatchesKey, gostrings.LastIndex.
  rewrite LastIndexFrom_app, Z.eqb_eq, Z.add_0_l.
  pose proof (LastIndex_lt_len "/" prefix) as Hlt. unfold gostrings.LastIndex in Hlt.
  split.
  - intros Heq. destruct rest as [|c seg]; cbn [gostrings.LastIndexFrom] in Heq; [lia|].
    destruct (gostrings.contains "/" seg) eqn:Hseg.
    + pose proof (LastIndexFrom_present "/" seg (gostrings.len prefix + 1)
        (if Ascii.eqb c "/" then gostrings.len prefix
         else gostrings.LastIndexFrom "/" prefix 0 (-1)) Hseg). lia.
    + rewrite LastIndexFrom_absent in Heq by done.
      destruct (Ascii.eqb_spec c "/") as [->|]; [|lia]. by exists seg.
  - intros (seg & -> & Hseg). cbn [gostrings.LastIndexFrom].
    rewrite LastIndexFrom_absent by done. done.
Qed.

(** ** Lookup in the kvstore *)

Section ScanPairs.

Variable prefix : string.

Lemma scanPairs_cons_unusable p rest :
  usable prefix p = false -> scanPairs prefix (p :: rest) = scanPairs prefix rest.
Proof.
  destruct p as [k v]. unfold usable. cbn [scanPairs fst snd].
  destruct (prefixMatchesKey prefix k); [|done].
  destruct (strconv.ParseUint (kvstore.Data v)); [|done].
  intros Hu. apply andb_false_iff in Hu as [Hu|Hu]; [done|].
  apply bool_decide_eq_false in Hu. destruct Hu. by eexists.
Qed.

Lemma scanPairs_cons_usable k v rest id :
  prefixMatchesKey prefix k = true ->
  strconv.ParseUint (kvstore.Data v) = Some id ->
  scanPairs prefix ((k, v) :: rest) = id.
Proof. intros Hm Hp. cbn [scanPairs]. by rewrite Hm, Hp. Qed.

Lemma scanPairs_none_usable pairs :
  Forall (fun p => usable prefix p = false) pairs -> scanPairs prefix pairs = NoID.
Proof.
  induction 1 as [|p rest Hp _ IH]; [done|]. by rewrite scanPairs_cons_unusable.
Qed.

(** A returned ID other than [NoID] is the parsed value of a pair that
    matches the prefix. *)
Lemma scanPairs_origin pairs :
  scanPairs prefix pairs <> NoID ->
  exists k v, In (k, v) pairs /\ prefixMatchesKey prefix k = true
              /\ strconv.ParseUint (kvstore.Data v) = Some (scanPairs prefix pairs).
Proof.
  induction pairs as [|[k v] rest IH]; [done|]. cbn [scanPairs].
  destruct (prefixMatchesKey prefix k) eqn:Hm.
  - destruct (strconv.ParseUint (kvstore.Data v)) as [id|] eqn:Hp.
    + intros _. exists k, v. split; [by left|done].
    + intros Hne. destruct (IH Hne) as (k' & v' & Hin & ?). exists k', v'. split; [by right|done].
  - intros Hne. destruct (IH Hne) as (k' & v' & Hin & ?). exists k', v'. split; [by right|done].
Qed.

(** So is the result, whatever it is, when some pair matches and
    parses. *)
Lemma scanPairs_found pairs :
  scanPairs prefix pairs <> NoID \/ (exists p, In p pairs /\ usable prefix p = true) ->
  exists k v, In (k, v) pairs /\ prefixMatchesKey prefix k = true
              /\ strconv.ParseUint (kvstore.Data v) = Some (scanPairs prefix pairs).
Proof.
  intros [Hne|(p & Hin & Hu)]; [by apply scanPairs_origin|].
  induction pairs as [|[k v] rest IH]; [done|]. cbn [scanPairs].
  destruct (prefixMatchesKey prefix k) eqn:Hm.
  - destruct (strconv.ParseUint (kvstore.Data v)) as [id|] eqn:Hp.
    + exists k, v. split; [by left|done].
    + destruct Hin as [<-|Hin].
      { unfold usable in Hu. cbn [fst snd] in Hu. rewrite Hm, Hp in Hu. cbn in Hu. done. }
      destruct (IH Hin) as (k' & v' & Hin' & ?). exists k', v'. split; [by right|done].
  - destruct Hin as [<-|Hin].
    { unfold usable in Hu. cbn [fst] in Hu. by rewrite Hm in Hu. }
    destruct (IH Hin) as (k' & v' & Hin' & ?). exists k', v'. split; [by right|done].
Qed.

End ScanPairs.

Lemma listed_In prefix st k v :
  In (k, v) (listed prefix st) ->
  In (k, v) (kvstore.pairs st) /\ exists rest, k = prefix +:+ rest.
Proof.
  unfold listed. rewrite filter_In. cbn [fst]. intros [Hin Hp].
  split; [done|]. by apply HasPrefix_app.
Qed.

Section LookupRuns.

Context {K : Type} `{AllocatorKey K}.

Lemma GetNoCache_run ctx (key : K) s :
  GetNoCache ctx key s =
  let prefix := slavePrefix (alloc s) key in
  (match nextFault (store s) with
   | Some err => (0, Some err)
   | None => (scanPairs prefix (listed prefix (store s)), None)
   end, called (kvstore.ListPrefixCall prefix) s).
Proof.
  unfold GetNoCache, self, onStore, mbind, M_bind, mret, M_ret, called, nextFault.
  unfold kvstore.ListPrefix, kvstore.listPrefix, kvstore.enter. cbn.
  by destruct (hd None (kvstore.faults (store s))).
Qed.

Lemma GetNoCacheIfLocked_run ctx (key : K) lock s :
  GetNoCacheIfLocked ctx key lock s =
  let prefix := slavePrefix (alloc s) key in
  (match nextFault (store s) with
   | Some err => (0, Some err)
   | None => (scanPairs prefix (listed prefix (store s)), None)
   end, called (kvstore.ListPrefixIfLockedCall prefix lock) s).
Proof.
  unfold GetNoCacheIfLocked, self, onStore, mbind, M_bind, mret, M_ret, called, nextFault.
  unfold kvstore.ListPrefixIfLocked, kvstore.listPrefix, kvstore.enter. cbn.
  by destruct (hd None (kvstore.faults (store s))).
Qed.

End LookupRuns.

Lemma listed_withPairs_filter prefix f (s : State) :
  listed prefix (store (withPairs (List.filter f) s))
  = List.filter f (listed prefix (store s)).
Proof.
  unfold listed, withPairs. cbn [store kvstore.pairs].
  induction (kvstore.pairs (store s)) as [|p l IH]; [done|]. cbn [List.filter].
  destruct (f p) eqn:Hf, (gostrings.HasPrefix (fst p) prefix) eqn:Hp;
    cbn [List.filter]; rewrite ?Hf, ?Hp, IH; done.
Qed.

Lemma scanPairs_filter_corrupt prefix pairs :
  scanPairs prefix (List.filter (fun p => negb (corrupt prefix p)) pairs)
  = scanPairs prefix pairs.
Proof.
  induction pairs as [|[k v] rest IH]; [done|]. cbn [List.filter].
  unfold corrupt at 1. cbn [fst snd scanPairs].
  destruct (prefixMatchesKey prefix k) eqn:Hm.
  - destruct (strconv.ParseUint (kvstore.Data v)) as [id|] eqn:Hp; cbn.
    + by rewrite Hm, Hp.
    + done.
  - cbn. by rewrite Hm.
Qed.

(** C3: On a cache miss [Get] is [GetNoCache], which lists the prefix
    [valuePrefix/<key.GetKey()>].  When the listing succeeds it returns
    no error, and an ID other than
    [NoID] only as the decimal value of a listed pair whose key is the
    prefix, one slash and one more path segment; when some listed pair
    matches and parses, the result is the value of such a pair.  A
    listed pair with more than one further segment does not match, and
    when no listed pair matches the result is [NoID].  With slaves at
    [value/label;foo;/n1] and [value/label;foo;bar;/n1], in either order,
    the lookup of [label;foo;] answers with the value of the former. *)
Theorem GetNoCache_exact_prefix_match {K : Type} `{AllocatorKey K}
    (ctx : Context) (key : K) (s : State) :
  nextFault (store s) = None ->
  let prefix := slavePrefix (alloc s) key in
  let pairs := listed prefix (store s) in
  let id := fst (fst (GetNoCache ctx key s)) in
  (cache.get (GetKey key) (mainCache (alloc s)) = NoID ->
   Get ctx key s = GetNoCache ctx key s)
  /\ kvstore.calls (store (snd (GetNoCache ctx key s)))
     = kvstore.ListPrefixCall prefix :: kvstore.calls (store s)
  /\ snd (fst (GetNoCache ctx key s)) = None
  /\ (id <> NoID \/ (exists p, In p pairs /\ usable prefix p = true) ->
      exists k v seg, In (k, v) pairs /\ k = prefix +:+ String "/" seg
        /\ gostrings.contains "/" seg = false
        /\ strconv.ParseUint (kvstore.Data v) = Some id)
  /\ (forall k v seg1 seg2, In (k, v) pairs ->
        k = prefix +:+ String "/" (seg1 +:+ String "/" seg2) ->
        prefixMatchesKey prefix k = false)
  /\ ((forall k v, In (k, v) pairs -> prefixMatchesKey prefix k = false) -> id = NoID)
  /\ (forall v1 v2 faults,
        let expected := default NoID (strconv.ParseUint (kvstore.Data v1)) in
        fst (GetNoCache Background "label;foo;"
               (n1State [(slaveFoo, v1); (slaveFooBar, v2)] (None :: faults)))
          = (expected, None)
        /\ fst (GetNoCache Background "label;foo;"
                 (n1State [(slaveFooBar, v2); (slaveFoo, v1)] (None :: faults)))
          = (expected, None)).
Proof.
  intros Hok prefix pairs id. subst id.
  split. { intros Hmiss. unfold Get, self, mbind, M_bind. by rewrite Hmiss. }
  rewrite GetNoCache_run. cbn zeta.
  rewrite Hok. cbn [fst snd]. fold prefix. fold pairs.
  split; [done|]. split; [done|]. split; [|split; [|split]].
  - intros Hsome.
    destruct (scanPairs_found prefix pairs Hsome) as (k & v & Hin & Hm & Hp).
    destruct (listed_In _ _ _ _ Hin) as [_ [rest ->]].
    apply prefixMatchesKey_app in Hm as (seg & -> & Hseg). by exists (prefix +:+ String "/" seg), v, seg.
  - intros k v seg1 seg2 _ ->. apply not_true_is_false. intros Hm.
    apply prefixMatchesKey_app in Hm as (seg & [= <-] & Hseg).
    rewrite contains_app in Hseg. cbn in Hseg. by rewrite orb_true_r in Hseg.
  - intros Hnone. apply scanPairs_none_usable. apply Forall_forall. intros [k v] Hin.
    apply list_elem_of_In in Hin. unfold usable. cbn [fst]. by rewrite (Hnone k v Hin).
  - intros v1 v2 faults. rewrite !GetNoCache_run. cbn zeta. cbn [fst].
    split; (f_equal; cbv [scanPairs listed n1State store kvstore.pairs List.filter fst snd];
      change (slavePrefix (alloc _) "label;foo;") with "cilium/state/identities/v1/value/label;foo;";
      change (gostrings.HasPrefix slaveFoo _) with true;
      change (gostrings.HasPrefix slaveFooBar _) with true;
      change (prefixMatchesKey _ slaveFoo) with true;
      change (prefixMatchesKey _ slaveFooBar) with false;
      cbv iota; by destruct (strconv.ParseUint (kvstore.Data v1))).
Qed.

Lemma GetNoCache_exact_prefix_match_witness :
  nextFault (store (n1State [(slaveFooBar, kvstore.mkValue "1002" 8 true);
                             (slaveFoo, kvstore.mkValue "1001" 7 true)] [None])) = None
  /\ fst (GetNoCache Background "label;foo;"
            (n1State [(slaveFooBar, kvstore.mkValue "1002" 8 true);
                      (slaveFoo, kvstore.mkValue "1001" 7 true)] [None])) = (1001, None).
Proof.
  split; [reflexivity|].
  exact (proj2 (proj2 (proj2 (proj2 (proj2 (proj2 (proj2
    (GetNoCache_exact_prefix_match Background "label;foo;"
       (n1State [(slaveFooBar, kvstore.mkValue "1002" 8 true);
                 (slaveFoo, kvstore.mkValue "1001" 7 true)] [None]) eq_refl))))))
    (kvstore.mkValue "1001" 7 true) (kvstore.mkValue "1002" 8 true) [])).
Defined.

(** C9: [GetNoCache] and [GetNoCacheIfLocked] pass over a pair that
    matches the prefix and whose value does not parse: the result is the
    one obtained with those pairs taken out of the store.  When every
    listed pair fails to match or to parse, both return [(NoID, nil)],
    which is also what they return in front of an empty store. *)
Theorem GetNoCache_skips_unparseable {K : Type} `{AllocatorKey K}
    (ctx : Context) (key : K) (lock : string) (s : State) :
  nextFault (store s) = None ->
  let prefix := slavePrefix (alloc s) key in
  let cleaned := withPairs (List.filter (fun p => negb (corrupt prefix p))) s in
  let empty := withPairs (fun _ => []) s in
  fst (GetNoCache ctx key s) = fst (GetNoCache ctx key cleaned)
  /\ fst (GetNoCacheIfLocked ctx key lock s) = fst (GetNoCacheIfLocked ctx key lock cleaned)
  /\ ((forall p, In p (listed prefix (store s)) ->
         prefixMatchesKey prefix (fst p) = false
         \/ strconv.ParseUint (kvstore.Data (snd p)) = None) ->
      fst (GetNoCache ctx key s) = (NoID, None)
      /\ fst (GetNoCacheIfLocked ctx key lock s) = (NoID, None)
      /\ fst (GetNoCache ctx key empty) = (NoID, None)
      /\ fst (GetNoCacheIfLocked ctx key lock empty) = (NoID, None)).
Proof.
  intros Hok prefix cleaned empty.
  rewrite !GetNoCache_run, !GetNoCacheIfLocked_run. cbn zeta. cbn [fst].
  change (nextFault (store cleaned)) with (nextFault (store s)).
  change (nextFault (store empty)) with (nextFault (store s)).
  change (alloc cleaned) with (alloc s). change (alloc empty) with (alloc s).
  rewrite Hok. fold prefix.
  assert (scanPairs prefix (listed prefix (store cleaned))
          = scanPairs prefix (listed prefix (store s))) as ->.
  { unfold cleaned. by rewrite listed_withPairs_filter, scanPairs_filter_corrupt. }
  split; [done|]. split; [done|]. intros Hall.
  assert (scanPairs prefix (listed prefix (store s)) = NoID) as ->.
  { apply scanPairs_none_usable. apply Forall_forall. intros p Hin.
    apply list_elem_of_In in Hin. unfold usable.
    destruct (Hall p Hin) as [-> | ->]; [done|]. by rewrite andb_false_r. }
  done.
Qed.

Lemma GetNoCache_skips_unparseable_witness :
  nextFault (store (n1State [(slaveFoo, kvstore.mkValue "12x" 7 true)] [])) = None
  /\ fst (GetNoCache Background "label;foo;"
            (n1State [(slaveFoo, kvstore.mkValue "12x" 7 true)] [])) = (NoID, None).
Proof.
  split; [reflexivity|].
  refine (proj1 (proj2 (proj2 (GetNoCache_skips_unparseable Background "label;foo;" ""
    (n1State [(slaveFoo, kvstore.mkValue "12x" 7 true)] []) eq_refl)) _)).
  intros p [<-|[]]. right. reflexivity.
Defined.

(** ** Running the methods step by step *)

Local Arguments gopath.Join : simpl never.
Local Arguments gostrings.TrimPrefix : simpl never.
Local Arguments strconv.FormatUint : simpl never.

Ltac st_simpl :=
  cbn [alloc store picks events basePrefix idPrefix valuePrefix lockPrefix min max
       prefixMask localKeys suffix lockless backoffTemplate mainCache
       initialListDone idPool enableMasterKeyProtection disableGC
       set_localKeys set_idPool set_mainCache withPool withLocalKeys
       called wrote erased unlocked onStoreState fst snd
       kvstore.pairs kvstore.revision kvstore.calls kvstore.faults
       kvstore.enter kvstore.write kvstore.erase kvstore.Unlock].

Lemma bind_run {A B} (m : M A) (f : A -> M B) s :
  (m ≫= f) s = let (x, s') := m s in f x s'.
Proof. reflexivity. Qed.

Lemma nextFault_faultAt st : nextFault st = faultAt 0 st.
Proof. unfold nextFault, faultAt. by destruct (kvstore.faults st). Qed.

Lemma faultAt_called n c s : faultAt n (store (called c s)) = faultAt (S n) (store s).
Proof. unfold faultAt, called. cbn. by destruct (kvstore.faults (store s)); destruct n. Qed.

Lemma is_Some_None_false {A} : bool_decide (is_Some (@None A)) = false.
Proof. apply bool_decide_eq_false. by intros [? ?]. Qed.

Lemma lockPath_run ctx k s :
  lockPath ctx k s =
  (match faultAt 0 (store s) with
   | Some err => inr err
   | None => inl (lockName (alloc s) k)
   end, called (kvstore.LockPathCall (lockName (alloc s) k)) s).
Proof.
  rewrite <- nextFault_faultAt.
  unfold lockPath, self, onStore, kvstore.LockPath, kvstore.enter, called, nextFault, lockName.
  unfold mbind, M_bind. cbn. by destruct (hd None _).
Qed.

Lemma createOnly_run c key value lease s :
  onStore (kvstore.createOnly c key value lease) s =
  let s' := called c s in
  match faultAt 0 (store s) with
  | Some err => ((false, Some err), s')
  | None =>
      match kvstore.lookup key (kvstore.pairs (store s)) with
      | Some _ => ((false, None), s')
      | None => ((true, None), wrote key value lease s')
      end
  end.
Proof.
  rewrite <- nextFault_faultAt.
  unfold onStore, kvstore.createOnly, kvstore.enter, called, nextFault, wrote, onStoreState.
  cbn. destruct (hd None _); [done|]. unfold kvstore.lookup. by destruct (snd <$> _).
Qed.

Lemma updateIfDifferent_run c key value lease s :
  onStore (kvstore.updateIfDifferent c key value lease) s =
  let s' := called c s in
  match faultAt 0 (store s) with
  | Some err => ((false, Some err), s')
  | None =>
      match kvstore.lookup key (kvstore.pairs (store s)) with
      | Some v =>
          if String.eqb (kvstore.Data v) value then ((false, None), s')
          else ((true, None), wrote key value lease s')
      | None => ((true, None), wrote key value lease s')
      end
  end.
Proof.
  rewrite <- nextFault_faultAt.
  unfold onStore, kvstore.updateIfDifferent, kvstore.enter, called, nextFault, wrote, onStoreState.
  cbn. destruct (hd None _); [done|]. unfold kvstore.lookup.
  destruct (snd <$> _) as [v|]; [|done]. by destruct (String.eqb _ _).
Qed.

Lemma delete_run c key s :
  onStore (kvstore.delete c key) s =
  match faultAt 0 (store s) with
  | Some err => (Some err, called c s)
  | None => (None, erased key (called c s))
  end.
Proof.
  rewrite <- nextFault_faultAt.
  unfold onStore, kvstore.delete, kvstore.enter, called, nextFault, erased, onStoreState.
  cbn. by destruct (hd None _).
Qed.

Lemma listPrefix_run c prefix s :
  onStore (kvstore.listPrefix c prefix) s =
  (match faultAt 0 (store s) with
   | Some err => ([], Some err)
   | None => (listed prefix (store s), None)
   end, called c s).
Proof.
  rewrite <- nextFault_faultAt.
  unfold onStore, kvstore.listPrefix, kvstore.enter, called, nextFault, listed.
  cbn. by destruct (hd None _).
Qed.

Lemma lookup_put key v kvs : kvstore.lookup key (kvstore.put key v kvs) = Some v.
Proof.
  unfold kvstore.lookup. induction kvs as [|[k v'] kvs IH]; cbn.
  - by rewrite String.eqb_refl.
  - destruct (String.eqb k key) eqn:Hk; cbn; by rewrite ?Hk.
Qed.

Lemma find_app_fresh k lk e :
  localkeys.find k lk = None -> localkeys.find k (lk ++ [(k, e)]) = Some e.
Proof.
  unfold localkeys.find. induction lk as [|[k' e'] lk IH]; cbn.
  - by rewrite String.eqb_refl.
  - destruct (String.eqb k' k); [done|]. apply IH.
Qed.

(** ** Allocation of a new ID under the lock *)

Section NewID.

Context {K : Type} `{AllocatorKey K}.

Variables (ctx : Context) (key : K) (s : State).

Let k := GetKey key.
Let lock := lockName (alloc s) k.
Let prefix := slavePrefix (alloc s) key.

(** The lock is acquired, the cache and the kvstore know no ID for the
    key, and the key has no local reference. *)
Hypothesis lock_ok : faultAt 0 (store s) = None.
Hypothesis cache_miss : cache.get k (mainCache (alloc s)) = NoID.
Hypothesis list_ok : faultAt 1 (store s) = None.
Hypothesis no_slave : scanPairs prefix (listed prefix (store s)) = NoID.
Hypothesis no_local : localkeys.find k (localKeys (alloc s)) = None.

Lemma GetIfLocked_miss l s0 :
  cache.get k (mainCache (alloc s0)) = NoID ->
  GetIfLocked ctx key l s0 = GetNoCacheIfLocked ctx key l s0.
Proof. intros Hc. unfold GetIfLocked, self. rewrite bind_run. fold k. by rewrite Hc. Qed.

(** The state in which the selection of a new ID starts. *)
Let entry : State :=
  called (kvstore.ListPrefixIfLockedCall prefix lock)
    (called (kvstore.LockPathCall lock) s).

Lemma lockedAllocate_reaches_newID :
  lockedAllocate ctx key s =
  let (res, s') := allocateNewID ctx k lock entry in (res, unlocked lock s').
Proof.
  unfold lockedAllocate. fold k. rewrite bind_run, lockPath_run, lock_ok. fold lock.
  rewrite bind_run. unfold lockedAllocateLocked. rewrite bind_run.
  rewrite GetIfLocked_miss by done. rewrite GetNoCacheIfLocked_run. cbn zeta.
  rewrite nextFault_faultAt, faultAt_called, list_ok.
  change (alloc (called _ s)) with (alloc s). fold prefix.
  change (listed prefix (store (called _ s))) with (listed prefix (store s)).
  rewrite no_slave. cbn [NoID Z.eqb]. rewrite bind_run. unfold self at 1.
  change (alloc (called _ (called _ s))) with (alloc s).
  unfold localkeys.lookupKey. rewrite no_local. cbn [NoID Z.eqb negb]. cbn zeta.
  fold entry. destruct (allocateNewID _ _ _ _) as [res s3]. by rewrite bind_run.
Qed.

Lemma allocateNewID_exhausted l s0 :
  fst (idpool.LeaseAvailableID (idPool (alloc s0))) = NoID ->
  fst (allocateNewID ctx k l s0)
  = (0, false, Some "no more available IDs in configured space").
Proof.
  intros Hl. unfold allocateNewID, selectAvailableID. rewrite !bind_run.
  unfold onIDPool. destruct (idpool.LeaseAvailableID _) as [id p]. cbn [fst] in Hl.
  by subst id.
Qed.

(** C5: When the attempt reaches the selection of a new ID (no ID found
    for the key in the cache or the kvstore, no local reference) and
    [LeaseAvailableID] returns [NoID], [lockedAllocate] fails with "no
    more available IDs in configured space".  With min 1 and max 3 and
    an empty store, ["a"], ["b"] and ["c"] are allocated to 1, 2 and 3,
    and the allocation of ["d"] fails with that error. *)
Theorem lockedAllocate_pool_exhausted :
  fst (idpool.LeaseAvailableID (idPool (alloc s))) = NoID ->
  fst (lockedAllocate ctx key s)
    = (0, false, Some "no more available IDs in configured space")
  /\ fst (allocateFour Background (n1State [] []))
      = (Some (1, true, None), Some (2, true, None), Some (3, true, None),
         Some (0, false, Some "no more available IDs in configured space")).
Proof.
  intros Hpool. split; [|by vm_compute].
  rewrite lockedAllocate_reaches_newID.
  pose proof (allocateNewID_exhausted lock entry Hpool) as Hex.
  destruct (allocateNewID _ _ _ _) as [res s']. exact Hex.
Qed.

(** *** The slave key cannot be written after the master key was created *)

Variables (uid : ID) (more : list ID) (e : error).

Let id := Z.lor uid (prefixMask (alloc s)).
Let keyPath := gopath.Join [idPrefix (alloc s); ID_String id].
Let valueKey := gopath.Join [valuePrefix (alloc s); k; suffix (alloc s)].

(** The pool leases [uid], the master key is created, the write of the
    slave key fails with [e]. *)
Hypothesis lease_uid : idpool.free (idPool (alloc s)) = uid :: more.
Hypothesis uid_valid : uid <> NoID.
Hypothesis create_ok : faultAt 2 (store s) = None.
Hypothesis master_absent : kvstore.lookup keyPath (kvstore.pairs (store s)) = None.
Hypothesis slave_fails : faultAt 3 (store s) = Some e.

Lemma createValueNodeKey_failure l newID s0 err :
  faultAt 0 (store s0) = Some err ->
  createValueNodeKey ctx k newID l s0 =
  (Some ("unable to create value-node key '"
         +:+ gopath.Join [valuePrefix (alloc s0); k; suffix (alloc s0)] +:+ "': " +:+ err),
   called (kvstore.UpdateIfDifferentIfLockedCall
             (gopath.Join [valuePrefix (alloc s0); k; suffix (alloc s0)])
             (ID_String newID) true l) s0).
Proof.
  intros Hf. unfold createValueNodeKey, self. rewrite !bind_run.
  unfold kvstore.UpdateIfDifferentIfLocked. rewrite updateIfDifferent_run. cbn zeta.
  by rewrite Hf.
Qed.

Let leasedPool : idpool.IDPool :=
  idpool.mkIDPool more (uid :: idpool.leased (idPool (alloc s)))
    (idpool.inUse (idPool (alloc s))).

Let reserved : localkeys.localKeys :=
  localKeys (alloc s) ++ [(k, localkeys.mkLocalKey id 1 false)].

Lemma lockedAllocate_slave_failure :
  lockedAllocate ctx key s =
  ((0, false,
    Some ("slave key creation failed '" +:+ k +:+ "': "
          +:+ "unable to create value-node key '" +:+ valueKey +:+ "': " +:+ e)),
   unlocked lock
     (withPool (idpool.Release uid (idpool.Use uid leasedPool))
        (withLocalKeys (localkeys.drop k reserved)
           (called (kvstore.UpdateIfDifferentIfLockedCall valueKey (ID_String id) true lock)
              (wrote keyPath k false
                 (called (kvstore.CreateOnlyIfLockedCall keyPath k false lock) entry)))))).
Proof.
  rewrite lockedAllocate_reaches_newID.
  unfold allocateNewID at 1, selectAvailableID. rewrite !bind_run.
  unfold onIDPool at 1, idpool.LeaseAvailableID.
  change (alloc entry) with (alloc s). rewrite lease_uid.
  destruct (Z.eqb_spec uid NoID) as [|_]; [done|]. cbn [negb]. fold leasedPool.
  rewrite bind_run. unfold self at 1. st_simpl. fold id.
  unfold mret at 1, M_ret at 1.
  destruct (Z.eqb_spec id 0) as [Hz|_].
  { apply Z.lor_eq_0_iff in Hz as [? _]. done. }
  rewrite bind_run. unfold onLocalKeys at 1. st_simpl.
  unfold localkeys.allocate. rewrite no_local. fold reserved. rewrite Z.eqb_refl. cbn [negb].
  rewrite bind_run. unfold self at 1. st_simpl. fold keyPath.
  unfold kvstore.CreateOnlyIfLocked.
  rewrite bind_run, createOnly_run. cbn zeta. st_simpl.
  change (kvstore.pairs (store entry)) with (kvstore.pairs (store s)).
  change (kvstore.revision (store entry)) with (kvstore.revision (store s)).
  assert (faultAt 0 (store entry) = None) as ->.
  { unfold entry. by rewrite !faultAt_called. }
  rewrite master_absent. st_simpl. rewrite (@is_Some_None_false error). cbn [orb negb].
  rewrite bind_run. unfold onIDPool at 1. rewrite bind_run.
  rewrite (createValueNodeKey_failure _ _ _ e).
  2:{ st_simpl. clear -slave_fails. unfold entry, called, faultAt in *. st_simpl.
      destruct (kvstore.faults (store s)) as [|? [|? [|? ?]]]; done. }
  st_simpl. fold valueKey.
  rewrite bind_run. unfold releaseKeyAndID. rewrite bind_run. unfold onLocalKeys at 1. st_simpl.
  unfold localkeys.release.
  rewrite (find_app_fresh k _ _ no_local : localkeys.find k reserved = _).
  cbn [localkeys.refcnt]. change (1 - 1 =? 0) with true.
  unfold onIDPool. st_simpl. unfold mret, M_ret. reflexivity.
Qed.

(** C4: When the slave key cannot be written after the master key
    [id/<id>] was created with [CreateOnlyIfLocked], the attempt returns
    an error, the master key is still in the store with the key as its
    value, and the calls made are the lock, the listing, the creation of
    the master key, the failed write and the unlock: no delete. *)
Theorem lockedAllocate_leaks_master_key :
  let s' := snd (lockedAllocate ctx key s) in
  fst (lockedAllocate ctx key s)
    = (0, false,
       Some ("slave key creation failed '" +:+ k +:+ "': "
             +:+ "unable to create value-node key '" +:+ valueKey +:+ "': " +:+ e))
  /\ kvstore.lookup keyPath (kvstore.pairs (store s'))
      = Some (kvstore.mkValue k (kvstore.revision (store s) + 1) false)
  /\ kvstore.calls (store s')
      = [kvstore.UnlockCall lock;
         kvstore.UpdateIfDifferentIfLockedCall valueKey (ID_String id) true lock;
         kvstore.CreateOnlyIfLockedCall keyPath k false lock;
         kvstore.ListPrefixIfLockedCall prefix lock;
         kvstore.LockPathCall lock] ++ kvstore.calls (store s).
Proof.
  rewrite lockedAllocate_slave_failure. cbn zeta. st_simpl.
  split; [done|]. split; [apply lookup_put|done].
Qed.

(** C10: In the same situation the failure path releases the unmasked
    ID: it is free again in the pool, and the first to be leased, neither
    leased nor in use, while the master key of the masked ID is still in
    the store. *)
Theorem lockedAllocate_frees_published_id :
  let s' := snd (lockedAllocate ctx key s) in
  idpool.free (idPool (alloc s')) = uid :: more
  /\ memID uid (idpool.leased (idPool (alloc s'))) = false
  /\ memID uid (idpool.inUse (idPool (alloc s'))) = false
  /\ fst (idpool.LeaseAvailableID (idPool (alloc s'))) = uid
  /\ kvstore.lookup keyPath (kvstore.pairs (store s'))
      = Some (kvstore.mkValue k (kvstore.revision (store s) + 1) false).
Proof.
  rewrite lockedAllocate_slave_failure. cbn zeta. st_simpl.
  unfold idpool.Use, leasedPool. cbn [idpool.leased idpool.free idpool.inUse memID existsb].
  rewrite Z.eqb_refl. cbn [orb]. unfold idpool.Release.
  cbn [idpool.leased idpool.free idpool.inUse memID existsb].
  rewrite Z.eqb_refl, orb_true_r. cbn [orb idpool.leased idpool.free idpool.inUse idpool.LeaseAvailableID fst].
  assert (forall l, memID uid (removeID uid l) = false) as Hrm.
  { intros l. unfold memID, removeID. induction l as [|x l IH]; [done|]. cbn.
    destruct (Z.eqb_spec x uid); cbn; [done|]. destruct (Z.eqb_spec x uid); done. }
  rewrite !Hrm. repeat split; try done. apply lookup_put.
Qed.

End NewID.

Lemma lockedAllocate_pool_exhausted_witness :
  fst (lockedAllocate Background "d" poolExhausted)
  = (0, false, Some "no more available IDs in configured space").
Proof.
  refine (proj1 (lockedAllocate_pool_exhausted Background "d" poolExhausted _ _ _ _ _ _));
    vm_compute; reflexivity.
Defined.

Lemma lockedAllocate_leaks_master_key_witness :
  kvstore.lookup "cilium/state/identities/v1/id/1"
    (kvstore.pairs (store (snd (lockedAllocate Background "a" slaveWriteFails))))
  = Some (kvstore.mkValue "a" 101 false).
Proof.
  refine (proj1 (proj2 (lockedAllocate_leaks_master_key Background "a" slaveWriteFails
    _ _ _ _ _ 1 [2; 3] "etcdserver: request timed out" _ _ _ _ _)));
    vm_compute; try reflexivity; discriminate.
Defined.

Lemma lockedAllocate_frees_published_id_witness :
  idpool.free (idPool (alloc (snd (lockedAllocate Background "a" slaveWriteFails))))
  = [1; 2; 3].
Proof.
  refine (proj1 (lockedAllocate_frees_published_id Background "a" slaveWriteFails
    _ _ _ _ _ 1 [2; 3] "etcdserver: request timed out" _ _ _ _ _));
    vm_compute; try reflexivity; discriminate.
Defined.

(** After the failed attempt of [slaveWriteFails] the next attempt leases
    ID 1 once more and stumbles on the master key left behind. *)
Example lockedAllocate_leases_published_id_again :
  fst (lockedAllocate Background "a" (snd (lockedAllocate Background "a" slaveWriteFails)))
  = (0, false,
     Some "unable to create master key 'cilium/state/identities/v1/id/1': %!s(<nil>)").
Proof. vm_compute. reflexivity. Qed.

(** ** Release *)

Section ReleaseFacts.

Context {K : Type} `{AllocatorKey K}.

Lemma selectInitialListDone_state ctx s :
  alloc (snd (selectInitialListDone ctx s)) = alloc s
  /\ store (snd (selectInitialListDone ctx s)) = store s.
Proof.
  unfold selectInitialListDone.
  destruct (ctx _), (initialListDone _); try done.
  by destruct (picks s) as [|[] ?].
Qed.

(** C8: When [localKeys.release] reports the last local use, [Release]
    calls [Delete] on the slave key [value/<k>/<suffix>] and returns
    [(true, nil)] whether or not that call fails; when it fails the
    store is left as it was, slave key included. *)
Theorem Release_hides_delete_failure (ctx : Context) (key : K) (s : State) :
  fst (selectInitialListDone ctx s) = InitialListDone ->
  fst (localkeys.release (GetKey key) (localKeys (alloc s))) = (true, None) ->
  let valueKey := gopath.Join [valuePrefix (alloc s); GetKey key; suffix (alloc s)] in
  let s' := snd (Release ctx key s) in
  fst (Release ctx key s) = Some (true, None)
  /\ kvstore.calls (store s') = kvstore.DeleteCall valueKey :: kvstore.calls (store s)
  /\ (forall err, nextFault (store s) = Some err ->
        kvstore.pairs (store s') = kvstore.pairs (store s))
  /\ (nextFault (store s) = None ->
        kvstore.pairs (store s') = kvstore.remove valueKey (kvstore.pairs (store s))).
Proof.
  intros Hsel Hrel valueKey s'.
  destruct (selectInitialListDone_state ctx s) as [Ha Hs].
  assert (exists s0, store s0 = store s
     /\ Release ctx key s =
        (Some (true, None),
         match faultAt 0 (store s) with
         | Some _ => called (kvstore.DeleteCall valueKey) s0
         | None => erased valueKey (called (kvstore.DeleteCall valueKey) s0)
         end)) as (s0 & Hs0 & Hrun).
  { unfold Release. rewrite bind_run.
    destruct (selectInitialListDone ctx s) as [sel s0]. cbn [fst snd] in *. subst sel.
    rewrite bind_run. unfold onLocalKeys at 1. rewrite Ha.
    destruct (localkeys.release _ _) as [[lastUse err] lk]. cbn [fst] in Hrel.
    injection Hrel as -> ->. rewrite bind_run. unfold self at 1. st_simpl. fold valueKey.
    unfold kvstore.Delete. rewrite bind_run, delete_run. st_simpl. rewrite Hs.
    exists (withLocalKeys lk s0). st_simpl. rewrite ?Ha, ?Hs.
    split; [done|].
    destruct (faultAt 0 (store s)); unfold mret, M_ret, called, withLocalKeys; st_simpl;
      by rewrite ?Ha, ?Hs. }
  subst s'. rewrite Hrun. st_simpl. rewrite nextFault_faultAt.
  destruct (faultAt 0 (store s)) as [err|]; st_simpl; rewrite Hs0; done.
Qed.

End ReleaseFacts.

Lemma Release_hides_delete_failure_witness :
  fst (Release Background "a" lastLocalUse) = Some (true, None)
  /\ kvstore.pairs (store (snd (Release Background "a" lastLocalUse)))
     = kvstore.pairs (store lastLocalUse).
Proof.
  pose proof (Release_hides_delete_failure Background "a" lastLocalUse eq_refl eq_refl)
    as (Hres & _ & Hkept & _).
  split; [exact Hres|].
  exact (Hkept "etcdserver: request timed out" eq_refl).
Defined.

(** ** Construction *)

Lemma length_substring_0 n s :
  (n <= String.length s)%nat -> String.length (String.substring 0 n s) = n.
Proof.
  revert s. induction n as [|n IH]; intros s Hn.
  - by destruct s.
  - destruct s as [|c s]; cbn in *; [lia|]. rewrite IH; lia.
Qed.

(** C7: When the UUID string has its ten bytes, [NewAllocator] returns
    an error and no allocator exactly when the kvstore client is nil, the
    suffix left by the options is ["<nil>"], the minimum is below 1, or
    the maximum is not above the minimum; otherwise it returns an
    allocator and no error.  The literal sets min 1 and max 2^64 - 1, and
    with no options and a client the construction succeeds with them. *)
Theorem NewAllocator_error_conditions (client : bool) (uuid : string)
    (locklessCapability : bool) (basePath : string) (opts : list AllocatorOption) :
  (10 <= String.length uuid)%nat ->
  let a := applyOptions opts
             (initialAllocator basePath (String.substring 0 10 uuid) locklessCapability) in
  let invalid := client = false \/ suffix a = "<nil>" \/ min a < 1 \/ max a <= min a in
  let made := NewAllocator client uuid locklessCapability basePath opts in
  ((exists err, made = Some (None, Some err)) <-> invalid)
  /\ ((exists a', made = Some (Some a', None)) <-> ~ invalid)
  /\ min (initialAllocator basePath (String.substring 0 10 uuid) locklessCapability) = 1
  /\ max (initialAllocator basePath (String.substring 0 10 uuid) locklessCapability)
     = 2 ^ 64 - 1
  /\ (client = true ->
      exists a', NewAllocator client uuid locklessCapability basePath [] = Some (Some a', None)
                 /\ min a' = 1 /\ max a' = 2 ^ 64 - 1).
Proof.
  intros Hlen a invalid made.
  assert (Hshort : (String.length uuid <? 10)%nat = false) by (apply Nat.ltb_ge; lia).
  assert (Hmade : made =
    if negb client then Some (None, Some "kvstore client not configured")
    else if String.eqb (suffix a) "<nil>" then
      Some (None, Some "allocator suffix is <nil> and unlikely unique")
    else if min a <? 1 then Some (None, Some "minimum ID must be >= 1")
    else if max a <=? min a then
      Some (None, Some "maximum ID must be greater than minimum ID")
    else Some (Some (set_idPool (idpool.NewIDPool (min a) (max a))
                       (set_mainCache cache.newCache a)), None)).
  { unfold made, NewAllocator. rewrite Hshort. fold a. by destruct client. }
  assert (Hcases : (invalid /\ exists err, made = Some (None, Some err))
                   \/ (~ invalid /\ exists a', made = Some (Some a', None))).
  { rewrite Hmade. unfold invalid.
    destruct client; cbn [negb]; [|left; split; [by left|eauto]].
    destruct (String.eqb_spec (suffix a) "<nil>") as [Hs|Hs];
      [left; split; [right; by left|eauto]|].
    destruct (Z.ltb_spec (min a) 1); [left; split; [right; right; by left|eauto]|].
    destruct (Z.leb_spec (max a) (min a)); [left; split; [right; right; by right|eauto]|].
    right. split; [|eauto]. intros [|[|[|]]]; try done; lia. }
  split; [|split; [|split; [|split]]].
  - destruct Hcases as [[Hi He]|[Hi [a' Ha']]]; split; try done.
    intros [err Herr]. congruence.
  - destruct Hcases as [[Hi [err He]]|[Hi Ha]]; split; try done.
    intros [a' Ha']. congruence.
  - done.
  - done.
  - intros ->. unfold NewAllocator. rewrite Hshort. cbn [negb applyOptions fold_left].
    cbn [suffix min max initialAllocator set_mainCache].
    destruct (String.eqb_spec (String.substring 0 10 uuid) "<nil>") as [Heq|_].
    { pose proof (length_substring_0 10 uuid Hlen) as Hl. rewrite Heq in Hl. done. }
    eexists. split; [reflexivity|]. done.
Qed.

Lemma NewAllocator_error_conditions_witness :
  exists err,
    NewAllocator true "0f1e2d3c-4b5a-6978-8796-a5b4c3d2e1f0" false
      "cilium/state/identities/v1" [WithMin 5; WithMax 5] = Some (None, Some err).
Proof.
  refine (proj2 (proj1 (NewAllocator_error_conditions true
    "0f1e2d3c-4b5a-6978-8796-a5b4c3d2e1f0" false "cilium/state/identities/v1"
    [WithMin 5; WithMax 5] _)) _).
  - cbn. lia.
  - right. right. right. cbn. lia.
Defined.

(** ** Local key sync *)

Section SyncFacts.

Lemma recreateMasterKey_run id value reliablyMissing s :
  alloc (snd (recreateMasterKey id value reliablyMissing s)) = alloc s
  /\ kvstore.calls (store (snd (recreateMasterKey id value reliablyMissing s)))
     = List.rev (recreateCalls (alloc s) reliablyMissing (id, value))
       ++ kvstore.calls (store s).
Proof.
  unfold recreateMasterKey, recreateCalls, self. rewrite bind_run. cbn [fst snd].
  unfold kvstore.CreateOnly, kvstore.UpdateIfDifferent.
  destruct reliablyMissing; rewrite bind_run.
  - rewrite createOnly_run. cbn zeta.
    destruct (faultAt 0 (store s)); [|destruct (kvstore.lookup _ _)];
      rewrite bind_run, createOnly_run; cbn zeta;
      destruct (faultAt 0 _); try destruct (kvstore.lookup _ _); done.
  - rewrite updateIfDifferent_run. cbn zeta.
    destruct (faultAt 0 (store s)); [|destruct (kvstore.lookup _ _) as [v|];
      [destruct (String.eqb _ _)|]];
      rewrite bind_run, updateIfDifferent_run; cbn zeta;
      destruct (faultAt 0 _); try (destruct (kvstore.lookup _ _) as [v'|];
        [destruct (String.eqb _ _)|]); done.
Qed.

Lemma syncLocalKeysLoop_run ids s :
  alloc (snd (syncLocalKeysLoop ids s)) = alloc s
  /\ kvstore.calls (store (snd (syncLocalKeysLoop ids s)))
     = List.rev (flat_map (recreateCalls (alloc s) false) ids) ++ kvstore.calls (store s).
Proof.
  revert s. induction ids as [|[id value] ids IH]; intros s; [done|].
  cbn [syncLocalKeysLoop flat_map]. rewrite bind_run.
  destruct (recreateMasterKey_run id value false s) as [Ha Hc].
  destruct (recreateMasterKey id value false s) as [[] s1]. cbn [snd] in Ha, Hc.
  destruct (IH s1) as [Ha1 Hc1]. rewrite Ha1, Hc1, Ha, Hc.
  split; [done|]. by rewrite rev_app_distr, app_assoc.
Qed.

Lemma getVerifiedIDs_origin lk id key :
  In (id, key) (localkeys.getVerifiedIDs lk) ->
  exists e, In (key, e) lk /\ localkeys.verified e = true /\ localkeys.val e = id.
Proof.
  unfold localkeys.getVerifiedIDs.
  assert (Hput : forall i k m x, In x (localkeys.putID i k m) -> x = (i, k) \/ In x m).
  { intros i k m x. induction m as [|[i' k'] m IH]; cbn.
    - intros [<-|[]]. by left.
    - destruct (Z.eqb_spec i' i) as [->|_]; cbn; intros [<-|Hin].
      + by left.
      + right. by right.
      + right. by left.
      + destruct (IH Hin); [by left|]. right. by right. }
  assert (Hgen : forall l m,
    In (id, key) (fold_left (fun m p =>
      if localkeys.verified (snd p)
      then localkeys.putID (localkeys.val (snd p)) (fst p) m else m) l m) ->
    In (id, key) m
    \/ exists e, In (key, e) l /\ localkeys.verified e = true /\ localkeys.val e = id).
  { induction l as [|[k e] l IH]; intros m; cbn [fold_left fst snd]; [by left|].
    intros Hin. destruct (IH _ Hin) as [Hm|(e' & He' & ?)].
    - destruct (localkeys.verified e) eqn:Hv; [|by left].
      destruct (Hput _ _ _ _ Hm) as [[= -> ->]|]; [|by left].
      right. exists e. split; [by left|done].
    - right. exists e'. split; [by right|done]. }
  intros Hin. destruct (Hgen _ _ Hin) as [[]|]; done.
Qed.

(** C2: [syncLocalKeys] takes the snapshot of the verified local keys
    and, for each entry in turn, has [recreateMasterKey] attempt two
    conditional writes, the master key [id/<id>] and then the slave key
    [value/<k>/<suffix>], the second whatever the first answers; it
    never reports an error.  [recreateMasterKey] writes with "create
    only if absent" when the key is flagged as reliably missing and with
    "update if different" when it is not; the sync passes
    [reliablyMissing = false], so its writes are of the second kind. *)
Theorem syncLocalKeys_recreates_by_flag (s : State) :
  let ids := localkeys.getVerifiedIDs (localKeys (alloc s)) in
  fst (syncLocalKeys s) = None
  /\ List.rev (kvstore.calls (store (snd (syncLocalKeys s))))
     = List.rev (kvstore.calls (store s)) ++ flat_map (recreateCalls (alloc s) false) ids
  /\ (forall id key, In (id, key) ids ->
        exists e, In (key, e) (localKeys (alloc s))
                  /\ localkeys.verified e = true /\ localkeys.val e = id)
  /\ (forall id key,
        recreateCalls (alloc s) false (id, key)
        = [kvstore.UpdateIfDifferentCall
             (gopath.Join [idPrefix (alloc s); ID_String id]) key false;
           kvstore.UpdateIfDifferentCall
             (gopath.Join [valuePrefix (alloc s); key; suffix (alloc s)])
             (ID_String id) true])
  /\ (forall id value s0,
        kvstore.calls (store (snd (recreateMasterKey id value true s0)))
        = [kvstore.CreateOnlyCall
             (gopath.Join [valuePrefix (alloc s0); value; suffix (alloc s0)])
             (ID_String id) true;
           kvstore.CreateOnlyCall
             (gopath.Join [idPrefix (alloc s0); ID_String id]) value false]
          ++ kvstore.calls (store s0))
  /\ (forall id value s0,
        kvstore.calls (store (snd (recreateMasterKey id value false s0)))
        = [kvstore.UpdateIfDifferentCall
             (gopath.Join [valuePrefix (alloc s0); value; suffix (alloc s0)])
             (ID_String id) true;
           kvstore.UpdateIfDifferentCall
             (gopath.Join [idPrefix (alloc s0); ID_String id]) value false]
          ++ kvstore.calls (store s0)).
Proof.
  intros ids. unfold syncLocalKeys, self. rewrite !bind_run. fold ids.
  destruct (syncLocalKeysLoop_run ids s) as [_ Hc].
  destruct (syncLocalKeysLoop ids s) as [[] s1]. unfold mret, M_ret. cbn [fst snd] in *.
  split; [done|]. split; [|split; [|split; [|split]]].
  - by rewrite Hc, rev_app_distr, rev_involutive.
  - intros id key. apply getVerifiedIDs_origin.
  - done.
  - intros id value s0. by destruct (recreateMasterKey_run id value true s0) as [_ ->].
  - intros id value s0. by destruct (recreateMasterKey_run id value false s0) as [_ ->].
Qed.

End SyncFacts.

(** What the flag changes: in front of a master key [id/1] that carries
    another key, the sync of the verified local key ["a"] makes two
    "update if different" writes and overwrites the master key, where a
    "create only if absent" write leaves it as it is. *)
Example syncLocalKeys_overwrites_stale_master :
  kvstore.calls (store (snd (syncLocalKeys staleMaster)))
  = [kvstore.UpdateIfDifferentCall "cilium/state/identities/v1/value/a/n1" "1" true;
     kvstore.UpdateIfDifferentCall "cilium/state/identities/v1/id/1" "a" false]
  /\ kvstore.lookup "cilium/state/identities/v1/id/1"
       (kvstore.pairs (store (snd (syncLocalKeys staleMaster))))
     = Some (kvstore.mkValue "a" 101 false)
  /\ kvstore.lookup "cilium/state/identities/v1/id/1"
       (kvstore.pairs (snd (kvstore.CreateOnly "cilium/state/identities/v1/id/1" "a" false
                              (store staleMaster))))
     = Some (kvstore.mkValue "b" 1 false).
Proof. vm_compute. repeat split. Qed.

(** ** Garbage collection *)

Section GarbageCollection.

Variable prev : gmap string Z.

Lemma runGCIteration_run key v stale s :
  let lock := lockName (alloc s) key in
  let vp := gopath.Join [valuePrefix (alloc s); kvstore.Data v] in
  let listedState := called (kvstore.ListPrefixIfLockedCall vp lock)
                       (called (kvstore.LockPathCall lock) s) in
  let deleteCalled := called (kvstore.DeleteIfLockedCall key lock) listedState in
  runGCIteration prev key v stale s =
  match faultAt 0 (store s) with
  | Some _ => (stale, called (kvstore.LockPathCall lock) s)
  | None =>
      match faultAt 1 (store s) with
      | Some _ => (stale, unlocked lock listedState)
      | None =>
          if hasUsers vp (store s) then (stale, unlocked lock listedState)
          else if bool_decide (prev !! key = Some (kvstore.ModRevision v)) then
            (stale, unlocked lock
               match faultAt 2 (store s) with
               | Some _ => deleteCalled
               | None => erased key deleteCalled
               end)
          else (<[key := kvstore.ModRevision v]> stale, unlocked lock listedState)
      end
  end.
Proof.
  intros lock vp listedState deleteCalled.
  unfold runGCIteration. rewrite bind_run, lockPath_run. fold lock.
  destruct (faultAt 0 (store s)) eqn:Hf0; [done|].
  rewrite bind_run. unfold self at 1. change (alloc (called _ s)) with (alloc s). fold vp.
  unfold kvstore.ListPrefixIfLocked. rewrite bind_run, listPrefix_run.
  rewrite faultAt_called.
  destruct (faultAt 1 (store s)) eqn:Hf1; [done|].
  change (listed vp (store (called _ s))) with (listed vp (store s)).
  fold (hasUsers vp (store s)).
  destruct (hasUsers vp (store s)); cbn [negb].
  - done.
  - rewrite bind_run. destruct (prev !! key) as [modRev|] eqn:Hp.
    + destruct (Z.eqb_spec modRev (kvstore.ModRevision v)) as [->|Hne].
      * rewrite bool_decide_eq_true_2 by done.
        rewrite bind_run. unfold kvstore.DeleteIfLocked. rewrite delete_run.
        fold listedState. 
        assert (faultAt 0 (store listedState) = faultAt 2 (store s)) as ->.
        { unfold listedState. by rewrite !faultAt_called. }
        fold deleteCalled. by destruct (faultAt 2 (store s)).
      * rewrite bool_decide_eq_false_2 by congruence. done.
    + rewrite bool_decide_eq_false_2 by congruence. done.
Qed.

Lemma runGCIteration_alloc key v stale s :
  alloc (snd (runGCIteration prev key v stale s)) = alloc s.
Proof.
  rewrite runGCIteration_run. cbn zeta.
  repeat (match goal with |- context [match ?x with _ => _ end] => destruct x end); done.
Qed.

Lemma runGCIteration_other key v stale s key' :
  key' <> key ->
  fst (runGCIteration prev key v stale s) !! key' = stale !! key'.
Proof.
  intros Hne. rewrite runGCIteration_run. cbn zeta.
  repeat (match goal with |- context [match ?x with _ => _ end] => destruct x end);
    cbn [fst]; try done.
  by rewrite lookup_insert_ne.
Qed.

Lemma runGCLoop_app l1 l2 stale s :
  runGCLoop prev (l1 ++ l2) stale s =
  let (stale', s') := runGCLoop prev l1 stale s in runGCLoop prev l2 stale' s'.
Proof.
  revert stale s. induction l1 as [|[key v] l1 IH]; intros stale s.
  - done.
  - cbn [app runGCLoop]. rewrite !bind_run.
    destruct (runGCIteration prev key v stale s) as [stale1 s1]. apply IH.
Qed.

Lemma runGCLoop_alloc l stale s : alloc (snd (runGCLoop prev l stale s)) = alloc s.
Proof.
  revert stale s. induction l as [|[key v] l IH]; intros stale s; [done|].
  cbn [runGCLoop]. rewrite bind_run.
  pose proof (runGCIteration_alloc key v stale s) as Ha.
  destruct (runGCIteration prev key v stale s) as [stale1 s1]. cbn [snd] in Ha.
  by rewrite IH.
Qed.

Lemma runGCLoop_other l stale s key' :
  ~ In key' (map fst l) ->
  fst (runGCLoop prev l stale s) !! key' = stale !! key'.
Proof.
  revert stale s. induction l as [|[key v] l IH]; intros stale s Hnin; [done|].
  cbn [runGCLoop]. rewrite bind_run.
  pose proof (runGCIteration_other key v stale s key') as Ho.
  destruct (runGCIteration prev key v stale s) as [stale1 s1]. cbn [fst] in Ho.
  rewrite IH, Ho; [done| |]; cbn in Hnin; intuition congruence.
Qed.

Lemma NoDup_keys_filter {A} (f : string * A -> bool) (l : list (string * A)) :
  List.NoDup (map fst l) -> List.NoDup (map fst (List.filter f l)).
Proof.
  induction l as [|p l IH]; cbn; [done|]. intros Hnd. inversion Hnd as [|? ? Hnin Hnd']; subst.
  destruct (f p); cbn; [|by apply IH]. constructor; [|by apply IH].
  intros Hin. apply Hnin. apply in_map_iff in Hin as (q & <- & Hq).
  apply in_map. by apply filter_In in Hq as [? _].
Qed.

Lemma RunGC_run s :
  RunGC prev s =
  let start := called (kvstore.ListPrefixCall (idPrefix (alloc s))) s in
  match faultAt 0 (store s) with
  | Some err => ((∅, Some ("list failed: " +:+ err)), start)
  | None =>
      let (staleKeys, s') := runGCLoop prev (listed (idPrefix (alloc s)) (store s)) ∅ start in
      ((staleKeys, None), s')
  end.
Proof.
  unfold RunGC, self. rewrite bind_run. unfold kvstore.ListPrefix.
  rewrite bind_run, listPrefix_run. cbn zeta.
  destruct (faultAt 0 (store s)); [done|]. rewrite bind_run.
  by destruct (runGCLoop _ _ _ _).
Qed.

Lemma In_gcCalls_delete lock vp key deletes :
  In (kvstore.DeleteIfLockedCall key lock) (gcCalls lock vp key deletes) <-> deletes = true.
Proof.
  unfold gcCalls. destruct deletes; cbn; [by intuition|].
  split; [|done]. intros [|[|[|[]]]]; done.
Qed.


(** C1, as the code has it: for a master record [(key, v)] returned by
    the listing of [idPrefix], whose key the store holds once, let
    [scan] be the state in which [RunGC] comes to it.  When its lock and
    its locked listing succeed, [RunGC] calls [DeleteIfLocked] on it
    under that lock exactly when no pair listed under
    [valuePrefix/<v.Data>] matches the prefix and [staleKeysPrevRound]
    maps the key to [v.ModRevision]; the record leaves the store when
    that call succeeds; and the returned map holds the key, with
    [v.ModRevision], exactly when no listed pair matches and
    [DeleteIfLocked] is not called.  When the lock or the listing fails,
    the record is skipped: no delete, and no entry in the returned
    map. *)
Theorem RunGC_two_round_rule (s : State) before key v after :
  faultAt 0 (store s) = None ->
  List.NoDup (map fst (kvstore.pairs (store s))) ->
  listed (idPrefix (alloc s)) (store s) = before ++ (key, v) :: after ->
  let start := called (kvstore.ListPrefixCall (idPrefix (alloc s))) s in
  let scan := snd (runGCLoop prev before ∅ start) in
  let next := snd (runGCIteration prev key v (fst (runGCLoop prev before ∅ start)) scan) in
  let lock := lockName (alloc s) key in
  let vp := gopath.Join [valuePrefix (alloc s); kvstore.Data v] in
  let unused := negb (hasUsers vp (store scan)) in
  let stale := bool_decide (prev !! key = Some (kvstore.ModRevision v)) in
  let returned := fst (fst (RunGC prev s)) in
  snd (fst (RunGC prev s)) = None
  /\ (faultAt 0 (store scan) = None -> faultAt 1 (store scan) = None ->
      List.rev (kvstore.calls (store next))
      = List.rev (kvstore.calls (store scan)) ++ gcCalls lock vp key (unused && stale)
      /\ (In (kvstore.DeleteIfLockedCall key lock) (gcCalls lock vp key (unused && stale))
          <-> unused = true /\ prev !! key = Some (kvstore.ModRevision v))
      /\ kvstore.pairs (store next)
         = (if unused && stale && bool_decide (faultAt 2 (store scan) = None)
            then kvstore.remove key (kvstore.pairs (store scan))
            else kvstore.pairs (store scan))
      /\ returned !! key
         = (if unused && negb stale then Some (kvstore.ModRevision v) else None))
  /\ (forall err, faultAt 0 (store scan) = Some err ->
      kvstore.calls (store next) = kvstore.LockPathCall lock :: kvstore.calls (store scan)
      /\ kvstore.pairs (store next) = kvstore.pairs (store scan)
      /\ returned !! key = None)
  /\ (forall err, faultAt 0 (store scan) = None -> faultAt 1 (store scan) = Some err ->
      List.rev (kvstore.calls (store next))
      = List.rev (kvstore.calls (store scan)) ++ gcCalls lock vp key false
      /\ kvstore.pairs (store next) = kvstore.pairs (store scan)
      /\ returned !! key = None).
Proof.
  intros Hlist Hnd Hlisted start scan next lock vp unused stale returned.
  assert (Hkeys : List.NoDup (map fst (before ++ (key, v) :: after))).
  { rewrite <- Hlisted. by apply NoDup_keys_filter. }
  rewrite map_app in Hkeys. cbn [map fst] in Hkeys.
  apply NoDup_remove_2 in Hkeys as Hfresh.
  assert (Hbefore : ~ In key (map fst before)) by (intros ?; apply Hfresh, in_or_app; by left).
  assert (Hafter : ~ In key (map fst after)) by (intros ?; apply Hfresh, in_or_app; by right).
  assert (Hscan_alloc : alloc scan = alloc s) by (unfold scan; by rewrite runGCLoop_alloc).
  assert (Hreturned : RunGC prev s =
    let (staleKeys, s') :=
      runGCLoop prev after
        (fst (runGCIteration prev key v (fst (runGCLoop prev before ∅ start)) scan)) next in
    ((staleKeys, None), s')).
  { rewrite RunGC_run. cbn zeta. rewrite Hlist, Hlisted, runGCLoop_app. fold start.
    subst next scan. destruct (runGCLoop prev before ∅ start) as [st0 s0]. cbn [fst snd].
    cbn [runGCLoop]. rewrite bind_run. by destruct (runGCIteration _ _ _ _ _). }
  assert (Hret : returned !! key
    = fst (runGCIteration prev key v (fst (runGCLoop prev before ∅ start)) scan) !! key).
  { subst returned. rewrite Hreturned.
    pose proof (runGCLoop_other after
      (fst (runGCIteration prev key v (fst (runGCLoop prev before ∅ start)) scan)) next key Hafter).
    by destruct (runGCLoop prev after _ _). }
  assert (Hst0 : fst (runGCLoop prev before ∅ start) !! key = None).
  { by rewrite runGCLoop_other. }
  split. { rewrite Hreturned. by destruct (runGCLoop prev after _ _). }
  rewrite Hret. subst next. rewrite runGCIteration_run. cbn zeta. rewrite Hscan_alloc.
  fold lock vp. subst unused stale.
  split; [|split].
  - intros -> ->. rewrite In_gcCalls_delete, andb_true_iff, bool_decide_eq_true.
    destruct (hasUsers vp (store scan)); cbn [negb andb].
    { st_simpl. unfold gcCalls. cbn [rev app]. rewrite <- !app_assoc. cbn [app].
      by rewrite Hst0. }
    destruct (decide (prev !! key = Some (kvstore.ModRevision v))) as [Hp|Hp];
      [rewrite !bool_decide_eq_true_2 by done|rewrite !bool_decide_eq_false_2 by done];
      cbn [negb andb].
    + destruct (faultAt 2 (store scan)); st_simpl; unfold gcCalls; cbn [rev app];
        rewrite <- !app_assoc; cbn [app]; rewrite Hst0;
        rewrite ?bool_decide_eq_false_2, ?bool_decide_eq_true_2 by done; done.
    + st_simpl. unfold gcCalls. cbn [rev app]. rewrite <- !app_assoc. cbn [app].
      rewrite lookup_insert_eq.
      split; [done|]. split; [split; [done|by intros [_ ?]]|]. done.
  - intros err ->. st_simpl. by rewrite Hst0.
  - intros err -> ->. st_simpl. unfold gcCalls. cbn [rev app]. rewrite <- !app_assoc. cbn [app].
    by rewrite Hst0.
Qed.

End GarbageCollection.

Lemma RunGC_two_round_rule_witness :
  fst (fst (RunGC staleOne (unusedMaster []))) !! masterOne = None
  /\ kvstore.pairs (store (snd (RunGC staleOne (unusedMaster [])))) = [].
Proof.
  pose proof (RunGC_two_round_rule staleOne (unusedMaster []) []
    masterOne (kvstore.mkValue "a" 5 false) [] eq_refl) as Hrule.
  destruct Hrule as (_ & Hok & _).
  - repeat constructor. intros [].
  - reflexivity.
  - destruct (Hok eq_refl eq_refl) as (_ & _ & _ & Hreturned).
    split; [exact Hreturned|]. vm_compute. reflexivity.
Defined.

(** Scenario S2, its two rounds: the first records the master key of the
    key nobody holds, the second deletes it. *)
Example RunGC_two_rounds :
  fst (RunGC ∅ (unusedMaster [])) = (staleOne, None)
  /\ kvstore.pairs (store (snd (RunGC ∅ (unusedMaster []))))
     = [(masterOne, kvstore.mkValue "a" 5 false)]
  /\ fst (RunGC staleOne (unusedMaster [])) = (∅, None)
  /\ kvstore.pairs (store (snd (RunGC staleOne (unusedMaster [])))) = [].
Proof. vm_compute. repeat split. Qed.

(** C1, as stated, fails, in two ways.  First the listing of the masters
    succeeds and the lock of the master key of ID 1 does not: no pair is
    listed under [value/a], the previous round recorded the key with its
    revision 5, and yet [RunGC] neither calls [DeleteIfLocked] nor
    removes the record, and the returned map does not contain the key.
    Then the lock and the listings succeed and [DeleteIfLocked] itself
    fails: the record is still in the store, and again the returned map
    does not contain the key. *)
Lemma RunGC_unused_master_neither_deleted_nor_returned :
  listed "cilium/state/identities/v1/value/a"
    (store (unusedMaster [None; Some "context deadline exceeded"])) = []
  /\ staleOne !! masterOne = Some 5
  /\ fst (RunGC staleOne (unusedMaster [None; Some "context deadline exceeded"]))
     = (∅, None)
  /\ kvstore.pairs
       (store (snd (RunGC staleOne (unusedMaster [None; Some "context deadline exceeded"]))))
     = [(masterOne, kvstore.mkValue "a" 5 false)]
  /\ kvstore.calls
       (store (snd (RunGC staleOne (unusedMaster [None; Some "context deadline exceeded"]))))
     = [kvstore.LockPathCall "cilium/state/identities/v1/locks/id/1";
        kvstore.ListPrefixCall "cilium/state/identities/v1/id"]
  /\ fst (RunGC staleOne
            (unusedMaster [None; None; None; Some "etcdserver: request timed out"]))
     = (∅, None)
  /\ kvstore.pairs
       (store (snd (RunGC staleOne
                      (unusedMaster [None; None; None; Some "etcdserver: request timed out"]))))
     = [(masterOne, kvstore.mkValue "a" 5 false)].
Proof. vm_compute. repeat split. Qed.

(** ** The retry loop of Allocate *)

Section Attempts.
Context {K : Type} `{AllocatorKey K}.

Lemma quiet_ret {A} (x : A) : quiet (mret x).
Proof. by intros s. Qed.

Lemma quiet_bind {A B} (m : M A) (f : A -> M B) :
  quiet m -> (forall x, quiet (f x)) -> quiet (m ≫= f).
Proof.
  intros Hm Hf s. rewrite bind_run. specialize (Hm s).
  destruct (m s) as [x s1]. cbn [snd] in Hm. by rewrite Hf.
Qed.

Lemma quiet_self : quiet self.
Proof. by intros s. Qed.

Lemma quiet_onLocalKeys {A} (op : localkeys.localKeys -> A * localkeys.localKeys) :
  quiet (onLocalKeys op).
Proof. intros s. unfold onLocalKeys. by destruct (op _). Qed.

Lemma quiet_onIDPool {A} (op : idpool.IDPool -> A * idpool.IDPool) : quiet (onIDPool op).
Proof. intros s. unfold onIDPool. by destruct (op _). Qed.

Lemma quiet_onMainCache op : quiet (onMainCache op).
Proof. by intros s. Qed.

Lemma quiet_ctxErr ctx : quiet (ctxErr ctx).
Proof. by intros s. Qed.

Lemma quiet_onStore {A} (op : kvstore.Store -> A * kvstore.Store) :
  (forall st, attempts (snd (op st)) = attempts st) -> quiet (onStore op).
Proof. intros Hop s. unfold onStore. specialize (Hop (store s)). by destruct (op _). Qed.

Lemma attempts_createOnly c key value lease st :
  isLockPath c = false ->
  attempts (snd (kvstore.createOnly c key value lease st)) = attempts st.
Proof.
  intros Hc. unfold kvstore.createOnly, kvstore.enter, attempts.
  destruct (hd None _); [|destruct (kvstore.lookup _ _)]; cbn; by rewrite Hc.
Qed.

Lemma attempts_updateIfDifferent c key value lease st :
  isLockPath c = false ->
  attempts (snd (kvstore.updateIfDifferent c key value lease st)) = attempts st.
Proof.
  intros Hc. unfold kvstore.updateIfDifferent, kvstore.enter, attempts.
  destruct (hd None _); [|destruct (kvstore.lookup _ _); [destruct (String.eqb _ _)|]];
    cbn; by rewrite Hc.
Qed.

Lemma attempts_listPrefix c prefix st :
  isLockPath c = false ->
  attempts (snd (kvstore.listPrefix c prefix st)) = attempts st.
Proof.
  intros Hc. unfold kvstore.listPrefix, kvstore.enter, attempts.
  destruct (hd None _); cbn; by rewrite Hc.
Qed.

Lemma quiet_Unlock lock : quiet (Unlock lock).
Proof. by intros s. Qed.

Lemma quiet_Wait ctx boff : quiet (onStore (backoff.Wait ctx boff)).
Proof. by apply quiet_onStore. Qed.

Ltac quiet_step :=
  first
    [ apply quiet_ret | apply quiet_self | apply quiet_onLocalKeys | apply quiet_onIDPool
    | apply quiet_onMainCache | apply quiet_ctxErr | apply quiet_Unlock | apply quiet_Wait
    | apply quiet_onStore; intros ?;
      first [ by apply attempts_createOnly | by apply attempts_updateIfDifferent
            | by apply attempts_listPrefix ]
    | apply quiet_bind; [|intros ?]
    | match goal with
      | |- quiet (match ?x with _ => _ end) => destruct x
      | |- quiet (let (_, _) := ?x in _) => destruct x
      end ].

Lemma quiet_createValueNodeKey ctx k id lock : quiet (createValueNodeKey ctx k id lock).
Proof. unfold createValueNodeKey, kvstore.UpdateIfDifferentIfLocked. repeat quiet_step. Qed.

Lemma quiet_selectAvailableID : quiet selectAvailableID.
Proof. unfold selectAvailableID. repeat quiet_step. Qed.

Lemma quiet_releaseKeyAndID k id : quiet (releaseKeyAndID k id).
Proof. unfold releaseKeyAndID. repeat quiet_step. Qed.

Lemma quiet_useExistingID ctx k value lock : quiet (useExistingID ctx k value lock).
Proof.
  unfold useExistingID. apply quiet_bind; [apply quiet_createValueNodeKey|intros ?].
  repeat quiet_step.
Qed.

Lemma quiet_allocateNewID ctx k lock : quiet (allocateNewID ctx k lock).
Proof.
  unfold allocateNewID, kvstore.CreateOnlyIfLocked.
  repeat first [ apply quiet_selectAvailableID | apply quiet_releaseKeyAndID
               | apply quiet_createValueNodeKey | quiet_step ].
Qed.

Lemma quiet_GetIfLocked ctx (key : K) lock : quiet (GetIfLocked ctx key lock).
Proof.
  unfold GetIfLocked, GetNoCacheIfLocked, kvstore.ListPrefixIfLocked. repeat quiet_step.
Qed.

Lemma quiet_lockedAllocateLocked ctx (key : K) k lock :
  quiet (lockedAllocateLocked ctx key k lock).
Proof.
  unfold lockedAllocateLocked, kvstore.CreateOnlyIfLocked.
  repeat first [ apply quiet_GetIfLocked | apply quiet_useExistingID
               | apply quiet_allocateNewID | quiet_step ].
Qed.

Lemma attempts_lockedAllocate ctx (key : K) s :
  attempts (store (snd (lockedAllocate ctx key s))) = S (attempts (store s)).
Proof.
  unfold lockedAllocate. rewrite bind_run, lockPath_run.
  destruct (faultAt 0 (store s)); [done|].
  rewrite bind_run.
  pose proof (quiet_lockedAllocateLocked ctx key (GetKey key)
    (lockName (alloc s) (GetKey key))
    (called (kvstore.LockPathCall (lockName (alloc s) (GetKey key))) s)) as Hq.
  destruct (lockedAllocateLocked _ _ _ _ _) as [res s1]. cbn [snd] in Hq.
  rewrite bind_run. cbn. unfold attempts in *. cbn in Hq. exact Hq.
Qed.

Lemma attempts_allocateAttempts ctx (key : K) n boff err s :
  (attempts (store (snd (allocateAttempts ctx key n boff err s))) <= attempts (store s) + n)%nat.
Proof.
  revert boff err s. induction n as [|n IH]; intros boff err s; cbn [allocateAttempts].
  - cbn. lia.
  - rewrite bind_run. pose proof (attempts_lockedAllocate ctx key s) as Hl.
    destruct (lockedAllocate ctx key s) as [[[value isNew] err1] s1]. cbn [snd] in Hl.
    destruct err1 as [e|].
    + rewrite bind_run. unfold ctxErr at 1. destruct (ctx _); [cbn; lia|].
      rewrite bind_run. pose proof (quiet_Wait ctx boff s1) as Hw.
      destruct (onStore (backoff.Wait ctx boff) s1) as [[waitErr boff'] s2]. cbn [snd] in Hw.
      destruct waitErr; [cbn; lia|]. specialize (IH boff' (Some e) s2). lia.
    + rewrite bind_run. cbn. lia.
Qed.

Lemma allocateAttempts_cancelled ctx (key : K) n boff err s e cancelled :
  snd (fst (lockedAllocate ctx key s)) = Some e ->
  ctx (kvstore.now (store (snd (lockedAllocate ctx key s)))) = Some cancelled ->
  allocateAttempts ctx key (S n) boff err s
  = ((0, false, Some ("key allocation cancelled: " +:+ cancelled)),
     snd (lockedAllocate ctx key s)).
Proof.
  intros He Hc. cbn [allocateAttempts]. rewrite bind_run.
  destruct (lockedAllocate ctx key s) as [[[value isNew] err1] s1]. cbn [fst snd] in *.
  subst err1. rewrite bind_run. unfold ctxErr at 1. by rewrite Hc.
Qed.

Lemma allocateAttempts_wait_error ctx (key : K) n boff err s e waitErr :
  snd (fst (lockedAllocate ctx key s)) = Some e ->
  ctx (kvstore.now (store (snd (lockedAllocate ctx key s)))) = None ->
  ctx (S (kvstore.now (store (snd (lockedAllocate ctx key s))))) = Some waitErr ->
  fst (allocateAttempts ctx key (S n) boff err s) = (0, false, Some waitErr).
Proof.
  intros He Hc Hw. cbn [allocateAttempts]. rewrite bind_run.
  destruct (lockedAllocate ctx key s) as [[[value isNew] err1] s1]. cbn [fst snd] in *.
  subst err1. rewrite bind_run. unfold ctxErr at 1. rewrite Hc.
  rewrite bind_run. unfold onStore, backoff.Wait. cbn. unfold kvstore.now in Hw. by rewrite Hw.
Qed.

Lemma allocateAttempts_retry ctx (key : K) n boff err s e :
  snd (fst (lockedAllocate ctx key s)) = Some e ->
  ctx (kvstore.now (store (snd (lockedAllocate ctx key s)))) = None ->
  ctx (S (kvstore.now (store (snd (lockedAllocate ctx key s))))) = None ->
  allocateAttempts ctx key (S n) boff err s
  = allocateAttempts ctx key n (waitedOnce boff) (Some e)
      (waited boff (snd (lockedAllocate ctx key s))).
Proof.
  intros He Hc Hw. cbn [allocateAttempts]. rewrite bind_run.
  destruct (lockedAllocate ctx key s) as [[[value isNew] err1] s1]. cbn [fst snd] in *.
  subst err1. rewrite bind_run. unfold ctxErr at 1. rewrite Hc.
  rewrite bind_run. unfold onStore at 1, backoff.Wait. cbn [kvstore.now kvstore.calls length].
  unfold kvstore.now in Hw. by rewrite Hw.
Qed.

Lemma allocateAttempts_success ctx (key : K) n boff err s :
  snd (fst (lockedAllocate ctx key s)) = None ->
  fst (allocateAttempts ctx key (S n) boff err s) = fst (lockedAllocate ctx key s).
Proof.
  intros He. cbn [allocateAttempts]. rewrite bind_run.
  destruct (lockedAllocate ctx key s) as [[[value isNew] err1] s1]. cbn [fst snd] in *.
  by subst err1.
Qed.

Lemma lockedAllocate_lock_refused ctx (key : K) s e :
  faultAt 0 (store s) = Some e ->
  lockedAllocate ctx key s
  = ((0, false, Some e), called (kvstore.LockPathCall (lockName (alloc s) (GetKey key))) s).
Proof. intros Hf. unfold lockedAllocate. by rewrite bind_run, lockPath_run, Hf. Qed.

Lemma last_cons_default {A} (x : A) l d : List.last (x :: l) d = List.last l x.
Proof.
  revert x d. induction l as [|y l IH]; intros x d; [done|].
  change (List.last (x :: y :: l) d) with (List.last (y :: l) d). by rewrite !IH.
Qed.

Lemma allocateAttempts_all_refused ctx (key : K) errs :
  (forall t, ctx t = None) ->
  forall boff err s rest,
  kvstore.faults (store s) = map Some errs ++ rest ->
  let res := allocateAttempts ctx key (length errs) boff err s in
  fst res = (0, false, List.last (map Some errs) err)
  /\ alloc (snd res) = alloc s
  /\ kvstore.faults (store (snd res)) = rest
  /\ kvstore.pairs (store (snd res)) = kvstore.pairs (store s)
  /\ List.rev (kvstore.calls (store (snd res)))
     = List.rev (kvstore.calls (store s))
       ++ failedRounds (lockName (alloc s) (GetKey key)) boff (length errs).
Proof.
  intros Hctx. induction errs as [|e errs IH]; intros boff err s rest Hf res; subst res.
  - cbn. by rewrite app_nil_r.
  - set (s2 := waited boff (called (kvstore.LockPathCall (lockName (alloc s) (GetKey key))) s)).
    assert (Hstep : allocateAttempts ctx key (length (e :: errs)) boff err s
                    = allocateAttempts ctx key (length errs) (waitedOnce boff) (Some e) s2).
    { cbn [length allocateAttempts]. rewrite bind_run.
      rewrite (lockedAllocate_lock_refused ctx key s e)
        by (unfold faultAt; by rewrite Hf).
      rewrite bind_run. unfold ctxErr at 1. rewrite Hctx.
      rewrite bind_run. unfold onStore at 1, backoff.Wait. by rewrite Hctx. }
    rewrite Hstep.
    destruct (IH (waitedOnce boff) (Some e) s2 rest) as (Hres & Ha & Hfl & Hp & Hc).
    { subst s2. unfold waited, backoff.Wait. st_simpl. by rewrite Hf. }
    rewrite Hres, Ha, Hfl, Hp, Hc. subst s2. unfold waited. st_simpl.
    split; [|split; [done|split; [done|split; [done|]]]].
    + f_equal. cbn [map]. symmetry. apply last_cons_default.
    + unfold backoff.Wait. st_simpl. cbn [rev failedRounds length backoff.attempt].
      by rewrite <- !app_assoc.
Qed.

Lemma withLocalKeys_same s : withLocalKeys (localKeys (alloc s)) s = s.
Proof. by destruct s as [[] ? ?]. Qed.

Lemma Allocate_local_miss ctx (key : K) s :
  initialListDone (alloc s) = true ->
  ctx (kvstore.now (store s)) = None ->
  localkeys.find (GetKey key) (localKeys (alloc s)) = None ->
  Allocate ctx key s =
  let (res, s') :=
    allocateAttempts ctx key maxAllocAttempts (backoffFor (alloc s) key) None s in
  (Some res, s').
Proof.
  intros Hdone Hctx Hfind. unfold Allocate. rewrite bind_run.
  unfold selectInitialListDone. rewrite Hctx, Hdone.
  rewrite bind_run. unfold onLocalKeys at 1, localkeys.use. rewrite Hfind.
  cbn [NoID Z.eqb negb]. rewrite bind_run. unfold self at 1.
  fold (withLocalKeys (localKeys (alloc s)) s). rewrite withLocalKeys_same.
  fold (backoffFor (alloc s) key). rewrite bind_run.
  by destruct (allocateAttempts _ _ _ _ _ _).
Qed.

Lemma attempts_Allocate ctx (key : K) s :
  (attempts (store (snd (Allocate ctx key s))) <= attempts (store s) + maxAllocAttempts)%nat.
Proof.
  unfold Allocate. rewrite bind_run.
  pose proof (selectInitialListDone_state ctx s) as [_ Hs].
  destruct (selectInitialListDone ctx s) as [sel s0]. cbn [snd] in Hs.
  destruct sel; [|unfold mret, M_ret; cbn [snd]; rewrite Hs; lia..].
  rewrite bind_run. unfold onLocalKeys at 1. destruct (localkeys.use _ _) as [val lk].
  destruct (negb (val =? NoID)).
  - rewrite bind_run. unfold onMainCache, mret, M_ret. cbn [snd store]. rewrite Hs. lia.
  - rewrite bind_run. unfold self at 1. rewrite bind_run.
    match goal with |- context [allocateAttempts ctx key ?n ?b ?e ?st] =>
      pose proof (attempts_allocateAttempts ctx key n b e st) as Hb;
      destruct (allocateAttempts ctx key n b e st) as [res s1] end.
    cbn [snd store] in *. rewrite Hs in Hb. exact Hb.
Qed.

Lemma NewAllocator_backoffTemplate client uuid locklessCapability basePath opts a :
  Forall keepsBackoff opts ->
  NewAllocator client uuid locklessCapability basePath opts = Some (Some a, None) ->
  backoff.Min (backoffTemplate a) = 20 * Millisecond
  /\ backoff.Factor (backoffTemplate a) = 2.
Proof.
  intros Hopts. unfold NewAllocator.
  destruct (negb client); [done|]. destruct (_ <? _)%nat; [done|].
  set (a0 := initialAllocator _ _ _).
  assert (Hkeep : backoffTemplate (applyOptions opts a0) = backoffTemplate a0).
  { unfold applyOptions. generalize a0. induction Hopts as [|o opts Ho _ IH]; intros a1; [done|].
    cbn [fold_left]. by rewrite IH, Ho. }
  destruct (String.eqb _ _); [done|]. destruct (_ <? _); [done|]. destruct (_ <=? _); [done|].
  intros [= <-]. cbn [backoffTemplate set_idPool set_mainCache]. by rewrite Hkeep.
Qed.

Lemma provided_options_keep_backoff v id mask :
  Forall keepsBackoff
    [WithEvents; WithSuffix v; WithMin id; WithMax id; WithPrefixMask mask;
     WithMasterKeyProtection; WithoutGC].
Proof. repeat constructor. Qed.

(** C6, as the code has it: [Allocate] makes at most 16 attempts of
    [lockedAllocate] ([maxAllocAttempts]); an attempt that succeeds ends
    the loop with its result.  After each failed attempt,
    the sixteenth included, it returns "key allocation cancelled" when
    the context is done, and otherwise waits on the backoff, returning
    the error of the wait when it has one; after a wait without error
    the loop goes on with one attempt less to make, and with none left
    it returns the error of the last attempt.  When the local fast path
    misses, the context is never done and sixteen attempts in a row are
    refused their lock, it returns the error of the last attempt, having
    waited sixteen times on a backoff that carries the minimum and the
    factor of the template.  The template of an allocator built by
    [NewAllocator] has the minimum 20 milliseconds and the factor 2;
    none of the options the package offers changes it. *)
Theorem Allocate_retries_with_backoff (ctx : Context) (key : K) :
  maxAllocAttempts = 16%nat
  /\ (forall s,
       (attempts (store (snd (Allocate ctx key s)))
        <= attempts (store s) + maxAllocAttempts)%nat)
  /\ (forall n boff err s e cancelled,
       snd (fst (lockedAllocate ctx key s)) = Some e ->
       ctx (kvstore.now (store (snd (lockedAllocate ctx key s)))) = Some cancelled ->
       allocateAttempts ctx key (S n) boff err s
       = ((0, false, Some ("key allocation cancelled: " +:+ cancelled)),
          snd (lockedAllocate ctx key s)))
  /\ (forall n boff err s e waitErr,
       snd (fst (lockedAllocate ctx key s)) = Some e ->
       ctx (kvstore.now (store (snd (lockedAllocate ctx key s)))) = None ->
       ctx (S (kvstore.now (store (snd (lockedAllocate ctx key s))))) = Some waitErr ->
       fst (allocateAttempts ctx key (S n) boff err s) = (0, false, Some waitErr))
  /\ (forall n boff err s,
       snd (fst (lockedAllocate ctx key s)) = None ->
       fst (allocateAttempts ctx key (S n) boff err s) = fst (lockedAllocate ctx key s))
  /\ (forall n boff err s e,
       snd (fst (lockedAllocate ctx key s)) = Some e ->
       ctx (kvstore.now (store (snd (lockedAllocate ctx key s)))) = None ->
       ctx (S (kvstore.now (store (snd (lockedAllocate ctx key s))))) = None ->
       allocateAttempts ctx key (S n) boff err s
       = allocateAttempts ctx key n (waitedOnce boff) (Some e)
           (waited boff (snd (lockedAllocate ctx key s))))
  /\ (forall boff err s, allocateAttempts ctx key 0 boff err s = ((0, false, err), s))
  /\ (forall s errs rest,
       initialListDone (alloc s) = true ->
       (forall t, ctx t = None) ->
       localkeys.find (GetKey key) (localKeys (alloc s)) = None ->
       length errs = maxAllocAttempts ->
       kvstore.faults (store s) = map Some errs ++ rest ->
       fst (Allocate ctx key s) = Some (0, false, List.last (map Some errs) None)
       /\ List.rev (kvstore.calls (store (snd (Allocate ctx key s))))
          = List.rev (kvstore.calls (store s))
            ++ failedRounds (lockName (alloc s) (GetKey key)) (backoffFor (alloc s) key)
                 maxAllocAttempts)
  /\ (forall client uuid locklessCapability basePath opts a,
       Forall keepsBackoff opts ->
       NewAllocator client uuid locklessCapability basePath opts = Some (Some a, None) ->
       backoff.Min (backoffTemplate a) = 20 * Millisecond
       /\ backoff.Factor (backoffTemplate a) = 2
       /\ backoff.Min (backoffFor a key) = 20 * Millisecond
       /\ backoff.Factor (backoffFor a key) = 2)
  /\ (forall v id mask,
       Forall keepsBackoff
         [WithEvents; WithSuffix v; WithMin id; WithMax id; WithPrefixMask mask;
          WithMasterKeyProtection; WithoutGC]).
Proof.
  split; [done|]. split; [apply attempts_Allocate|].
  split; [apply allocateAttempts_cancelled|].
  split; [apply allocateAttempts_wait_error|].
  split; [apply allocateAttempts_success|].
  split; [apply allocateAttempts_retry|]. split; [done|].
  split; [|split; [|apply provided_options_keep_backoff]].
  - intros s errs rest Hdone Hctx Hfind Hlen Hf.
    rewrite Allocate_local_miss by done. rewrite <- Hlen.
    destruct (allocateAttempts_all_refused ctx key errs Hctx (backoffFor (alloc s) key)
                None s rest Hf) as (Hres & _ & _ & _ & Hcalls).
    destruct (allocateAttempts _ _ _ _ _ _) as [res s']. cbn [fst snd] in *.
    by rewrite Hres, Hcalls.
  - intros client uuid locklessCapability basePath opts a Hopts Hnew.
    destruct (NewAllocator_backoffTemplate _ _ _ _ _ _ Hopts Hnew) as [Hmin Hfactor].
    done.
Qed.

End Attempts.

Lemma Allocate_retries_with_backoff_witness :
  fst (Allocate Background "d" locksRefused) = Some (0, false, Some "refused 16").
Proof.
  refine (proj1 (proj1 (proj2 (proj2 (proj2 (proj2 (proj2 (proj2 (proj2
    (Allocate_retries_with_backoff Background "d"))))))))
    locksRefused sixteenRefusals [] _ _ _ _ _)); try reflexivity.
Defined.

(** C6, as stated, fails: sixteen attempts are refused their lock and
    the context is cancelled while the sixteenth runs.  [Allocate] has
    made sixteen attempts, the last one failed with "refused 16", and
    the error returned is the cancellation, not that of the last
    attempt. *)
Lemma Allocate_cancelled_after_last_attempt :
  attempts (store (snd (Allocate (cancelledAt 31) "d" locksRefused))) = 16%nat
  /\ fst (lockedAllocate (cancelledAt 31) "d"
            (snd (allocateAttempts (cancelledAt 31) "d" 15
                    (backoffFor n1Allocator "d") None locksRefused)))
     = (0, false, Some "refused 16")
  /\ fst (Allocate (cancelledAt 31) "d" locksRefused)
     = Some (0, false, Some "key allocation cancelled: context canceled").
Proof. vm_compute. repeat split. Qed.

(** * Further properties *)

(** ** Strings, numbers and paths, continued *)

Lemma append_assoc (a b c : string) : (a +:+ b) +:+ c = a +:+ (b +:+ c).
Proof. induction a as [|x a IH]; [done|]. by rewrite !append_String, IH. Qed.

Lemma append_empty_r (a : string) : a +:+ "" = a.
Proof. induction a as [|x a IH]; [done|]. by rewrite append_String, IH. Qed.

Lemma len_app (a b : string) : gostrings.len (a +:+ b) = gostrings.len a + gostrings.len b.
Proof.
  induction a as [|x a IH]; [by rewrite append_empty|].
  rewrite append_String, !len_String, IH. lia.
Qed.

Lemma contains_split sep s :
  gostrings.contains sep s = true ->
  exists head seg, s = head +:+ String sep seg /\ gostrings.contains sep seg = false.
Proof.
  induction s as [|c s IH]; [done|]. cbn [gostrings.contains].
  destruct (gostrings.contains sep s) eqn:Hs.
  - intros _. destruct (IH eq_refl) as (head & seg & -> & Hseg).
    by exists (String c head), seg.
  - rewrite orb_false_r. intros Hc. apply Ascii.eqb_eq in Hc as ->. by exists "", s.
Qed.

Lemma LastIndex_last_separator sep head seg :
  gostrings.contains sep seg = false ->
  gostrings.LastIndex (head +:+ String sep seg) sep = gostrings.len head.
Proof.
  intros Hseg. unfold gostrings.LastIndex. rewrite LastIndexFrom_app.
  cbn [gostrings.LastIndexFrom]. rewrite Ascii.eqb_refl.
  rewrite LastIndexFrom_absent by done. lia.
Qed.

Lemma LastIndex_absent sep s :
  gostrings.contains sep s = false -> gostrings.LastIndex s sep = -1.
Proof. intros Hs. unfold gostrings.LastIndex. by rewrite LastIndexFrom_absent. Qed.

(** X1: [prefixMatchesKey] answers true exactly when the key is a string
    as long as the prefix, one slash, and a last segment without a
    slash; only the length of the prefix counts, so the key need not
    start with the prefix, and a key without a slash matches no
    prefix. *)
Theorem prefixMatchesKey_last_segment (prefix key : string) :
  (prefixMatchesKey prefix key = true
   <-> exists head seg, key = head +:+ String "/" seg
         /\ gostrings.len head = gostrings.len prefix
         /\ gostrings.contains "/" seg = false)
  /\ (gostrings.contains "/" key = false -> prefixMatchesKey prefix key = false)
  /\ (forall other, gostrings.len other = gostrings.len prefix ->
        prefixMatchesKey other key = prefixMatchesKey prefix key).
Proof.
  unfold prefixMatchesKey. split; [split|split].
  - intros Hm. apply Z.eqb_eq in Hm.
    destruct (gostrings.contains "/" key) eqn:Hc.
    + destruct (contains_split _ _ Hc) as (head & seg & -> & Hseg).
      exists head, seg. rewrite LastIndex_last_separator in Hm by done. done.
    + rewrite LastIndex_absent in Hm by done. pose proof (len_nonneg prefix). lia.
  - intros (head & seg & -> & Hlen & Hseg).
    rewrite LastIndex_last_separator by done. apply Z.eqb_eq. lia.
  - intros Hc. rewrite LastIndex_absent by done. apply Z.eqb_neq.
    pose proof (len_nonneg prefix). lia.
  - intros other ->. done.
Qed.

Lemma digitOf_digitChar d :
  0 <= d <= 9 -> strconv.digitOf (strconv.digitChar d) = Some d.
Proof.
  intros Hd.
  assert (d = 0 \/ d = 1 \/ d = 2 \/ d = 3 \/ d = 4 \/ d = 5 \/ d = 6 \/ d = 7
          \/ d = 8 \/ d = 9) as Hcases by lia.
  repeat destruct Hcases as [->|Hcases]; try subst d; reflexivity.
Qed.

Lemma formatFuel_nonempty fuel n acc :
  acc <> "" -> strconv.formatFuel fuel n acc <> "".
Proof.
  revert n acc. induction fuel as [|fuel IH]; intros n acc Hacc; cbn [strconv.formatFuel]; [done|].
  destruct (n / 10 =? 0); [done|]. by apply IH.
Qed.

Lemma formatFuel_S_nonempty fuel n acc : strconv.formatFuel (S fuel) n acc <> "".
Proof.
  cbn [strconv.formatFuel]. destruct (n / 10 =? 0); [done|]. by apply formatFuel_nonempty.
Qed.

Lemma parseDigits_formatFuel fuel n acc :
  0 <= n < 10 ^ Z.of_nat fuel -> n <= strconv.maxUint64 ->
  strconv.parseDigits (strconv.formatFuel fuel n acc) 0 = strconv.parseDigits acc n.
Proof.
  revert n acc. induction fuel as [|fuel IH]; intros n acc Hn Hmax.
  - cbn in Hn. assert (n = 0) as -> by lia. done.
  - cbn [strconv.formatFuel].
    assert (Hdigit : 0 <= n mod 10 <= 9) by (pose proof (Z.mod_pos_bound n 10); lia).
    assert (Hstep : forall a, a * 10 + n mod 10 = n ->
              strconv.parseDigits (String (strconv.digitChar (n mod 10)) acc) a
              = strconv.parseDigits acc n).
    { intros a Ha. cbn [strconv.parseDigits]. rewrite digitOf_digitChar by done.
      cbn zeta. rewrite Ha. by rewrite (proj2 (Z.leb_le _ _) Hmax). }
    destruct (Z.eqb_spec (n / 10) 0) as [Hq|Hq].
    + apply Hstep. pose proof (Z.div_mod n 10). lia.
    + rewrite IH.
      * apply Hstep. pose proof (Z.div_mod n 10). lia.
      * rewrite Nat2Z.inj_succ, Z.pow_succ_r in Hn by lia.
        split; [apply Z.div_pos; lia|]. apply Z.div_lt_upper_bound; lia.
      * pose proof (Z.div_mod n 10). pose proof (Z.div_pos n 10). lia.
Qed.

(** The decimal string of a 64-bit number parses back to the number. *)
Lemma ParseUint_FormatUint n :
  0 <= n <= strconv.maxUint64 -> strconv.ParseUint (strconv.FormatUint n) = Some n.
Proof.
  intros Hn. unfold strconv.ParseUint, strconv.FormatUint.
  pose proof (parseDigits_formatFuel 20 n "") as Hp.
  destruct (strconv.formatFuel 20 n "") as [|c rest] eqn:Hf.
  - exfalso. by apply (formatFuel_S_nonempty 19 n "").
  - rewrite Hp; [done| |lia]. unfold strconv.maxUint64 in Hn. lia.
Qed.

Lemma lor_uint64 a b :
  0 <= a <= strconv.maxUint64 -> 0 <= b <= strconv.maxUint64 ->
  0 <= Z.lor a b <= strconv.maxUint64.
Proof.
  unfold strconv.maxUint64. intros Ha Hb.
  assert (0 <= Z.lor a b) by (apply Z.lor_nonneg; lia).
  split; [done|].
  destruct (Z.eq_dec (Z.lor a b) 0) as [->|Hz]; [lia|].
  assert (Z.lor a b < 2 ^ 64); [|lia].
  apply Z.log2_lt_pow2; [lia|]. rewrite Z.log2_lor by lia.
  assert (forall x, 0 <= x <= 2 ^ 64 - 1 -> Z.log2 x < 64) as Hlog.
  { intros x Hx. destruct (Z.eq_dec x 0) as [->|]; [done|].
    apply Z.log2_lt_pow2; lia. }
  pose proof (Hlog a Ha). pose proof (Hlog b Hb). lia.
Qed.

Lemma HasPrefix_self_app p rest : gostrings.HasPrefix (p +:+ rest) p = true.
Proof.
  unfold gostrings.HasPrefix. induction p as [|c p IH]; [by destruct rest|].
  rewrite append_String. cbn [String.prefix]. by destruct (ascii_dec c c).
Qed.

Lemma SplitFrom_plain sep seg cur :
  gostrings.contains sep seg = false ->
  gostrings.SplitFrom sep seg cur = [String.rev_app cur seg].
Proof.
  revert cur. induction seg as [|c seg IH]; intros cur Hc; cbn [gostrings.SplitFrom].
  - done.
  - cbn [gostrings.contains] in Hc. apply orb_false_iff in Hc as [-> Hc].
    by rewrite IH.
Qed.

Lemma SplitFrom_snoc sep a seg cur :
  gostrings.contains sep seg = false ->
  gostrings.SplitFrom sep (a +:+ String sep seg) cur
  = gostrings.SplitFrom sep a cur ++ [seg].
Proof.
  intros Hseg. revert cur. induction a as [|c a IH]; intros cur.
  - rewrite append_empty. cbn [gostrings.SplitFrom]. rewrite Ascii.eqb_refl.
    by rewrite SplitFrom_plain.
  - rewrite append_String. cbn [gostrings.SplitFrom].
    destruct (Ascii.eqb c sep); by rewrite IH.
Qed.

Lemma strings_Join_snoc l seg sep :
  l <> [] ->
  gostrings.Join (l ++ [seg]) sep = gostrings.Join l sep +:+ sep +:+ seg.
Proof.
  induction l as [|e l IH]; [done|]. intros _. destruct l as [|e' l]; [done|].
  change (gostrings.Join ((e :: e' :: l) ++ [seg]) sep)
    with (e +:+ sep +:+ gostrings.Join ((e' :: l) ++ [seg]) sep).
  rewrite IH by done.
  change (gostrings.Join (e :: e' :: l) sep) with (e +:+ sep +:+ gostrings.Join (e' :: l) sep).
  by rewrite !append_assoc.
Qed.

Lemma plainSegment_spec seg :
  plainSegment seg = true ->
  String.eqb seg "" = false /\ String.eqb seg "." = false /\ String.eqb seg ".." = false
  /\ gostrings.contains "/" seg = false.
Proof.
  unfold plainSegment. rewrite !andb_true_iff, !negb_true_iff. tauto.
Qed.

Lemma cleanStep_plain rooted stack seg :
  plainSegment seg = true -> gopath.cleanStep rooted stack seg = seg :: stack.
Proof.
  intros Hp. apply plainSegment_spec in Hp as (H1 & H2 & H3 & _).
  unfold gopath.cleanStep. by rewrite H1, H2, H3.
Qed.

Lemma Clean_snoc p seg :
  p <> "" -> plainSegment seg = true ->
  gopath.Clean p <> "." -> gopath.Clean p <> "/" ->
  gopath.Clean (p +:+ String "/" seg) = gopath.Clean p +:+ String "/" seg.
Proof.
  intros Hp Hseg Hdot Hroot. destruct p as [|c p]; [done|].
  pose proof (plainSegment_spec _ Hseg) as (_ & _ & _ & Hslash).
  rewrite append_String. unfold gopath.Clean in *. rewrite <- append_String.
  unfold gostrings.Split in *. rewrite SplitFrom_snoc by done.
  rewrite fold_left_app. cbn [fold_left]. rewrite cleanStep_plain by done.
  cbn [List.rev].
  set (kept := List.rev (fold_left _ _ _)) in *.
  destruct kept as [|e kept'] eqn:Hkept.
  { cbn in Hdot, Hroot. by destruct (Ascii.eqb c "/"). }
  rewrite <- Hkept in *. rewrite strings_Join_snoc by (rewrite Hkept; done).
  set (body := gostrings.Join kept "/") in *.
  destruct (Ascii.eqb c "/").
  - by rewrite !append_assoc.
  - destruct (String.eqb_spec body "") as [Hb|Hb]; [done|].
    destruct body as [|b body']; [done|]. by rewrite append_String.
Qed.

Lemma dropEmpty_head e rest elems :
  gopath.dropEmpty elems = e :: rest -> e <> "".
Proof.
  induction elems as [|x elems IH]; [done|]. cbn [gopath.dropEmpty].
  destruct (String.eqb_spec x "") as [->|Hx]; [done|]. by intros [= <- _].
Qed.

Lemma dropEmpty_snoc elems seg :
  gopath.dropEmpty elems <> [] ->
  gopath.dropEmpty (elems ++ [seg]) = gopath.dropEmpty elems ++ [seg].
Proof.
  induction elems as [|x elems IH]; [done|]. cbn [app gopath.dropEmpty].
  by destruct (String.eqb x "").
Qed.

Lemma strings_Join_nonempty e rest sep : e <> "" -> gostrings.Join (e :: rest) sep <> "".
Proof. destruct e; [done|]. by destruct rest. Qed.

(** One more plain element at the end of [path.Join]'s arguments comes
    out as one more segment of the result, unless what stands before it
    cleans to nothing, to ["."] or to the root. *)
Lemma Join_snoc elems seg :
  plainSegment seg = true ->
  gopath.Join elems <> "" -> gopath.Join elems <> "." -> gopath.Join elems <> "/" ->
  gopath.Join (elems ++ [seg]) = gopath.Join elems +:+ String "/" seg.
Proof.
  intros Hseg Hne Hdot Hroot. unfold gopath.Join in *.
  destruct (gopath.dropEmpty elems) as [|e rest] eqn:Hd; [done|].
  rewrite dropEmpty_snoc by (by rewrite Hd). rewrite Hd.
  change (gopath.Clean (gostrings.Join ((e :: rest) ++ [seg]) "/")
          = gopath.Clean (gostrings.Join (e :: rest) "/") +:+ String "/" seg).
  rewrite strings_Join_snoc by done.
  change (gostrings.Join (e :: rest) "/" +:+ "/" +:+ seg)
    with (gostrings.Join (e :: rest) "/" +:+ String "/" seg).
  apply Clean_snoc; try done.
  apply strings_Join_nonempty. by eapply dropEmpty_head.
Qed.

(** ** The store after a write *)

Lemma lookup_put_ne key key' v kvs :
  key' <> key -> kvstore.lookup key' (kvstore.put key v kvs) = kvstore.lookup key' kvs.
Proof.
  intros Hne. unfold kvstore.lookup. induction kvs as [|[k0 v0] kvs IH]; cbn.
  - destruct (String.eqb_spec key key'); [congruence|done].
  - destruct (String.eqb_spec k0 key) as [->|Hk]; cbn.
    + destruct (String.eqb_spec key key'); [congruence|done].
    + destruct (String.eqb_spec k0 key'); [done|apply IH].
Qed.

Lemma lookup_remove key kvs : kvstore.lookup key (kvstore.remove key kvs) = None.
Proof.
  unfold kvstore.lookup, kvstore.remove. induction kvs as [|[k0 v0] kvs IH]; [done|].
  cbn. destruct (String.eqb_spec k0 key) as [->|Hk]; cbn; [done|].
  destruct (String.eqb_spec k0 key); [done|apply IH].
Qed.

Lemma lookup_remove_ne key key' kvs :
  key' <> key -> kvstore.lookup key' (kvstore.remove key kvs) = kvstore.lookup key' kvs.
Proof.
  intros Hne. unfold kvstore.lookup, kvstore.remove.
  induction kvs as [|[k0 v0] kvs IH]; [done|].
  cbn. destruct (String.eqb_spec k0 key) as [->|Hk]; cbn.
  - destruct (String.eqb_spec key key'); [congruence|apply IH].
  - destruct (String.eqb_spec k0 key'); [done|apply IH].
Qed.

Lemma lookup_In key v kvs :
  kvstore.lookup key kvs = Some v -> In (key, v) kvs.
Proof.
  unfold kvstore.lookup. induction kvs as [|[k0 v0] kvs IH]; [done|]. cbn.
  destruct (String.eqb_spec k0 key) as [->|Hk]; cbn.
  - intros [= ->]. by left.
  - intros Hf. right. by apply IH.
Qed.

Lemma listed_put_unlisted prefix key v kvs :
  gostrings.HasPrefix key prefix = false ->
  List.filter (fun p => gostrings.HasPrefix (fst p) prefix) (kvstore.put key v kvs)
  = List.filter (fun p => gostrings.HasPrefix (fst p) prefix) kvs.
Proof.
  intros Hp. induction kvs as [|[k0 v0] kvs IH]; cbn [kvstore.put List.filter fst].
  - by rewrite Hp.
  - destruct (String.eqb_spec k0 key) as [->|Hk]; cbn [List.filter fst].
    + by rewrite Hp.
    + by rewrite IH.
Qed.

Lemma scanPairs_put prefix key v kvs id :
  (forall p, In p (List.filter (fun p => gostrings.HasPrefix (fst p) prefix) kvs) ->
     usable prefix p = false) ->
  gostrings.HasPrefix key prefix = true ->
  prefixMatchesKey prefix key = true ->
  strconv.ParseUint (kvstore.Data v) = Some id ->
  scanPairs prefix
    (List.filter (fun p => gostrings.HasPrefix (fst p) prefix) (kvstore.put key v kvs)) = id.
Proof.
  intros Hnone Hp Hm Hv. induction kvs as [|[k0 v0] kvs IH]; cbn [kvstore.put].
  - cbn [List.filter fst]. rewrite Hp. cbn [scanPairs]. by rewrite Hm, Hv.
  - destruct (String.eqb_spec k0 key) as [->|Hk]; cbn [List.filter fst].
    + rewrite Hp. cbn [scanPairs]. by rewrite Hm, Hv.
    + cbn [List.filter fst] in Hnone.
      destruct (gostrings.HasPrefix k0 prefix) eqn:Hk0.
      * rewrite scanPairs_cons_unusable by (apply Hnone; by left).
        apply IH. intros p Hin. apply Hnone. by right.
      * by apply IH.
Qed.

(** What "update if different" leaves behind: the call is recorded and
    one fault consumed; without a fault the key holds the value and no
    other key has changed, with a fault nothing has. *)
Lemma updateIfDifferent_spec c key value lease st :
  let r := kvstore.updateIfDifferent c key value lease st in
  snd (fst r) = faultAt 0 st
  /\ kvstore.calls (snd r) = c :: kvstore.calls st
  /\ kvstore.faults (snd r) = List.tl (kvstore.faults st)
  /\ (faultAt 0 st = None ->
      kvstore.Data <$> kvstore.lookup key (kvstore.pairs (snd r)) = Some value
      /\ forall key', key' <> key ->
           kvstore.lookup key' (kvstore.pairs (snd r)) = kvstore.lookup key' (kvstore.pairs st))
  /\ (forall e, faultAt 0 st = Some e -> kvstore.pairs (snd r) = kvstore.pairs st).
Proof.
  cbn zeta. rewrite <- nextFault_faultAt.
  unfold kvstore.updateIfDifferent, kvstore.enter, nextFault.
  destruct (hd None (kvstore.faults st)) as [e|]; cbn [fst snd kvstore.pairs kvstore.calls kvstore.faults].
  { repeat split; done. }
  destruct (kvstore.lookup key (kvstore.pairs st)) as [v|] eqn:Hl;
    [destruct (String.eqb_spec (kvstore.Data v) value) as [Hd|Hd]|];
    cbn [fst snd kvstore.pairs kvstore.calls kvstore.faults kvstore.write];
    repeat split; try done.
  all: try (by rewrite lookup_put).
  all: try (intros; by apply lookup_put_ne).
  by rewrite Hl; cbn; rewrite Hd.
Qed.

(** After "update if different" has written a value that parses under a
    key that matches the prefix, a scan of the prefix that found nothing
    usable before finds that value. *)
Lemma scanPairs_updateIfDifferent prefix c key value lease st id :
  (forall p, In p (listed prefix st) -> usable prefix p = false) ->
  gostrings.HasPrefix key prefix = true ->
  prefixMatchesKey prefix key = true ->
  strconv.ParseUint value = Some id ->
  faultAt 0 st = None ->
  scanPairs prefix (listed prefix (snd (kvstore.updateIfDifferent c key value lease st))) = id.
Proof.
  intros Hnone Hp Hm Hv Hf. rewrite <- nextFault_faultAt in Hf.
  unfold kvstore.updateIfDifferent, kvstore.enter. unfold nextFault in Hf. rewrite Hf.
  cbn [kvstore.pairs].
  assert (Hwrite : scanPairs prefix
    (listed prefix (kvstore.write key value lease
       (kvstore.mkStore (kvstore.pairs st) (kvstore.revision st) (c :: kvstore.calls st)
          (List.tl (kvstore.faults st))))) = id).
  { unfold listed, kvstore.write. cbn [kvstore.pairs]. by apply scanPairs_put. }
  destruct (kvstore.lookup key (kvstore.pairs st)) as [v|] eqn:Hl; [|done].
  destruct (String.eqb_spec (kvstore.Data v) value) as [Hd|Hd]; [|done].
  exfalso. apply lookup_In in Hl.
  assert (Hin : In (key, v) (listed prefix st)).
  { unfold listed. apply filter_In. by split. }
  specialize (Hnone _ Hin). unfold usable in Hnone. cbn [fst snd] in Hnone.
  rewrite Hm, Hd, Hv in Hnone. cbn [andb] in Hnone.
  by rewrite bool_decide_eq_true_2 in Hnone.
Qed.

(** ** One attempt, step by step *)

Ltac st_simpl_in H :=
  cbn [alloc store picks events basePrefix idPrefix valuePrefix lockPrefix min max
       prefixMask localKeys suffix lockless backoffTemplate mainCache
       initialListDone idPool enableMasterKeyProtection disableGC
       set_localKeys set_idPool set_mainCache withPool withLocalKeys
       called wrote erased unlocked onStoreState fst snd
       kvstore.pairs kvstore.revision kvstore.calls kvstore.faults
       kvstore.enter kvstore.write kvstore.erase kvstore.Unlock] in H.

(** Settle a closed equation or inequation by evaluation. *)
Ltac by_evaluation :=
  lazymatch goal with
  | |- _ = _ => vm_compute; reflexivity
  | |- _ <> _ => vm_compute; discriminate
  | |- _ => idtac
  end.

Lemma find_update k f lk e :
  localkeys.find k lk = Some e -> localkeys.find k (localkeys.update k f lk) = Some (f e).
Proof.
  unfold localkeys.find. induction lk as [|[k0 e0] lk IH]; [done|]. cbn.
  destruct (String.eqb_spec k0 k) as [->|Hk]; cbn.
  - intros [= ->]. by rewrite String.eqb_refl.
  - destruct (String.eqb_spec k0 k); [done|]. apply IH.
Qed.

Lemma find_update_ne k k' f lk :
  k' <> k -> localkeys.find k' (localkeys.update k f lk) = localkeys.find k' lk.
Proof.
  intros Hne. unfold localkeys.find. induction lk as [|[k0 e0] lk IH]; [done|]. cbn.
  destruct (String.eqb_spec k0 k) as [->|Hk]; cbn.
  - destruct (String.eqb_spec k k'); [congruence|done].
  - destruct (String.eqb_spec k0 k'); [done|apply IH].
Qed.

Lemma find_drop k lk : localkeys.find k (localkeys.drop k lk) = None.
Proof.
  unfold localkeys.find, localkeys.drop. induction lk as [|[k0 e0] lk IH]; [done|]. cbn.
  destruct (String.eqb_spec k0 k) as [->|Hk]; cbn; [done|].
  destruct (String.eqb_spec k0 k); [done|apply IH].
Qed.

Lemma verify_found k lk e :
  localkeys.find k lk = Some e ->
  localkeys.verify k lk = (None, localkeys.update k verifiedKey lk).
Proof. intros Hf. unfold localkeys.verify. by rewrite Hf. Qed.

Lemma allocate_no_error k id lk : snd (fst (localkeys.allocate k id lk)) = None.
Proof. unfold localkeys.allocate. by destruct (localkeys.find k lk). Qed.

Section OneAttempt.

Context {K : Type} `{AllocatorKey K}.

Variables (ctx : Context) (key : K).

Lemma lockedAllocate_locked s :
  faultAt 0 (store s) = None ->
  lockedAllocate ctx key s =
  let lock := lockName (alloc s) (GetKey key) in
  let (res, s') :=
    lockedAllocateLocked ctx key (GetKey key) lock (called (kvstore.LockPathCall lock) s) in
  (res, unlocked lock s').
Proof.
  intros Hf. unfold lockedAllocate. rewrite bind_run, lockPath_run, Hf. cbn zeta.
  rewrite bind_run. destruct (lockedAllocateLocked _ _ _ _ _) as [res s1].
  by rewrite bind_run.
Qed.

(** The write of the slave key, when the kvstore accepts the call. *)
Lemma createValueNodeKey_success k l newID s0 :
  faultAt 0 (store s0) = None ->
  createValueNodeKey ctx k newID l s0 =
  (None,
   mkState
     (set_localKeys (snd (localkeys.verify k (localKeys (alloc s0)))) (alloc s0))
     (snd (kvstore.UpdateIfDifferentIfLocked (slaveKey (alloc s0) k) (ID_String newID) true l
             (store s0)))
     (picks s0)).
Proof.
  intros Hf. unfold createValueNodeKey, self. rewrite !bind_run. fold (slaveKey (alloc s0) k).
  unfold onStore at 1, kvstore.UpdateIfDifferentIfLocked.
  pose proof (updateIfDifferent_spec
    (kvstore.UpdateIfDifferentIfLockedCall (slaveKey (alloc s0) k) (ID_String newID) true l)
    (slaveKey (alloc s0) k) (ID_String newID) true (store s0)) as (Herr & _).
  destruct (kvstore.updateIfDifferent _ _ _ _ _) as [[changed err] st]. cbn [fst snd] in *.
  rewrite Hf in Herr. subst err. rewrite bind_run. unfold onLocalKeys at 1. st_simpl.
  by destruct (localkeys.verify _ _).
Qed.

(** The write of the slave key, when the kvstore refuses the call. *)
Lemma createValueNodeKey_refused k l newID s0 e :
  faultAt 0 (store s0) = Some e ->
  createValueNodeKey ctx k newID l s0 =
  (Some ("unable to create value-node key '" +:+ slaveKey (alloc s0) k +:+ "': " +:+ e),
   called (kvstore.UpdateIfDifferentIfLockedCall (slaveKey (alloc s0) k) (ID_String newID)
             true l) s0).
Proof.
  intros Hf. unfold createValueNodeKey, self. rewrite !bind_run.
  unfold kvstore.UpdateIfDifferentIfLocked. rewrite updateIfDifferent_run. cbn zeta.
  by rewrite Hf.
Qed.

End OneAttempt.

(** ** A new key gets a new ID *)

Section NewKey.

Context {K : Type} `{AllocatorKey K}.

Variables (ctx : Context) (key : K) (s : State).
Variables (uid : ID) (more : list ID).

Let k := GetKey key.
Let lock := lockName (alloc s) k.
Let prefix := slavePrefix (alloc s) key.
Let id := Z.lor uid (prefixMask (alloc s)).
Let keyPath := masterKey (alloc s) id.
Let valueKey := slaveKey (alloc s) k.

(** The initial list has been received and the context is not done. *)
Hypothesis list_done : initialListDone (alloc s) = true.
Hypothesis ctx_live : ctx (kvstore.now (store s)) = None.

(** The key has no local reference, the cache and the kvstore know no ID
    for it. *)
Hypothesis no_local : localkeys.find k (localKeys (alloc s)) = None.
Hypothesis cache_miss : cache.get k (mainCache (alloc s)) = NoID.
Hypothesis no_slave : scanPairs prefix (listed prefix (store s)) = NoID.

(** The pool leases [uid], whose master key does not exist, and the
    kvstore accepts the lock, the listing and the two writes. *)
Hypothesis lease_uid : idpool.free (idPool (alloc s)) = uid :: more.
Hypothesis uid_valid : uid <> NoID.
Hypothesis master_absent : kvstore.lookup keyPath (kvstore.pairs (store s)) = None.
Hypothesis lock_ok : faultAt 0 (store s) = None.
Hypothesis list_ok : faultAt 1 (store s) = None.
Hypothesis create_ok : faultAt 2 (store s) = None.
Hypothesis slave_ok : faultAt 3 (store s) = None.

Let entry : State :=
  called (kvstore.ListPrefixIfLockedCall prefix lock)
    (called (kvstore.LockPathCall lock) s).

Let leasedPool : idpool.IDPool :=
  idpool.mkIDPool more (uid :: idpool.leased (idPool (alloc s)))
    (idpool.inUse (idPool (alloc s))).

Let reserved : localkeys.localKeys :=
  localKeys (alloc s) ++ [(k, localkeys.mkLocalKey id 1 false)].

Let created : State :=
  wrote keyPath k false (called (kvstore.CreateOnlyIfLockedCall keyPath k false lock) entry).

(** The state in which the attempt ends. *)
Let allocated : State :=
  unlocked lock
    (mkState
       (set_localKeys (localkeys.update k verifiedKey reserved)
          (set_idPool (idpool.Use uid leasedPool) (alloc s)))
       (snd (kvstore.UpdateIfDifferentIfLocked valueKey (ID_String id) true lock
               (store created)))
       (picks s)).

Lemma lockedAllocate_new_key_run :
  lockedAllocate ctx key s = ((id, true, None), allocated).
Proof.
  rewrite lockedAllocate_reaches_newID by done. fold k lock prefix entry.
  unfold allocateNewID at 1, selectAvailableID. rewrite !bind_run.
  unfold onIDPool at 1, idpool.LeaseAvailableID.
  change (alloc entry) with (alloc s). rewrite lease_uid.
  destruct (Z.eqb_spec uid NoID) as [|_]; [done|]. cbn [negb]. fold leasedPool.
  rewrite bind_run. unfold self at 1. st_simpl. fold id.
  unfold mret at 1, M_ret at 1.
  destruct (Z.eqb_spec id 0) as [Hz|_].
  { apply Z.lor_eq_0_iff in Hz as [? _]. done. }
  rewrite bind_run. unfold onLocalKeys at 1. st_simpl.
  unfold localkeys.allocate. rewrite no_local. fold reserved. rewrite Z.eqb_refl. cbn [negb].
  rewrite bind_run. unfold self at 1. st_simpl. fold (masterKey (alloc s) id). fold keyPath.
  unfold kvstore.CreateOnlyIfLocked.
  rewrite bind_run, createOnly_run. cbn zeta. st_simpl.
  change (kvstore.pairs (store entry)) with (kvstore.pairs (store s)).
  change (kvstore.revision (store entry)) with (kvstore.revision (store s)).
  assert (faultAt 0 (store entry) = None) as ->.
  { unfold entry. by rewrite !faultAt_called. }
  rewrite master_absent. st_simpl. rewrite (@is_Some_None_false error). cbn [orb negb].
  rewrite bind_run. unfold onIDPool at 1. rewrite bind_run.
  rewrite createValueNodeKey_success.
  2:{ st_simpl. clear -slave_ok. unfold entry, called, faultAt in *. st_simpl.
      destruct (kvstore.faults (store s)) as [|? [|? [|? ?]]]; done. }
  st_simpl. rewrite (verify_found k reserved (localkeys.mkLocalKey id 1 false))
    by (by apply find_app_fresh).
  unfold mret, M_ret. reflexivity.
Qed.

Lemma allocateAttempts_success_run n boff err value isNew s0 s1 :
  lockedAllocate ctx key s0 = ((value, isNew, None), s1) ->
  allocateAttempts ctx key (S n) boff err s0
  = ((value, isNew, None), cached (GetKey key) value s1).
Proof. intros Hrun. cbn [allocateAttempts]. by rewrite bind_run, Hrun. Qed.

Lemma Allocate_new_key_run :
  Allocate ctx key s = (Some (id, true, None), cached k id allocated).
Proof.
  rewrite Allocate_local_miss by done. unfold maxAllocAttempts.
  by rewrite (allocateAttempts_success_run _ _ _ _ _ _ _ lockedAllocate_new_key_run).
Qed.

(** The master key and the slave key are two keys. *)
Hypothesis paths_differ : keyPath <> valueKey.


End NewKey.


(** ** A key that has an ID in the kvstore keeps it *)

Section ExistingID.

Context {K : Type} `{AllocatorKey K}.

Lemma GetIfLocked_run ctx (key : K) l s0 :
  GetIfLocked ctx key l s0 =
  let c := cache.get (GetKey key) (mainCache (alloc s0)) in
  if negb (c =? NoID) then ((c, None), s0)
  else
    let prefix := slavePrefix (alloc s0) key in
    (match faultAt 0 (store s0) with
     | Some err => (0, Some err)
     | None => (scanPairs prefix (listed prefix (store s0)), None)
     end, called (kvstore.ListPrefixIfLockedCall prefix l) s0).
Proof.
  unfold GetIfLocked, self. rewrite bind_run. cbn zeta.
  destruct (negb (_ =? NoID)); [done|].
  by rewrite GetNoCacheIfLocked_run, nextFault_faultAt.
Qed.

Lemma GetIfLocked_frame ctx (key : K) l s0 :
  alloc (snd (GetIfLocked ctx key l s0)) = alloc s0
  /\ kvstore.pairs (store (snd (GetIfLocked ctx key l s0))) = kvstore.pairs (store s0)
  /\ kvstore.revision (store (snd (GetIfLocked ctx key l s0))) = kvstore.revision (store s0)
  /\ picks (snd (GetIfLocked ctx key l s0)) = picks s0.
Proof. rewrite GetIfLocked_run. cbn zeta. by destruct (negb (_ =? NoID)). Qed.

Variables (ctx : Context) (key : K) (s found : State) (value : ID).

Let k := GetKey key.
Let lock := lockName (alloc s) k.
Let valueKey := slaveKey (alloc s) k.

(** The lock is acquired and [GetIfLocked] answers with an ID, from the
    cache or from the listing of the slave keys. *)
Hypothesis lock_ok : faultAt 0 (store s) = None.
Hypothesis get_value :
  GetIfLocked ctx key lock (called (kvstore.LockPathCall lock) s) = ((value, None), found).
Hypothesis value_valid : value <> NoID.

Let reserved : localkeys.localKeys :=
  snd (localkeys.allocate k value (localKeys (alloc s))).

Lemma found_frame :
  alloc found = alloc s
  /\ kvstore.pairs (store found) = kvstore.pairs (store s)
  /\ kvstore.revision (store found) = kvstore.revision (store s)
  /\ picks found = picks s.
Proof.
  pose proof (GetIfLocked_frame ctx key lock (called (kvstore.LockPathCall lock) s)) as Hfr.
  by rewrite get_value in Hfr.
Qed.

Lemma lockedAllocate_existing_run :
  lockedAllocate ctx key s =
  let call := kvstore.UpdateIfDifferentIfLockedCall valueKey (ID_String value) true lock in
  match faultAt 0 (store found) with
  | None =>
      ((value, false, None),
       unlocked lock
         (mkState (set_localKeys (snd (localkeys.verify k reserved)) (alloc s))
            (snd (kvstore.UpdateIfDifferentIfLocked valueKey (ID_String value) true lock
                    (store found)))
            (picks s)))
  | Some e =>
      ((0, false,
        Some ("unable to create slave key '" +:+ k +:+ "': "
              +:+ "unable to create value-node key '" +:+ valueKey +:+ "': " +:+ e)),
       unlocked lock
         (withLocalKeys (snd (localkeys.release k reserved)) (called call found)))
  end.
Proof.
  destruct found_frame as (Ha & Hp & Hr & Hpk).
  rewrite lockedAllocate_locked by done. cbn zeta. fold k lock.
  unfold lockedAllocateLocked. rewrite bind_run, get_value.
  destruct (Z.eqb_spec value 0) as [|_]; [done|].
  rewrite bind_run. unfold onLocalKeys at 1. rewrite Ha.
  pose proof (allocate_no_error k value (localKeys (alloc s))) as Herr.
  unfold reserved. destruct (localkeys.allocate k value _) as [[old err] lk]. cbn [fst snd] in *.
  subst err. destruct (Z.eqb_spec value 0) as [|_]; [done|]. cbn [negb].
  unfold useExistingID. rewrite bind_run.
  destruct (faultAt 0 (store found)) as [e|] eqn:Hf.
  - rewrite (createValueNodeKey_refused ctx k lock value _ e) by done.
    st_simpl. change (slaveKey (set_localKeys lk (alloc s)) k) with valueKey.
    rewrite bind_run. unfold onLocalKeys at 1. st_simpl.
    destruct (localkeys.release k lk) as [r lk']. unfold mret, M_ret.
    unfold unlocked, onStoreState, withLocalKeys, called. st_simpl. by rewrite Ha, Hpk.
  - rewrite createValueNodeKey_success by done. st_simpl.
    change (slaveKey (set_localKeys lk (alloc s)) k) with valueKey. by rewrite Hpk.
Qed.

Lemma allocate_find k0 v lk :
  localkeys.find k0 (snd (localkeys.allocate k0 v lk))
  = Some (match localkeys.find k0 lk with
          | Some e => localkeys.retain e
          | None => localkeys.mkLocalKey v 1 false
          end).
Proof.
  unfold localkeys.allocate. destruct (localkeys.find k0 lk) as [e|] eqn:Hf; cbn [snd].
  - by apply find_update.
  - by apply find_app_fresh.
Qed.

(** X4: when [GetIfLocked] finds an ID for the key, [lockedAllocate]
    keeps it: the pool and the cache are left alone and no master key is
    written.  When the kvstore accepts the write of the slave key, the
    ID found is returned as not new, whatever the local table held for
    the key; the slave key of the node holds the decimal ID, no other
    key has changed, and the local key is verified with one reference
    more.  When the write is refused, the attempt fails, the store is as
    it was, and the local reference just taken is released. *)
Theorem lockedAllocate_reuses_global_id :
  let s' := snd (lockedAllocate ctx key s) in
  let update := kvstore.UpdateIfDifferentIfLockedCall valueKey (ID_String value) true lock in
  idPool (alloc s') = idPool (alloc s)
  /\ mainCache (alloc s') = mainCache (alloc s)
  /\ kvstore.calls (store s') = [kvstore.UnlockCall lock; update] ++ kvstore.calls (store found)
  /\ (faultAt 0 (store found) = None ->
      fst (lockedAllocate ctx key s) = (value, false, None)
      /\ kvstore.Data <$> kvstore.lookup valueKey (kvstore.pairs (store s'))
         = Some (ID_String value)
      /\ (forall key', key' <> valueKey ->
            kvstore.lookup key' (kvstore.pairs (store s'))
            = kvstore.lookup key' (kvstore.pairs (store s)))
      /\ localkeys.find k (localKeys (alloc s'))
         = Some (match localkeys.find k (localKeys (alloc s)) with
                 | Some e => verifiedKey (localkeys.retain e)
                 | None => localkeys.mkLocalKey value 1 true
                 end))
  /\ (forall e, faultAt 0 (store found) = Some e ->
      fst (lockedAllocate ctx key s)
      = (0, false,
         Some ("unable to create slave key '" +:+ k +:+ "': "
               +:+ "unable to create value-node key '" +:+ valueKey +:+ "': " +:+ e))
      /\ kvstore.pairs (store s') = kvstore.pairs (store s)
      /\ localKeys (alloc s') = snd (localkeys.release k reserved)).
Proof.
  destruct found_frame as (Ha & Hp & Hr & Hpk).
  rewrite lockedAllocate_existing_run. cbn zeta.
  unfold kvstore.UpdateIfDifferentIfLocked.
  pose proof (updateIfDifferent_spec
    (kvstore.UpdateIfDifferentIfLockedCall valueKey (ID_String value) true lock)
    valueKey (ID_String value) true (store found)) as (_ & Hcalls & _ & Hok & _).
  cbn zeta in Hcalls, Hok.
  destruct (faultAt 0 (store found)) as [e|] eqn:Hf; st_simpl.
  - rewrite Ha. split_and!; try done. intros e' [= <-]. by rewrite Hp.
  - destruct (Hok eq_refl) as [Hslave Hother]. rewrite Hcalls.
    split_and!; try done. intros _. split_and!; try done.
    + intros key' Hne. rewrite Hother by done. by rewrite Hp.
    + pose proof (allocate_find k value (localKeys (alloc s))) as Hfind. fold reserved in Hfind.
      rewrite (verify_found _ _ _ Hfind). cbn [snd]. rewrite (find_update _ _ _ _ Hfind).
      by destruct (localkeys.find k (localKeys (alloc s))).
Qed.

End ExistingID.

Lemma lockedAllocate_reuses_global_id_witness :
  fst (lockedAllocate Background "a" (n2State heldByN1 [])) = (1, false, None)
  /\ kvstore.Data <$> kvstore.lookup "cilium/state/identities/v1/value/a/n2"
       (kvstore.pairs (store (snd (lockedAllocate Background "a" (n2State heldByN1 [])))))
     = Some "1".
Proof.
  unshelve epose proof (lockedAllocate_reuses_global_id Background "a" (n2State heldByN1 [])
    (snd (GetIfLocked Background "a" "cilium/state/identities/v1/locks/a"
            (called (kvstore.LockPathCall "cilium/state/identities/v1/locks/a")
               (n2State heldByN1 []))))
    1 _ _ _) as Hreuse;
    [ by_evaluation .. | ].
  destruct Hreuse as (_ & _ & _ & Hok & _).
  specialize (Hok ltac:(vm_compute; reflexivity)). destruct Hok as (Hres & Hslave & _).
  vm_compute in Hres, Hslave. vm_compute. auto.
Defined.

(** ** What has been allocated is found again *)

Lemma faultAt_tl n st st' :
  kvstore.faults st' = List.tl (kvstore.faults st) -> faultAt n st' = faultAt (S n) st.
Proof. unfold faultAt. intros ->. by destruct (kvstore.faults st); destruct n. Qed.

Lemma listed_pairs prefix st st' :
  kvstore.pairs st' = kvstore.pairs st -> listed prefix st' = listed prefix st.
Proof. unfold listed. by intros ->. Qed.

Section Found.

Context {K : Type} `{AllocatorKey K}.

Variables (ctx : Context) (key : K) (s : State).
Variables (uid : ID) (more : list ID).

Let k := GetKey key.
Let lock := lockName (alloc s) k.
Let prefix := slavePrefix (alloc s) key.
Let id := Z.lor uid (prefixMask (alloc s)).
Let keyPath := masterKey (alloc s) id.
Let valueKey := slaveKey (alloc s) k.

(** The initial list has been received and the context is not done. *)
Hypothesis list_done : initialListDone (alloc s) = true.
Hypothesis ctx_live : ctx (kvstore.now (store s)) = None.

(** Nobody holds the key: it has no local reference, the cache knows no
    ID for it, and no slave key listed for it matches and parses. *)
Hypothesis no_local : localkeys.find k (localKeys (alloc s)) = None.
Hypothesis cache_miss : cache.get k (mainCache (alloc s)) = NoID.
Hypothesis no_usable : forall p, In p (listed prefix (store s)) -> usable prefix p = false.

(** The pool leases [uid], whose master key does not exist; the ID and
    the prefix mask are 64-bit numbers. *)
Hypothesis lease_uid : idpool.free (idPool (alloc s)) = uid :: more.
Hypothesis uid_range : 0 < uid <= strconv.maxUint64.
Hypothesis mask_range : 0 <= prefixMask (alloc s) <= strconv.maxUint64.
Hypothesis master_absent : kvstore.lookup keyPath (kvstore.pairs (store s)) = None.

(** The kvstore accepts the lock, the listing and the two writes. *)
Hypothesis lock_ok : faultAt 0 (store s) = None.
Hypothesis list_ok : faultAt 1 (store s) = None.
Hypothesis create_ok : faultAt 2 (store s) = None.
Hypothesis slave_ok : faultAt 3 (store s) = None.

(** The layout of the keys: the node suffix is one plain path segment,
    the prefix of the slave keys of the key is a proper path, and the
    master key does not lie under it. *)
Hypothesis suffix_plain : plainSegment (suffix (alloc s)) = true.
Hypothesis prefix_nonempty : prefix <> "".
Hypothesis prefix_not_dot : prefix <> ".".
Hypothesis prefix_not_root : prefix <> "/".
Hypothesis master_unlisted : gostrings.HasPrefix keyPath prefix = false.

Let s' : State := snd (Allocate ctx key s).

Lemma slaveKey_under_prefix : valueKey = prefix +:+ String "/" (suffix (alloc s)).
Proof.
  unfold valueKey, slaveKey, prefix, slavePrefix. fold k.
  change [valuePrefix (alloc s); k; suffix (alloc s)]
    with ([valuePrefix (alloc s); k] ++ [suffix (alloc s)]).
  by apply Join_snoc.
Qed.

Lemma new_id_parses : strconv.ParseUint (ID_String id) = Some id.
Proof. apply ParseUint_FormatUint. apply lor_uint64; [lia|done]. Qed.

Lemma found_after_Allocate :
  fst (Allocate ctx key s) = Some (id, true, None)
  /\ valuePrefix (alloc s') = valuePrefix (alloc s)
  /\ cache.get k (mainCache (alloc s')) = id
  /\ kvstore.faults (store s') = List.tl (List.tl (List.tl (List.tl (kvstore.faults (store s)))))
  /\ scanPairs prefix (listed prefix (store s')) = id.
Proof.
  assert (Hnone : scanPairs prefix (listed prefix (store s)) = NoID).
  { apply scanPairs_none_usable, Forall_forall. intros p Hin.
    by apply no_usable, list_elem_of_In. }
  assert (Hvalid : uid <> NoID) by (unfold NoID; lia).
  unfold s'.
  rewrite (Allocate_new_key_run ctx key s uid more) by done.
  cbn [fst snd]. unfold cached. st_simpl. fold k lock prefix id keyPath valueKey.
  unfold kvstore.UpdateIfDifferentIfLocked.
  match goal with
  | |- context [kvstore.write keyPath k false ?x] =>
      set (created := kvstore.write keyPath k false x)
  end.
  pose proof (updateIfDifferent_spec
    (kvstore.UpdateIfDifferentIfLockedCall valueKey (ID_String id) true lock)
    valueKey (ID_String id) true created) as (_ & _ & Hfaults & _).
  cbn zeta in Hfaults.
  split; [done|]. split; [done|]. split.
  { unfold cache.get, cache.insert. cbn [cache.cache_keys]. by rewrite lookup_insert_eq. }
  split; [by rewrite Hfaults|].
  unfold listed at 1. cbn [kvstore.pairs].
  change (scanPairs prefix (listed prefix
    (snd (kvstore.updateIfDifferent
            (kvstore.UpdateIfDifferentIfLockedCall valueKey (ID_String id) true lock)
            valueKey (ID_String id) true created))) = id).
  apply scanPairs_updateIfDifferent.
  - intros p Hin. apply no_usable. revert Hin. unfold created, listed.
    st_simpl. by rewrite listed_put_unlisted.
  - rewrite slaveKey_under_prefix. apply HasPrefix_self_app.
  - rewrite slaveKey_under_prefix. apply prefixMatchesKey_app.
    exists (suffix (alloc s)). split; [done|]. by apply plainSegment_spec.
  - apply new_id_parses.
  - unfold created, faultAt in *. st_simpl. clear -slave_ok.
    destruct (kvstore.faults (store s)) as [|? [|? [|? ?]]]; done.
Qed.

Lemma id_valid : id <> NoID.
Proof. unfold id, NoID. intros Hz. apply Z.lor_eq_0_iff in Hz as [? _]. lia. Qed.

(** X3: what [Allocate] has allocated to a new key is found again.
    [Get] answers with the ID from the cache, without a call to the
    kvstore; [GetNoCache] reads it back from the slave key; and any
    other participant on the same value prefix that has not heard of the
    key, whatever its suffix and its pool, is given the same ID by
    [lockedAllocate], as an ID that is not new. *)
Theorem Allocate_new_key_is_found :
  fst (Allocate ctx key s) = Some (id, true, None)
  /\ (forall ctx', Get ctx' key s' = ((id, None), s'))
  /\ (forall ctx', faultAt 4 (store s) = None -> fst (GetNoCache ctx' key s') = (id, None))
  /\ (forall ctx2 (a2 : Allocator) picks2,
        valuePrefix a2 = valuePrefix (alloc s) ->
        cache.get k (mainCache a2) = NoID ->
        faultAt 4 (store s) = None -> faultAt 5 (store s) = None ->
        faultAt 6 (store s) = None ->
        fst (lockedAllocate ctx2 key (mkState a2 (store s') picks2)) = (id, false, None)).
Proof.
  destruct found_after_Allocate as (Hres & Hvp & Hcache & Hfaults & Hscan).
  pose proof id_valid as Hid.
  assert (Hfault : forall n, faultAt n (store s') = faultAt (4 + n) (store s)).
  { intros n. unfold faultAt. rewrite Hfaults.
    by destruct (kvstore.faults (store s)) as [|? [|? [|? [|? ?]]]]; destruct n. }
  split; [done|]. split; [|split].
  - intros ctx'. unfold Get, self. rewrite bind_run. fold k. rewrite Hcache.
    destruct (Z.eqb_spec id NoID); done.
  - intros ctx' Hf. rewrite GetNoCache_run. cbn zeta. cbn [fst].
    rewrite nextFault_faultAt, Hfault. cbn [Nat.add]. rewrite Hf. unfold slavePrefix. rewrite Hvp.
    fold (slavePrefix (alloc s) key). fold prefix. by rewrite Hscan.
  - intros ctx2 a2 picks2 Hvp2 Hmiss Hf4 Hf5 Hf6.
    set (s2 := mkState a2 (store s') picks2).
    set (lock2 := lockName a2 k).
    assert (Hprefix2 : slavePrefix (alloc s2) key = prefix).
    { unfold slavePrefix, prefix. cbn [alloc s2]. by rewrite Hvp2. }
    rewrite (lockedAllocate_existing_run ctx2 key s2
      (called (kvstore.ListPrefixIfLockedCall prefix lock2)
         (called (kvstore.LockPathCall lock2) s2)) id).
    + cbn zeta. rewrite !faultAt_called.
      change (store s2) with (store s'). rewrite Hfault. cbn [Nat.add]. by rewrite Hf6.
    + change (store s2) with (store s'). rewrite Hfault. by cbn [Nat.add].
    + rewrite GetIfLocked_run. cbn zeta. change (alloc (called _ s2)) with a2.
      fold k. rewrite Hmiss. cbn [NoID Z.eqb negb]. rewrite faultAt_called.
      change (store s2) with (store s'). rewrite Hfault. cbn [Nat.add]. rewrite Hf5.
      change (slavePrefix a2 key) with (slavePrefix (alloc s2) key). rewrite Hprefix2.
      change (listed prefix (store (called _ s2))) with (listed prefix (store s')).
      by rewrite Hscan.
    + done.
Qed.

End Found.

Lemma Allocate_new_key_is_found_witness :
  fst (GetNoCache Background "a" (snd (Allocate Background "a" (n1State [] [])))) = (1, None)
  /\ fst (lockedAllocate Background "a"
            (mkState n2Allocator (store (snd (Allocate Background "a" (n1State [] [])))) []))
     = (1, false, None).
Proof.
  unshelve epose proof (Allocate_new_key_is_found Background "a" (n1State [] []) 1 [2; 3]
    _ _ _ _ _ _ _ _ _ _ _ _ _ _ _ _ _ _) as Hfound;
    [ by_evaluation .. | ].
  - intros p Hin. vm_compute in Hin. destruct Hin.
  - vm_compute. split; [reflexivity|discriminate].
  - vm_compute. split; discriminate.
  - destruct Hfound as (_ & _ & Hget & Hother).
    specialize (Hget Background ltac:(vm_compute; reflexivity)).
    specialize (Hother Background n2Allocator []
      ltac:(vm_compute; reflexivity) ltac:(vm_compute; reflexivity)
      ltac:(vm_compute; reflexivity) ltac:(vm_compute; reflexivity)
      ltac:(vm_compute; reflexivity)).
    vm_compute in Hget, Hother. vm_compute. auto.
Defined.

(** ** A key held locally that the kvstore has lost *)

Section LostKey.

Context {K : Type} `{AllocatorKey K}.

Variables (ctx : Context) (key : K) (s found : State) (held : localkeys.localKey).

Let k := GetKey key.
Let lock := lockName (alloc s) k.
Let value := localkeys.val held.
Let keyPath := masterKey (alloc s) value.
Let valueKey := slaveKey (alloc s) k.
Let create := kvstore.CreateOnlyIfLockedCall keyPath k false lock.
Let update := kvstore.UpdateIfDifferentIfLockedCall valueKey (ID_String value) true lock.

(** The lock is acquired, [GetIfLocked] finds no ID for the key, and the
    local table holds the key with an ID. *)
Hypothesis lock_ok : faultAt 0 (store s) = None.
Hypothesis get_none :
  GetIfLocked ctx key lock (called (kvstore.LockPathCall lock) s) = ((NoID, None), found).
Hypothesis local_held : localkeys.find k (localKeys (alloc s)) = Some held.
Hypothesis value_valid : value <> NoID.

Lemma lost_frame :
  alloc found = alloc s
  /\ kvstore.pairs (store found) = kvstore.pairs (store s)
  /\ kvstore.revision (store found) = kvstore.revision (store s)
  /\ picks found = picks s.
Proof.
  pose proof (GetIfLocked_frame ctx key lock (called (kvstore.LockPathCall lock) s)) as Hfr.
  by rewrite get_none in Hfr.
Qed.

Lemma lockedAllocate_lost_key_run :
  lockedAllocate ctx key s =
  let refused err :=
    (0, false, Some ("unable to create master key '" +:+ keyPath +:+ "': " +:+ fmtErr err)) in
  match faultAt 0 (store found) with
  | Some err => (refused (Some err), unlocked lock (called create found))
  | None =>
      match kvstore.lookup keyPath (kvstore.pairs (store s)) with
      | Some _ => (refused None, unlocked lock (called create found))
      | None =>
          let created := wrote keyPath k false (called create found) in
          match faultAt 1 (store found) with
          | None =>
              ((value, false, None),
               unlocked lock
                 (mkState
                    (set_localKeys (localkeys.update k verifiedKey (localKeys (alloc s)))
                       (alloc s))
                    (snd (kvstore.UpdateIfDifferentIfLocked valueKey (ID_String value) true
                            lock (store created)))
                    (picks s)))
          | Some e =>
              ((0, false,
                Some ("unable to create slave key '" +:+ k +:+ "': "
                      +:+ "unable to create value-node key '" +:+ valueKey +:+ "': " +:+ e)),
               unlocked lock
                 (withLocalKeys (snd (localkeys.release k (localKeys (alloc s))))
                    (called update created)))
          end
      end
  end.
Proof.
  destruct lost_frame as (Ha & Hp & Hr & Hpk).
  rewrite lockedAllocate_locked by done. cbn zeta. fold k lock.
  unfold lockedAllocateLocked. rewrite bind_run, get_none. cbn [NoID Z.eqb].
  rewrite bind_run. unfold self at 1. rewrite Ha. unfold localkeys.lookupKey.
  rewrite local_held. fold value.
  destruct (Z.eqb_spec value 0) as [|_]; [done|]. cbn [negb].
  change (gopath.Join [idPrefix (alloc s); strconv.FormatUint value]) with keyPath.
  unfold kvstore.CreateOnlyIfLocked. rewrite bind_run, createOnly_run. cbn zeta.
  fold create. rewrite Hp.
  destruct (faultAt 0 (store found)) as [err|] eqn:Hf0.
  { rewrite bool_decide_eq_true_2 by eauto. cbn [orb]. done. }
  destruct (kvstore.lookup keyPath (kvstore.pairs (store s))) as [v|] eqn:Hl.
  { rewrite (@is_Some_None_false error). cbn [orb negb]. done. }
  rewrite (@is_Some_None_false error). cbn [orb negb].
  destruct (Z.eqb_spec value 0) as [|_]; [done|]. cbn [negb].
  unfold useExistingID. rewrite bind_run.
  assert (Hf1 : faultAt 0 (store (wrote keyPath k false (called create found)))
                = faultAt 1 (store found)).
  { unfold wrote, onStoreState, called, faultAt. st_simpl.
    by destruct (kvstore.faults (store found)). }
  destruct (faultAt 1 (store found)) as [e|] eqn:Hf.
  - rewrite (createValueNodeKey_refused ctx k lock value _ e) by done.
    st_simpl. rewrite Ha. change (slaveKey (alloc s) k) with valueKey. fold update.
    rewrite bind_run. unfold onLocalKeys at 1. st_simpl. rewrite Ha.
    destruct (localkeys.release k _) as [r lk']. unfold mret, M_ret.
    unfold unlocked, onStoreState, withLocalKeys, called. st_simpl. by rewrite Ha, Hpk.
  - rewrite createValueNodeKey_success by done. st_simpl. rewrite Ha, Hpk.
    change (slaveKey (alloc s) k) with valueKey.
    by rewrite (verify_found _ _ _ local_held).
Qed.

(** X5: when the cache and the kvstore know no ID for a key that the
    local table holds, [lockedAllocate] re-creates the master key of the
    local ID with [CreateOnlyIfLocked] and leaves the pool alone.  A
    refused call, and equally a master key that is still there, fail
    the attempt with "unable to create master key", the latter with the
    nil error printed in the message; store and local table are as they
    were.  Once the master key is created, an accepted write of the slave
    key returns the local ID as not new, and the local key is verified
    with the reference count it had; a refused write fails the attempt,
    leaves the master key behind and releases one local reference. *)
Theorem lockedAllocate_recreates_master_key :
  let s' := snd (lockedAllocate ctx key s) in
  let result := fst (lockedAllocate ctx key s) in
  let master := Some (kvstore.mkValue k (kvstore.revision (store s) + 1) false) in
  idPool (alloc s') = idPool (alloc s)
  /\ (forall err, faultAt 0 (store found) = Some err ->
        result = (0, false,
                  Some ("unable to create master key '" +:+ keyPath +:+ "': " +:+ err))
        /\ kvstore.pairs (store s') = kvstore.pairs (store s)
        /\ localKeys (alloc s') = localKeys (alloc s))
  /\ (forall v, faultAt 0 (store found) = None ->
        kvstore.lookup keyPath (kvstore.pairs (store s)) = Some v ->
        result = (0, false,
                  Some ("unable to create master key '" +:+ keyPath +:+ "': %!s(<nil>)"))
        /\ kvstore.calls (store s')
           = [kvstore.UnlockCall lock; create] ++ kvstore.calls (store found)
        /\ kvstore.pairs (store s') = kvstore.pairs (store s)
        /\ localKeys (alloc s') = localKeys (alloc s))
  /\ (faultAt 0 (store found) = None ->
      kvstore.lookup keyPath (kvstore.pairs (store s)) = None ->
      faultAt 1 (store found) = None ->
      keyPath <> valueKey ->
      result = (value, false, None)
      /\ kvstore.calls (store s')
         = [kvstore.UnlockCall lock; update; create] ++ kvstore.calls (store found)
      /\ kvstore.lookup keyPath (kvstore.pairs (store s')) = master
      /\ kvstore.Data <$> kvstore.lookup valueKey (kvstore.pairs (store s'))
         = Some (ID_String value)
      /\ localkeys.find k (localKeys (alloc s')) = Some (verifiedKey held))
  /\ (forall e, faultAt 0 (store found) = None ->
        kvstore.lookup keyPath (kvstore.pairs (store s)) = None ->
        faultAt 1 (store found) = Some e ->
        result = (0, false,
                  Some ("unable to create slave key '" +:+ k +:+ "': "
                        +:+ "unable to create value-node key '" +:+ valueKey +:+ "': " +:+ e))
        /\ kvstore.lookup keyPath (kvstore.pairs (store s')) = master
        /\ localKeys (alloc s') = snd (localkeys.release k (localKeys (alloc s)))).
Proof.
  destruct lost_frame as (Ha & Hp & Hr & Hpk).
  rewrite lockedAllocate_lost_key_run. cbn zeta.
  split_and!.
  - repeat (match goal with |- context [match ?x with _ => _ end] => destruct x end);
      st_simpl; by rewrite ?Ha.
  - intros err ->. st_simpl. by rewrite Ha, Hp.
  - intros v -> ->. st_simpl. by rewrite Ha, Hp.
  - intros -> -> Hf1 Hne. rewrite Hf1. st_simpl.
    unfold kvstore.UpdateIfDifferentIfLocked.
    pose proof (updateIfDifferent_spec update valueKey (ID_String value) true
      (store (wrote keyPath k false (called create found)))) as (_ & Hcalls & _ & Hok & _).
    cbn zeta in Hcalls, Hok. destruct Hok as [Hslave Hother].
    { revert Hf1. unfold wrote, onStoreState, called, faultAt. st_simpl.
      by destruct (kvstore.faults (store found)). }
    st_simpl_in Hcalls. st_simpl_in Hslave. st_simpl_in Hother.
    fold update. rewrite Hcalls. split_and!; try done.
    + rewrite Hother by done. rewrite Hp, Hr. apply lookup_put.
    + by apply find_update.
  - intros e -> -> ->. st_simpl. split_and!; try done.
    rewrite Hp, Hr. apply lookup_put.
Qed.

End LostKey.

Lemma lockedAllocate_recreates_master_key_witness :
  fst (lockedAllocate Background "a" (n1Holding [] [])) = (1, false, None)
  /\ kvstore.lookup "cilium/state/identities/v1/id/1"
       (kvstore.pairs (store (snd (lockedAllocate Background "a" (n1Holding [] [])))))
     = Some (kvstore.mkValue "a" 101 false).
Proof.
  unshelve epose proof (lockedAllocate_recreates_master_key Background "a" (n1Holding [] [])
    (snd (GetIfLocked Background "a" "cilium/state/identities/v1/locks/a"
            (called (kvstore.LockPathCall "cilium/state/identities/v1/locks/a")
               (n1Holding [] []))))
    (localkeys.mkLocalKey 1 1 true) _ _ _ _) as Hlost;
    [ by_evaluation .. | ].
  destruct Hlost as (_ & _ & _ & Hok & _).
  specialize (Hok ltac:(vm_compute; reflexivity) ltac:(vm_compute; reflexivity)
    ltac:(vm_compute; reflexivity) ltac:(vm_compute; discriminate)).
  destruct Hok as (Hres & _ & Hmaster & _).
  vm_compute in Hres, Hmaster. vm_compute. auto.
Defined.

(** ** The master key of the leased ID cannot be created *)

Lemma drop_app_fresh k lk e :
  localkeys.find k lk = None -> localkeys.drop k (lk ++ [(k, e)]) = lk.
Proof.
  unfold localkeys.find, localkeys.drop. induction lk as [|[k0 e0] lk IH]; cbn.
  - by rewrite String.eqb_refl.
  - destruct (String.eqb_spec k0 k) as [->|Hk]; cbn; [done|]. intros Hf. by rewrite IH.
Qed.

Lemma memID_removeID id l : memID id (removeID id l) = false.
Proof.
  unfold memID, removeID. induction l as [|x l IH]; [done|]. cbn.
  destruct (Z.eqb_spec x id); cbn; [done|]. by destruct (Z.eqb_spec x id).
Qed.

Section MasterKeyTaken.

Context {K : Type} `{AllocatorKey K}.

Variables (ctx : Context) (key : K) (s : State).
Variables (uid : ID) (more : list ID).

Let k := GetKey key.
Let lock := lockName (alloc s) k.
Let prefix := slavePrefix (alloc s) key.
Let id := Z.lor uid (prefixMask (alloc s)).
Let keyPath := masterKey (alloc s) id.
Let create := kvstore.CreateOnlyIfLockedCall keyPath k false lock.

(** The lock is acquired, nobody holds the key, and the pool leases
    [uid]. *)
Hypothesis lock_ok : faultAt 0 (store s) = None.
Hypothesis cache_miss : cache.get k (mainCache (alloc s)) = NoID.
Hypothesis list_ok : faultAt 1 (store s) = None.
Hypothesis no_slave : scanPairs prefix (listed prefix (store s)) = NoID.
Hypothesis no_local : localkeys.find k (localKeys (alloc s)) = None.
Hypothesis lease_uid : idpool.free (idPool (alloc s)) = uid :: more.
Hypothesis uid_valid : uid <> NoID.

Let entry : State :=
  called (kvstore.ListPrefixIfLockedCall prefix lock)
    (called (kvstore.LockPathCall lock) s).

Let leasedPool : idpool.IDPool :=
  idpool.mkIDPool more (uid :: idpool.leased (idPool (alloc s)))
    (idpool.inUse (idPool (alloc s))).

Lemma lockedAllocate_master_refused_run :
  (is_Some (faultAt 2 (store s))
   \/ is_Some (kvstore.lookup keyPath (kvstore.pairs (store s)))) ->
  lockedAllocate ctx key s =
  ((0, false,
    Some ("unable to create master key '" +:+ keyPath +:+ "': "
          +:+ fmtErr (faultAt 2 (store s)))),
   unlocked lock
     (withPool (idpool.Release uid leasedPool)
        (withLocalKeys (localKeys (alloc s)) (called create entry)))).
Proof.
  intros Hrefused.
  rewrite lockedAllocate_reaches_newID by done. fold k lock prefix entry.
  unfold allocateNewID at 1, selectAvailableID. rewrite !bind_run.
  unfold onIDPool at 1, idpool.LeaseAvailableID.
  change (alloc entry) with (alloc s). rewrite lease_uid.
  destruct (Z.eqb_spec uid NoID) as [|_]; [done|]. cbn [negb]. fold leasedPool.
  rewrite bind_run. unfold self at 1. st_simpl. fold id.
  unfold mret at 1, M_ret at 1.
  destruct (Z.eqb_spec id 0) as [Hz|_].
  { apply Z.lor_eq_0_iff in Hz as [? _]. done. }
  rewrite bind_run. unfold onLocalKeys at 1. st_simpl.
  unfold localkeys.allocate. rewrite no_local. rewrite Z.eqb_refl. cbn [negb].
  rewrite bind_run. unfold self at 1. st_simpl. fold (masterKey (alloc s) id). fold keyPath.
  unfold kvstore.CreateOnlyIfLocked.
  rewrite bind_run, createOnly_run. cbn zeta. st_simpl. fold create.
  change (kvstore.pairs (store entry)) with (kvstore.pairs (store s)).
  assert (faultAt 0 (store entry) = faultAt 2 (store s)) as ->.
  { unfold entry. by rewrite !faultAt_called. }
  assert (Hrelease : forall s0 : State,
    localKeys (alloc s0) = localKeys (alloc s) ++ [(k, localkeys.mkLocalKey id 1 false)] ->
    idPool (alloc s0) = leasedPool ->
    releaseKeyAndID k uid s0
    = (tt, withPool (idpool.Release uid leasedPool) (withLocalKeys (localKeys (alloc s)) s0))).
  { intros s0 Hlk Hpool. unfold releaseKeyAndID. rewrite bind_run.
    unfold onLocalKeys at 1. rewrite Hlk. unfold localkeys.release.
    rewrite (find_app_fresh k _ _ no_local). cbn [localkeys.refcnt].
    change (1 - 1 =? 0) with true. rewrite drop_app_fresh by done.
    unfold onIDPool. st_simpl. by rewrite Hpool. }
  destruct (faultAt 2 (store s)) as [err|] eqn:Hf.
  - rewrite bool_decide_eq_true_2 by eauto. cbn [orb].
    rewrite bind_run, Hrelease by done. done.
  - destruct Hrefused as [[? [=]]|[v Hv]]. rewrite Hv.
    rewrite (@is_Some_None_false error). cbn [orb negb].
    rewrite bind_run, Hrelease by done. done.
Qed.

(** X6: when the master key of the leased ID cannot be created, because
    [CreateOnlyIfLocked] is refused or because the key is there already,
    the attempt fails with "unable to create master key" (with the nil
    error printed in the message in the second case) and does not go on
    to the slave key: the store holds what it held, the key has no local
    reference, and the unmasked ID is free again in the pool. *)
Theorem lockedAllocate_master_key_taken :
  (is_Some (faultAt 2 (store s))
   \/ is_Some (kvstore.lookup keyPath (kvstore.pairs (store s)))) ->
  let s' := snd (lockedAllocate ctx key s) in
  fst (lockedAllocate ctx key s)
  = (0, false,
     Some ("unable to create master key '" +:+ keyPath +:+ "': "
           +:+ match faultAt 2 (store s) with Some err => err | None => "%!s(<nil>)" end))
  /\ kvstore.calls (store s')
     = [kvstore.UnlockCall lock; create; kvstore.ListPrefixIfLockedCall prefix lock;
        kvstore.LockPathCall lock] ++ kvstore.calls (store s)
  /\ kvstore.pairs (store s') = kvstore.pairs (store s)
  /\ localKeys (alloc s') = localKeys (alloc s)
  /\ idpool.free (idPool (alloc s')) = uid :: more
  /\ memID uid (idpool.leased (idPool (alloc s'))) = false
  /\ mainCache (alloc s') = mainCache (alloc s).
Proof.
  intros Hrefused. rewrite lockedAllocate_master_refused_run by done. cbn zeta. st_simpl.
  unfold idpool.Release, leasedPool. cbn [idpool.leased memID existsb].
  rewrite Z.eqb_refl. cbn [orb idpool.free idpool.leased].
  split_and!; try done. apply memID_removeID.
Qed.

End MasterKeyTaken.

Lemma lockedAllocate_master_key_taken_witness :
  fst (lockedAllocate Background "b"
         (n1State [("cilium/state/identities/v1/id/1", kvstore.mkValue "a" 7 false)] []))
  = (0, false,
     Some "unable to create master key 'cilium/state/identities/v1/id/1': %!s(<nil>)").
Proof.
  unshelve epose proof (lockedAllocate_master_key_taken Background "b"
    (n1State [("cilium/state/identities/v1/id/1", kvstore.mkValue "a" 7 false)] [])
    1 [2; 3] _ _ _ _ _ _ _ _) as Htaken;
    [ by_evaluation .. | ].
  - right. vm_compute. eauto.
  - destruct Htaken as (Hres & _). vm_compute in Hres. vm_compute. exact Hres.
Defined.

(** ** What Release leaves alone *)

Section ReleaseFrame.

Context {K : Type} `{AllocatorKey K}.

(** X7: [Release] never touches the ID pool or the cache, and in the
    kvstore no key but the slave key of its own node: the master key
    stays, for the garbage collector.  It makes at most one call to the
    kvstore, the [Delete] of that slave key, and only when it returns
    [(true, nil)]; whenever [localKeys.release] answers anything else
    than a last use, the store is as it was and the answer is passed
    on. *)
Theorem Release_touches_only_own_slave_key (ctx : Context) (key : K) (s : State) :
  let s' := snd (Release ctx key s) in
  let k := GetKey key in
  let valueKey := slaveKey (alloc s) k in
  idPool (alloc s') = idPool (alloc s)
  /\ mainCache (alloc s') = mainCache (alloc s)
  /\ (forall key', key' <> valueKey ->
        kvstore.lookup key' (kvstore.pairs (store s'))
        = kvstore.lookup key' (kvstore.pairs (store s)))
  /\ (kvstore.calls (store s') = kvstore.calls (store s)
      \/ (kvstore.calls (store s') = kvstore.DeleteCall valueKey :: kvstore.calls (store s)
          /\ fst (Release ctx key s) = Some (true, None)))
  /\ (fst (selectInitialListDone ctx s) = InitialListDone ->
      fst (localkeys.release k (localKeys (alloc s))) <> (true, None) ->
      store s' = store s
      /\ fst (Release ctx key s) = Some (fst (localkeys.release k (localKeys (alloc s))))).
Proof.
  cbn zeta. remember (Release ctx key s) as r eqn:Hr.
  unfold Release in Hr. rewrite bind_run in Hr.
  destruct (selectInitialListDone_state ctx s) as [Ha Hs].
  destruct (selectInitialListDone ctx s) as [sel s0]. cbn [fst snd] in *.
  destruct sel as [|err|].
  2,3: unfold mret, M_ret in Hr; subst r; cbn [fst snd]; rewrite ?Ha, ?Hs;
    split_and!; try done; by left.
  rewrite bind_run in Hr. unfold onLocalKeys at 1 in Hr. rewrite Ha in Hr.
  destruct (localkeys.release (GetKey key) (localKeys (alloc s))) as [[lastUse err] lk].
  destruct err as [err|].
  { unfold mret, M_ret in Hr. subst r. cbn [fst snd]. st_simpl. rewrite ?Ha, ?Hs.
    split_and!; try done; by left. }
  destruct lastUse.
  2:{ unfold mret, M_ret in Hr. subst r. cbn [fst snd]. st_simpl. rewrite ?Ha, ?Hs.
      split_and!; try done; by left. }
  rewrite bind_run in Hr. unfold self at 1 in Hr. st_simpl_in Hr. rewrite ?Ha in Hr.
  fold (slaveKey (alloc s) (GetKey key)) in Hr.
  unfold kvstore.Delete in Hr. rewrite bind_run, delete_run in Hr. st_simpl_in Hr.
  rewrite ?Hs in Hr.
  destruct (faultAt 0 (store s)); unfold mret, M_ret in Hr; subst r; cbn [fst snd];
    st_simpl; rewrite ?Ha, ?Hs.
  - split_and!; try done. by right.
  - split_and!; try done.
    + intros key' Hne. by apply lookup_remove_ne.
    + by right.
Qed.

End ReleaseFrame.

(** ** What the garbage collector removes and what it returns *)

Section GCSafety.

Variable prev : gmap string Z.

Lemma runGCIteration_pairs key v stale s :
  let s1 := snd (runGCIteration prev key v stale s) in
  kvstore.pairs (store s1) = kvstore.pairs (store s)
  \/ (kvstore.pairs (store s1) = kvstore.remove key (kvstore.pairs (store s))
      /\ prev !! key = Some (kvstore.ModRevision v)).
Proof.
  rewrite runGCIteration_run. cbn zeta.
  destruct (faultAt 0 (store s)); [by left|].
  destruct (faultAt 1 (store s)); [by left|].
  destruct (hasUsers _ _); [by left|].
  destruct (decide (prev !! key = Some (kvstore.ModRevision v))) as [Hp|Hp].
  - rewrite bool_decide_eq_true_2 by done.
    destruct (faultAt 2 (store s)); [by left|]. by right.
  - rewrite bool_decide_eq_false_2 by done. by left.
Qed.

Lemma runGCIteration_stale key v stale s k rev :
  fst (runGCIteration prev key v stale s) !! k = Some rev ->
  stale !! k = Some rev
  \/ (k = key /\ rev = kvstore.ModRevision v /\ prev !! key <> Some rev).
Proof.
  rewrite runGCIteration_run. cbn zeta.
  destruct (faultAt 0 (store s)); [by left|].
  destruct (faultAt 1 (store s)); [by left|].
  destruct (hasUsers _ _); [by left|].
  destruct (decide (prev !! key = Some (kvstore.ModRevision v))) as [Hp|Hp].
  - rewrite bool_decide_eq_true_2 by done. by left.
  - rewrite bool_decide_eq_false_2 by done. cbn [fst].
    destruct (decide (k = key)) as [->|Hne].
    + rewrite lookup_insert_eq. intros [= <-]. by right.
    + rewrite lookup_insert_ne by done. by left.
Qed.

(** The records a loop of the collector may remove: those it visits and
    that the previous round recorded with the revision they carry. *)
Let removable (l : kvstore.KeyValuePairs) (key : string) : Prop :=
  exists v, In (key, v) l /\ prev !! key = Some (kvstore.ModRevision v).

Lemma runGCLoop_pairs l stale s :
  exists removed,
    kvstore.pairs (store (snd (runGCLoop prev l stale s)))
    = fold_left (fun kvs key => kvstore.remove key kvs) removed (kvstore.pairs (store s))
    /\ Forall (removable l) removed.
Proof.
  revert stale s. induction l as [|[key v] l IH]; intros stale s.
  - by exists [].
  - cbn [runGCLoop]. rewrite bind_run.
    pose proof (runGCIteration_pairs key v stale s) as Hstep. cbn zeta in Hstep.
    destruct (runGCIteration prev key v stale s) as [stale1 s1]. cbn [snd] in Hstep.
    destruct (IH stale1 s1) as (removed & Hpairs & Hall).
    assert (Hmono : Forall (removable ((key, v) :: l)) removed).
    { eapply Forall_impl; [exact Hall|]. intros k0 (v0 & Hin & Hp). exists v0.
      split; [by right|done]. }
    destruct Hstep as [Hsame|[Hrem Hp]].
    + exists removed. by rewrite Hpairs, Hsame.
    + exists (key :: removed). split; [by rewrite Hpairs, Hrem|].
      constructor; [|done]. exists v. split; [by left|done].
Qed.

Lemma runGCLoop_stale l stale s k rev :
  fst (runGCLoop prev l stale s) !! k = Some rev ->
  stale !! k = Some rev
  \/ exists v, In (k, v) l /\ rev = kvstore.ModRevision v /\ prev !! k <> Some rev.
Proof.
  revert stale s. induction l as [|[key v] l IH]; intros stale s; [by left|].
  cbn [runGCLoop]. rewrite bind_run.
  pose proof (runGCIteration_stale key v stale s k rev) as Hstep.
  destruct (runGCIteration prev key v stale s) as [stale1 s1]. cbn [fst] in Hstep.
  intros Hk. destruct (IH _ _ Hk) as [Hs1|(v0 & Hin & Hv & Hp)].
  - destruct (Hstep Hs1) as [?|(-> & -> & Hp)]; [by left|].
    right. exists v. split; [by left|done].
  - right. exists v0. split; [by right|done].
Qed.

Lemma In_fold_remove removed kvs (p : string * kvstore.Value) :
  In p (fold_left (fun kvs key => kvstore.remove key kvs) removed kvs)
  <-> In p kvs /\ ~ In (fst p) removed.
Proof.
  revert kvs. induction removed as [|key removed IH]; intros kvs; cbn [fold_left].
  - cbn. tauto.
  - rewrite IH. unfold kvstore.remove. rewrite filter_In, negb_true_iff. cbn [In].
    destruct (String.eqb_spec (fst p) key) as [->|Hne]; intuition congruence.
Qed.

(** X8: [RunGC] only ever removes records: the store after it holds no
    pair that it did not hold before, and a pair that is gone was listed
    under the ID prefix and recorded by the previous round with the
    revision a master record of that key carries.  With an empty map
    from the previous round nothing is removed.  When the listing of the
    master keys fails, [RunGC] returns "list failed" with no map, having
    made that one call. *)
Theorem RunGC_only_removes_stale_masters (s : State) :
  let s' := snd (RunGC prev s) in
  let masters := listed (idPrefix (alloc s)) (store s) in
  (forall p, In p (kvstore.pairs (store s')) -> In p (kvstore.pairs (store s)))
  /\ (forall p, In p (kvstore.pairs (store s)) -> ~ In p (kvstore.pairs (store s')) ->
        exists v, In (fst p, v) masters
                  /\ gostrings.HasPrefix (fst p) (idPrefix (alloc s)) = true
                  /\ prev !! fst p = Some (kvstore.ModRevision v))
  /\ (prev = ∅ -> kvstore.pairs (store s') = kvstore.pairs (store s))
  /\ alloc s' = alloc s
  /\ (forall err, faultAt 0 (store s) = Some err ->
        RunGC prev s
        = ((∅, Some ("list failed: " +:+ err)),
           called (kvstore.ListPrefixCall (idPrefix (alloc s))) s)).
Proof.
  cbn zeta. rewrite RunGC_run. cbn zeta.
  destruct (faultAt 0 (store s)) as [err|] eqn:Hf.
  { cbn [fst snd]. split_and!; try done. intros err' [= <-]. done. }
  set (start := called (kvstore.ListPrefixCall (idPrefix (alloc s))) s).
  destruct (runGCLoop_pairs (listed (idPrefix (alloc s)) (store s)) ∅ start)
    as (removed & Hpairs & Hall).
  pose proof (runGCLoop_alloc prev (listed (idPrefix (alloc s)) (store s)) ∅ start) as Ha.
  destruct (runGCLoop prev _ ∅ start) as [staleKeys s1]. cbn [fst snd] in *.
  change (kvstore.pairs (store start)) with (kvstore.pairs (store s)) in Hpairs.
  rewrite Hpairs. split_and!; try done.
  - intros p Hin. by apply In_fold_remove in Hin as [? _].
  - intros p Hin Hgone.
    assert (Hrem : In (fst p) removed).
    { destruct (in_dec string_dec (fst p) removed) as [|Hnot]; [done|].
      exfalso. apply Hgone. apply In_fold_remove. by split. }
    rewrite Forall_forall in Hall. apply list_elem_of_In in Hrem.
    destruct (Hall _ Hrem) as (v & Hv & Hp). exists v. split; [done|]. split; [|done].
    unfold listed in Hv. by apply filter_In in Hv as [_ ?].
  - intros ->. destruct removed as [|key removed]; [done|].
    apply Forall_cons in Hall as [(v & _ & Hp) _]. by rewrite lookup_empty in Hp.
Qed.

(** X9: the map [RunGC] returns holds nothing but master records it has
    listed: every entry maps the key of a listed record to the revision
    of that record, and the previous round had not recorded the key with
    that revision. *)
Theorem RunGC_returns_listed_masters (s : State) (key : string) (rev : Z) :
  fst (fst (RunGC prev s)) !! key = Some rev ->
  exists v, In (key, v) (listed (idPrefix (alloc s)) (store s))
            /\ In (key, v) (kvstore.pairs (store s))
            /\ gostrings.HasPrefix key (idPrefix (alloc s)) = true
            /\ kvstore.ModRevision v = rev
            /\ prev !! key <> Some rev.
Proof.
  rewrite RunGC_run. cbn zeta.
  destruct (faultAt 0 (store s)) as [err|].
  { cbn [fst]. intros Hk. by rewrite lookup_empty in Hk. }
  set (start := called (kvstore.ListPrefixCall (idPrefix (alloc s))) s).
  pose proof (runGCLoop_stale (listed (idPrefix (alloc s)) (store s)) ∅ start key rev)
    as Hstale.
  destruct (runGCLoop prev _ ∅ start) as [staleKeys s1]. cbn [fst] in *.
  intros Hk. destruct (Hstale Hk) as [Hempty|(v & Hin & -> & Hp)].
  { by rewrite lookup_empty in Hempty. }
  exists v. split; [done|]. unfold listed in Hin. apply filter_In in Hin as [Hin Hpre].
  done.
Qed.

End GCSafety.

Lemma RunGC_returns_listed_masters_witness :
  exists v, In (masterOne, v) (kvstore.pairs (store (unusedMaster [])))
            /\ kvstore.ModRevision v = 5.
Proof.
  unshelve epose proof (RunGC_returns_listed_masters ∅ (unusedMaster []) masterOne 5 _)
    as Hret; [ by_evaluation | ].
  destruct Hret as (v & _ & Hin & _ & Hrev & _). exists v. split; [exact Hin|exact Hrev].
Defined.

(** ** The lock is held from the first call to the last *)

Section LockDiscipline.

Context {K : Type} `{AllocatorKey K}.

Variable P : kvstore.Call -> bool.

Lemma emits_ret {A} (x : A) : emits P (mret x).
Proof. intros s. by exists []. Qed.

Lemma emits_bind {A B} (m : M A) (f : A -> M B) :
  emits P m -> (forall x, emits P (f x)) -> emits P (m ≫= f).
Proof.
  intros Hm Hf s. rewrite bind_run. destruct (Hm s) as (mid1 & Hc1 & Hp1).
  destruct (m s) as [x s1]. cbn [snd] in Hc1.
  destruct (Hf x s1) as (mid2 & Hc2 & Hp2). exists (mid2 ++ mid1).
  rewrite Hc2, Hc1, app_assoc. split; [done|]. rewrite forallb_app. by rewrite Hp1, Hp2.
Qed.

Lemma emits_self : emits P self.
Proof. intros s. by exists []. Qed.

Lemma emits_onLocalKeys {A} (op : localkeys.localKeys -> A * localkeys.localKeys) :
  emits P (onLocalKeys op).
Proof. intros s. exists []. unfold onLocalKeys. by destruct (op _). Qed.

Lemma emits_onIDPool {A} (op : idpool.IDPool -> A * idpool.IDPool) : emits P (onIDPool op).
Proof. intros s. exists []. unfold onIDPool. by destruct (op _). Qed.

Lemma emits_onStore {A} (op : kvstore.Store -> A * kvstore.Store) c :
  P c = true ->
  (forall st, kvstore.calls (snd (op st)) = c :: kvstore.calls st) ->
  emits P (onStore op).
Proof.
  intros Hc Hop s. exists [c]. unfold onStore. specialize (Hop (store s)).
  destruct (op _) as [x st]. cbn [snd store] in *. rewrite Hop. cbn. by rewrite Hc.
Qed.

Lemma calls_createOnly c key value lease st :
  kvstore.calls (snd (kvstore.createOnly c key value lease st)) = c :: kvstore.calls st.
Proof.
  unfold kvstore.createOnly, kvstore.enter.
  destruct (hd None _); [done|]. by destruct (kvstore.lookup _ _).
Qed.

Lemma calls_updateIfDifferent c key value lease st :
  kvstore.calls (snd (kvstore.updateIfDifferent c key value lease st)) = c :: kvstore.calls st.
Proof. by destruct (updateIfDifferent_spec c key value lease st) as (_ & ? & _). Qed.

Lemma calls_listPrefix c prefix st :
  kvstore.calls (snd (kvstore.listPrefix c prefix st)) = c :: kvstore.calls st.
Proof. unfold kvstore.listPrefix, kvstore.enter. by destruct (hd None _). Qed.

End LockDiscipline.

Section LockedCalls.

Context {K : Type} `{AllocatorKey K}.

Variables (ctx : Context) (lock : string).

Ltac emits_step :=
  first
    [ apply emits_ret | apply emits_self | apply emits_onLocalKeys | apply emits_onIDPool
    | eapply emits_onStore;
      [|intros ?; first [ apply calls_createOnly | apply calls_updateIfDifferent
                        | apply calls_listPrefix ]];
      cbn [underLock]; apply String.eqb_refl
    | apply emits_bind; [|intros ?]
    | match goal with
      | |- emits _ (match ?x with _ => _ end) => destruct x
      | |- emits _ (let (_, _) := ?x in _) => destruct x
      end ].

Lemma emits_createValueNodeKey k id :
  emits (underLock lock) (createValueNodeKey ctx k id lock).
Proof. unfold createValueNodeKey, kvstore.UpdateIfDifferentIfLocked. repeat emits_step. Qed.

Lemma emits_selectAvailableID : emits (underLock lock) selectAvailableID.
Proof. unfold selectAvailableID. repeat emits_step. Qed.

Lemma emits_releaseKeyAndID k id : emits (underLock lock) (releaseKeyAndID k id).
Proof. unfold releaseKeyAndID. repeat emits_step. Qed.

Lemma emits_useExistingID k value : emits (underLock lock) (useExistingID ctx k value lock).
Proof.
  unfold useExistingID. apply emits_bind; [apply emits_createValueNodeKey|intros ?].
  repeat emits_step.
Qed.

Lemma emits_allocateNewID k : emits (underLock lock) (allocateNewID ctx k lock).
Proof.
  unfold allocateNewID, kvstore.CreateOnlyIfLocked.
  repeat first [ apply emits_selectAvailableID | apply emits_releaseKeyAndID
               | apply emits_createValueNodeKey | emits_step ].
Qed.

Lemma emits_GetIfLocked (key : K) : emits (underLock lock) (GetIfLocked ctx key lock).
Proof.
  unfold GetIfLocked, GetNoCacheIfLocked, kvstore.ListPrefixIfLocked. repeat emits_step.
Qed.

Lemma emits_lockedAllocateLocked (key : K) k :
  emits (underLock lock) (lockedAllocateLocked ctx key k lock).
Proof.
  unfold lockedAllocateLocked, kvstore.CreateOnlyIfLocked.
  repeat first [ apply emits_GetIfLocked | apply emits_useExistingID
               | apply emits_allocateNewID | emits_step ].
Qed.

End LockedCalls.

(** X10: one attempt holds one lock from its first call to its last.
    When the lock is refused, [lockedAllocate] returns that error having
    made no other call and changed nothing else.  When it is acquired,
    the calls of the attempt are the [LockPath], then only operations
    that carry this very lock (the locked listing, [CreateOnlyIfLocked],
    [UpdateIfDifferentIfLocked]), and last the [Unlock], on every path:
    no second lock is taken, nothing is read or written outside the
    lock, and nothing is deleted. *)
Theorem lockedAllocate_lock_discipline {K : Type} `{AllocatorKey K}
    (ctx : Context) (key : K) (s : State) :
  let lock := lockName (alloc s) (GetKey key) in
  let s' := snd (lockedAllocate ctx key s) in
  (forall err, faultAt 0 (store s) = Some err ->
     lockedAllocate ctx key s = ((0, false, Some err), called (kvstore.LockPathCall lock) s))
  /\ (faultAt 0 (store s) = None ->
      exists mid,
        kvstore.calls (store s')
        = kvstore.UnlockCall lock :: mid ++ kvstore.LockPathCall lock :: kvstore.calls (store s)
        /\ forallb (underLock lock) mid = true
        /\ forall key' l, ~ In (kvstore.DeleteIfLockedCall key' l) mid).
Proof.
  cbn zeta. split; [intros err Hf; by apply lockedAllocate_lock_refused|].
  intros Hf. rewrite lockedAllocate_locked by done. cbn zeta.
  destruct (emits_lockedAllocateLocked ctx (lockName (alloc s) (GetKey key)) key (GetKey key)
    (called (kvstore.LockPathCall (lockName (alloc s) (GetKey key))) s)) as (mid & Hc & Hp).
  destruct (lockedAllocateLocked _ _ _ _ _) as [res s1]. cbn [snd] in *.
  exists mid. st_simpl. rewrite Hc. split; [done|]. split; [done|].
  intros key' l Hin. rewrite forallb_forall in Hp. by specialize (Hp _ Hin).
Qed.

(** ** What Allocate returns *)

Section Results.

Context {K : Type} `{AllocatorKey K}.

Lemma yields_ret {A} (P : A -> Prop) (x : A) : P x -> yields P (mret x).
Proof. by intros Hx s. Qed.

Lemma yields_bind {A B} (P : B -> Prop) (m : M A) (f : A -> M B) :
  (forall x, yields P (f x)) -> yields P (m ≫= f).
Proof. intros Hf s. rewrite bind_run. destruct (m s) as [x s1]. apply Hf. Qed.

Ltac yields_step :=
  first
    [ apply yields_bind; intros ?
    | match goal with
      | |- yields _ (match ?x with _ => _ end) => destruct x eqn:?
      | |- yields _ (let (_, _) := ?x in _) => destruct x eqn:?
      end
    | apply yields_ret; cbn [attemptResult]; try done ].

Variable ctx : Context.

Lemma yields_useExistingID k value lock :
  value <> NoID -> yields attemptResult (useExistingID ctx k value lock).
Proof. intros Hv. unfold useExistingID. repeat yields_step. Qed.

Lemma yields_allocateNewID k lock : yields attemptResult (allocateNewID ctx k lock).
Proof.
  unfold allocateNewID. apply yields_bind. intros [[id strID] unmaskedID].
  destruct (Z.eqb_spec id 0) as [->|Hid]; [by apply yields_ret|].
  repeat yields_step.
Qed.

Lemma yields_lockedAllocateLocked (key : K) k lock :
  yields attemptResult (lockedAllocateLocked ctx key k lock).
Proof.
  unfold lockedAllocateLocked. apply yields_bind. intros [value err].
  destruct err as [err|]; [by apply yields_ret|].
  destruct (Z.eqb_spec value 0) as [->|Hv].
  - apply yields_bind. intros a. cbn zeta.
    destruct (Z.eqb_spec (localkeys.lookupKey k (localKeys a)) 0) as [Hz|Hz]; cbn [negb].
    + apply yields_allocateNewID.
    + apply yields_bind. intros [success err].
      destruct (bool_decide (is_Some err) || negb success); [by apply yields_ret|].
      by apply yields_useExistingID.
  - apply yields_bind. intros [old err]. destruct err; [by apply yields_ret|].
    cbn [negb]. by apply yields_useExistingID.
Qed.

Lemma lockedAllocate_result (key : K) s : attemptResult (fst (lockedAllocate ctx key s)).
Proof.
  unfold lockedAllocate. rewrite bind_run. destruct (lockPath ctx (GetKey key) s) as [[lock|err] s1].
  - rewrite bind_run.
    pose proof (yields_lockedAllocateLocked key (GetKey key) lock s1) as Hres.
    destruct (lockedAllocateLocked _ _ _ _ _) as [res s2]. by rewrite bind_run.
  - done.
Qed.

Lemma allocateAttempts_result (key : K) n boff err s :
  (n = 0%nat -> is_Some err) ->
  let r := allocateAttempts ctx key n boff err s in
  match fst r with
  | (value, _, None) =>
      value <> NoID /\ cache.get (GetKey key) (mainCache (alloc (snd r))) = value
  | (value, isNew, Some _) => value = 0 /\ isNew = false
  end.
Proof.
  revert boff err s. induction n as [|n IH]; intros boff err s Herr; cbn zeta.
  - cbn [allocateAttempts]. destruct (Herr eq_refl) as [e ->]. done.
  - remember (allocateAttempts ctx key (S n) boff err s) as r eqn:Hr.
    cbn [allocateAttempts] in Hr. rewrite bind_run in Hr.
    pose proof (lockedAllocate_result key s) as Hres.
    destruct (lockedAllocate ctx key s) as [[[value isNew] err1] s1]. cbn [fst] in Hres.
    destruct err1 as [e|].
    + rewrite bind_run in Hr. unfold ctxErr at 1 in Hr.
      destruct (ctx _); [by subst r|].
      rewrite bind_run in Hr.
      destruct (onStore (backoff.Wait ctx boff) s1) as [[waitErr boff'] s2].
      destruct waitErr; [by subst r|]. subst r. apply (IH boff' (Some e) s2). eauto.
    + rewrite bind_run in Hr. unfold onMainCache, mret, M_ret in Hr. subst r.
      cbn [fst snd alloc mainCache set_mainCache].
      split; [done|]. unfold cache.get, cache.insert. cbn [cache.cache_keys].
      by rewrite lookup_insert_eq.
Qed.

(** X11: what [Allocate] returns with no error is an ID other than
    [NoID], and the cache then maps the key to it: a [Get] that follows
    is answered with that ID without a call to the kvstore.  What it
    returns with an error is no ID and [isNew = false]. *)
Theorem Allocate_success_is_cached (key : K) (s : State) :
  let s' := snd (Allocate ctx key s) in
  (forall id isNew,
     fst (Allocate ctx key s) = Some (id, isNew, None) ->
     id <> NoID /\ forall ctx', Get ctx' key s' = ((id, None), s'))
  /\ (forall value isNew e,
        fst (Allocate ctx key s) = Some (value, isNew, Some e) ->
        value = 0 /\ isNew = false).
Proof.
  cbn zeta.
  assert (Hshape :
    match fst (Allocate ctx key s) with
    | Some (value, _, None) =>
        value <> NoID
        /\ cache.get (GetKey key) (mainCache (alloc (snd (Allocate ctx key s)))) = value
    | Some (value, isNew, Some _) => value = 0 /\ isNew = false
    | None => True
    end).
  { remember (Allocate ctx key s) as r eqn:Hr. unfold Allocate in Hr. rewrite bind_run in Hr.
    destruct (selectInitialListDone ctx s) as [[|err|] s0]; [|by subst r..].
    rewrite bind_run in Hr.
    destruct (onLocalKeys (localkeys.use (GetKey key)) s0) as [val s1].
    destruct (Z.eqb_spec val NoID) as [->|Hval]; cbn [negb] in Hr.
    - rewrite bind_run in Hr. unfold self at 1 in Hr. rewrite bind_run in Hr.
      match type of Hr with context [allocateAttempts ctx key ?n ?b ?e ?st] =>
        pose proof (allocateAttempts_result key n b e st) as Hres;
        destruct (allocateAttempts ctx key n b e st) as [[[value isNew] err] s2] end.
      unfold mret, M_ret in Hr. subst r. cbn [fst snd] in *. by apply Hres.
    - rewrite bind_run in Hr. unfold onMainCache, mret, M_ret in Hr. subst r.
      cbn [fst snd alloc mainCache set_mainCache]. split; [done|].
      unfold cache.get, cache.insert. cbn [cache.cache_keys]. by rewrite lookup_insert_eq. }
  split.
  - intros id isNew Hres. rewrite Hres in Hshape. destruct Hshape as [Hid Hcache].
    split; [done|]. intros ctx'. unfold Get, self. rewrite bind_run, Hcache.
    by destruct (Z.eqb_spec id NoID).
  - intros value isNew e Hres. by rewrite Hres in Hshape.
Qed.

End Results.

Lemma Allocate_success_is_cached_witness :
  Get Background "a" (snd (Allocate Background "a" (n1State [] [])))
  = ((1, None), snd (Allocate Background "a" (n1State [] []))).
Proof.
  pose proof (Allocate_success_is_cached Background "a" (n1State [] [])) as [Hok _].
  unshelve epose proof (Hok 1 true _) as [_ Hget]; [ by_evaluation | ].
  exact (Hget Background).
Defined.

(** ** A key that is held locally *)

Lemma update_update_back k f g lk held :
  localkeys.find k lk = Some held -> g (f held) = held ->
  localkeys.update k g (localkeys.update k f lk) = lk.
Proof.
  unfold localkeys.find. intros Hf Hback. induction lk as [|[k0 e0] lk IH]; [done|].
  cbn in Hf |- *. destruct (String.eqb_spec k0 k) as [->|Hk]; cbn in Hf |- *.
  - injection Hf as ->. by rewrite String.eqb_refl, Hback.
  - destruct (String.eqb_spec k0 k); [done|]. by rewrite IH.
Qed.

Section HeldKey.

Context {K : Type} `{AllocatorKey K}.

Variables (ctx : Context) (key : K) (s : State) (held : localkeys.localKey).

Let k := GetKey key.

(** The initial list has been received, the context is not done, and the
    local table holds the key with an ID. *)
Hypothesis list_done : initialListDone (alloc s) = true.
Hypothesis ctx_live : ctx (kvstore.now (store s)) = None.
Hypothesis local_held : localkeys.find k (localKeys (alloc s)) = Some held.
Hypothesis id_valid : localkeys.val held <> NoID.

Lemma Allocate_held_run :
  Allocate ctx key s =
  (Some (localkeys.val held, false, None),
   cached k (localkeys.val held)
     (withLocalKeys (localkeys.update k localkeys.retain (localKeys (alloc s))) s)).
Proof.
  unfold Allocate. rewrite bind_run. unfold selectInitialListDone.
  rewrite ctx_live, list_done. rewrite bind_run. unfold onLocalKeys at 1, localkeys.use.
  fold k. rewrite local_held. destruct (Z.eqb_spec (localkeys.val held) NoID); [done|].
  cbn [negb]. by rewrite bind_run.
Qed.

(** X12: the local fast path.  [Allocate] of a key that the local table
    holds returns its ID as not new without a single call to the
    kvstore: the store is untouched, the pool too, the reference count
    of the key is one higher and the cache maps the key to the ID.  A
    [Release] that follows undoes it: it returns [(false, nil)], again
    without a call, and the local table is what it was before the
    two. *)
Theorem Allocate_fast_path :
  let s1 := snd (Allocate ctx key s) in
  let s2 := snd (Release ctx key s1) in
  fst (Allocate ctx key s) = Some (localkeys.val held, false, None)
  /\ store s1 = store s
  /\ idPool (alloc s1) = idPool (alloc s)
  /\ localkeys.find k (localKeys (alloc s1)) = Some (localkeys.retain held)
  /\ cache.get k (mainCache (alloc s1)) = localkeys.val held
  /\ (localkeys.refcnt held <> 0 ->
      fst (Release ctx key s1) = Some (false, None)
      /\ store s2 = store s
      /\ localKeys (alloc s2) = localKeys (alloc s)).
Proof.
  cbn zeta. rewrite Allocate_held_run. cbn [fst snd]. unfold cached. st_simpl.
  split_and!; try done.
  - by apply find_update.
  - unfold cache.get, cache.insert. cbn [cache.cache_keys]. by rewrite lookup_insert_eq.
  - intros Hcount.
    remember (Release ctx key _) as r eqn:Hr. unfold Release in Hr. rewrite bind_run in Hr.
    unfold selectInitialListDone in Hr. st_simpl_in Hr. rewrite ctx_live, list_done in Hr.
    rewrite bind_run in Hr. unfold onLocalKeys at 1 in Hr. st_simpl_in Hr.
    unfold localkeys.release in Hr. fold k in Hr.
    rewrite (find_update _ _ _ _ local_held) in Hr. cbn [localkeys.retain localkeys.refcnt] in Hr.
    destruct (Z.eqb_spec (localkeys.refcnt held + 1 - 1) 0) as [|_]; [lia|].
    unfold mret, M_ret in Hr. subst r. cbn [fst snd]. st_simpl.
    split_and!; try done.
    apply (update_update_back _ _ _ _ held); [done|].
    destruct held as [v c b]. cbn. f_equal. lia.
Qed.

End HeldKey.

Lemma Allocate_fast_path_witness :
  fst (Allocate Background "a" (n1Holding [] [])) = Some (1, false, None)
  /\ store (snd (Allocate Background "a" (n1Holding [] []))) = store (n1Holding [] []).
Proof.
  unshelve epose proof (Allocate_fast_path Background "a" (n1Holding [] [])
    (localkeys.mkLocalKey 1 1 true) _ _ _ _) as Hfast; [ by_evaluation .. | ].
  destruct Hfast as (Hres & Hstore & _). vm_compute in Hres. split; [exact Hres|exact Hstore].
Defined.

(** ** Before the initial list of keys *)

Section InitialList.

Context {K : Type} `{AllocatorKey K}.

(** X13: as long as the initial list of keys has not been received,
    [Allocate], [Release] and [WaitForInitialSync] do nothing: with a
    context that is done each returns its own "cancelled" error around
    the error of the context, otherwise each waits; the local table, the
    pool, the cache and the kvstore are left as they are.  Once the list
    has been received and while the context is not done,
    [WaitForInitialSync] returns nil, and neither [Allocate] nor
    [Release] waits. *)
Theorem nothing_before_initial_list (ctx : Context) (key : K) (s : State) :
  (initialListDone (alloc s) = false ->
   Allocate ctx key s
   = (match ctx (kvstore.now (store s)) with
      | Some err =>
          Some (0, false,
                Some ("allocation was cancelled while waiting for initial key list to be received: "
                      +:+ err))
      | None => None
      end, s)
   /\ Release ctx key s
      = (match ctx (kvstore.now (store s)) with
         | Some err =>
             Some (false,
                   Some ("release was cancelled while waiting for initial key list to be received: "
                         +:+ err))
         | None => None
         end, s)
   /\ WaitForInitialSync ctx s
      = (match ctx (kvstore.now (store s)) with
         | Some err => Some (Some ("identity sync with kvstore was cancelled: " +:+ err))
         | None => None
         end, s))
  /\ (initialListDone (alloc s) = true -> ctx (kvstore.now (store s)) = None ->
      WaitForInitialSync ctx s = (Some None, s)
      /\ fst (Allocate ctx key s) <> None
      /\ fst (Release ctx key s) <> None).
Proof.
  split.
  - intros Hwait. unfold Allocate, Release, WaitForInitialSync. rewrite !bind_run.
    unfold selectInitialListDone. rewrite Hwait. by destruct (ctx _).
  - intros Hdone Hlive. unfold Allocate, Release, WaitForInitialSync. rewrite !bind_run.
    unfold selectInitialListDone. rewrite Hdone, Hlive. split; [done|]. split.
    + rewrite bind_run. destruct (onLocalKeys _ s) as [val s1].
      destruct (negb (val =? NoID)); rewrite bind_run; [done|].
      unfold self at 1. rewrite bind_run. by destruct (allocateAttempts _ _ _ _ _ _).
    + rewrite bind_run. destruct (onLocalKeys _ s) as [[lastUse err] s1].
      destruct err; [done|]. destruct lastUse; [|done].
      rewrite bind_run. unfold self at 1. rewrite bind_run. by destruct (onStore _ _).
Qed.

End InitialList.

Lemma nothing_before_initial_list_witness :
  Allocate (cancelledAt 0) "a" n1Starting
  = (Some (0, false,
           Some "allocation was cancelled while waiting for initial key list to be received: context canceled"),
     n1Starting).
Proof.
  pose proof (nothing_before_initial_list (cancelledAt 0) "a" n1Starting) as [Hwait _].
  unshelve epose proof (Hwait _) as (Halloc & _); [ by_evaluation | ].
  exact Halloc.
Defined.

(** ** What the re-creation of a master key leaves in the store *)

(** What "create only if absent" leaves behind: the call is recorded and
    one fault consumed; a key that exists keeps its value, a key that
    does not is created when the call is not refused, and no other key
    changes. *)
Lemma createOnly_spec c key value lease st :
  let r := kvstore.createOnly c key value lease st in
  kvstore.calls (snd r) = c :: kvstore.calls st
  /\ kvstore.faults (snd r) = List.tl (kvstore.faults st)
  /\ (forall key', key' <> key ->
        kvstore.lookup key' (kvstore.pairs (snd r)) = kvstore.lookup key' (kvstore.pairs st))
  /\ (is_Some (kvstore.lookup key (kvstore.pairs st)) \/ is_Some (faultAt 0 st) ->
      kvstore.pairs (snd r) = kvstore.pairs st /\ kvstore.revision (snd r) = kvstore.revision st)
  /\ (faultAt 0 st = None -> kvstore.lookup key (kvstore.pairs st) = None ->
      kvstore.lookup key (kvstore.pairs (snd r))
      = Some (kvstore.mkValue value (kvstore.revision st + 1) lease)
      /\ kvstore.revision (snd r) = kvstore.revision st + 1).
Proof.
  cbn zeta. rewrite <- nextFault_faultAt.
  unfold kvstore.createOnly, kvstore.enter, nextFault.
  destruct (hd None (kvstore.faults st)) as [e|];
    cbn [fst snd kvstore.pairs kvstore.calls kvstore.faults kvstore.revision].
  { split_and!; try done. }
  destruct (kvstore.lookup key (kvstore.pairs st)) as [v|] eqn:Hl;
    cbn [fst snd kvstore.pairs kvstore.calls kvstore.faults kvstore.write kvstore.revision].
  - split_and!; try done.
  - split_and!; try done.
    + intros key' Hne. by apply lookup_put_ne.
    + intros [[? [=]]|[? [=]]].
    + intros _ _. split; [apply lookup_put|done].
Qed.

Lemma updateIfDifferent_same c key value lease st :
  faultAt 0 st = None ->
  kvstore.Data <$> kvstore.lookup key (kvstore.pairs st) = Some value ->
  kvstore.pairs (snd (kvstore.updateIfDifferent c key value lease st)) = kvstore.pairs st.
Proof.
  rewrite <- nextFault_faultAt. unfold nextFault. intros Hf Hl.
  unfold kvstore.updateIfDifferent, kvstore.enter. rewrite Hf. cbn [kvstore.pairs].
  destruct (kvstore.lookup key (kvstore.pairs st)) as [v|]; [|done].
  injection Hl as <-. by rewrite String.eqb_refl.
Qed.

Lemma recreateMasterKey_state id value reliablyMissing s :
  snd (recreateMasterKey id value reliablyMissing s)
  = mkState (alloc s)
      (if reliablyMissing
       then snd (kvstore.CreateOnly (slaveKey (alloc s) value) (ID_String id) true
                   (snd (kvstore.CreateOnly (masterKey (alloc s) id) value false (store s))))
       else snd (kvstore.UpdateIfDifferent (slaveKey (alloc s) value) (ID_String id) true
                   (snd (kvstore.UpdateIfDifferent (masterKey (alloc s) id) value false
                           (store s)))))
      (picks s).
Proof.
  unfold recreateMasterKey, self. rewrite bind_run.
  fold (masterKey (alloc s) id) (slaveKey (alloc s) value).
  destruct reliablyMissing; rewrite bind_run; unfold onStore at 1.
  - destruct (kvstore.CreateOnly (masterKey (alloc s) id) value false (store s)) as [r1 st1].
    rewrite bind_run. unfold onStore. cbn [store alloc picks snd].
    by destruct (kvstore.CreateOnly (slaveKey (alloc s) value) (ID_String id) true st1).
  - destruct (kvstore.UpdateIfDifferent (masterKey (alloc s) id) value false (store s))
      as [r1 st1].
    rewrite bind_run. unfold onStore. cbn [store alloc picks snd].
    by destruct (kvstore.UpdateIfDifferent (slaveKey (alloc s) value) (ID_String id) true st1).
Qed.

Section Recreate.

Variables (id : ID) (value : string) (s : State).

Let keyPath := masterKey (alloc s) id.
Let valueKey := slaveKey (alloc s) value.


(** The master key and the slave key are two keys. *)
Hypothesis paths_differ : keyPath <> valueKey.

(** X14: [recreateMasterKey] changes no key but the master key of the ID
    and the slave key of the value, and a refused master write does not
    keep it from writing the slave key.  With "update if different", as
    the sync runs it, and a kvstore that accepts both writes, the master
    key holds the value and the slave key the decimal ID afterwards, and
    a second run changes nothing in the store.  With "create only if
    absent" a key that exists keeps what it holds, and keys that do not
    are created, the slave key leased and the master key not. *)
Theorem recreateMasterKey_restores_both_keys :
  let after flag := store (snd (recreateMasterKey id value flag s)) in
  (forall flag key', key' <> keyPath -> key' <> valueKey ->
     kvstore.lookup key' (kvstore.pairs (after flag))
     = kvstore.lookup key' (kvstore.pairs (store s)))
  /\ (faultAt 1 (store s) = None ->
      kvstore.Data <$> kvstore.lookup valueKey (kvstore.pairs (after false))
      = Some (ID_String id))
  /\ (faultAt 0 (store s) = None -> faultAt 1 (store s) = None ->
      kvstore.Data <$> kvstore.lookup keyPath (kvstore.pairs (after false)) = Some value
      /\ (faultAt 2 (store s) = None -> faultAt 3 (store s) = None ->
          kvstore.pairs
            (store (snd (recreateMasterKey id value false
                           (snd (recreateMasterKey id value false s)))))
          = kvstore.pairs (after false)))
  /\ (forall v, kvstore.lookup keyPath (kvstore.pairs (store s)) = Some v ->
        kvstore.lookup keyPath (kvstore.pairs (after true)) = Some v)
  /\ (forall v, kvstore.lookup valueKey (kvstore.pairs (store s)) = Some v ->
        kvstore.lookup valueKey (kvstore.pairs (after true)) = Some v)
  /\ (faultAt 0 (store s) = None -> faultAt 1 (store s) = None ->
      kvstore.lookup keyPath (kvstore.pairs (store s)) = None ->
      kvstore.lookup valueKey (kvstore.pairs (store s)) = None ->
      kvstore.lookup keyPath (kvstore.pairs (after true))
      = Some (kvstore.mkValue value (kvstore.revision (store s) + 1) false)
      /\ kvstore.lookup valueKey (kvstore.pairs (after true))
         = Some (kvstore.mkValue (ID_String id) (kvstore.revision (store s) + 2) true)).
Proof.
  cbn zeta. rewrite !recreateMasterKey_state. cbn [store alloc picks].
  fold keyPath valueKey. unfold kvstore.UpdateIfDifferent, kvstore.CreateOnly.
  set (u1 := kvstore.updateIfDifferent (kvstore.UpdateIfDifferentCall keyPath value false)
               keyPath value false (store s)).
  set (c1 := kvstore.createOnly (kvstore.CreateOnlyCall keyPath value false)
               keyPath value false (store s)).
  set (u2 := kvstore.updateIfDifferent
               (kvstore.UpdateIfDifferentCall valueKey (ID_String id) true)
               valueKey (ID_String id) true (snd u1)).
  set (c2 := kvstore.createOnly (kvstore.CreateOnlyCall valueKey (ID_String id) true)
               valueKey (ID_String id) true (snd c1)).
  pose proof (updateIfDifferent_spec (kvstore.UpdateIfDifferentCall keyPath value false)
    keyPath value false (store s)) as (_ & _ & Hu1f & Hu1ok & Hu1e).
  pose proof (updateIfDifferent_spec (kvstore.UpdateIfDifferentCall valueKey (ID_String id) true)
    valueKey (ID_String id) true (snd u1)) as (_ & _ & Hu2f & Hu2ok & Hu2e).
  pose proof (createOnly_spec (kvstore.CreateOnlyCall keyPath value false)
    keyPath value false (store s)) as (_ & Hc1f & Hc1o & Hc1keep & Hc1new).
  pose proof (createOnly_spec (kvstore.CreateOnlyCall valueKey (ID_String id) true)
    valueKey (ID_String id) true (snd c1)) as (_ & Hc2f & Hc2o & Hc2keep & Hc2new).
  cbn zeta in *. fold u1 in Hu1f, Hu1ok, Hu1e. fold c1 in Hc1f, Hc1o, Hc1keep, Hc1new.
  fold u2 in Hu2f, Hu2ok, Hu2e. fold c2 in Hc2f, Hc2o, Hc2keep, Hc2new.
  assert (Hf1 : faultAt 0 (snd u1) = faultAt 1 (store s)) by (by apply faultAt_tl).
  assert (Hg1 : faultAt 0 (snd c1) = faultAt 1 (store s)) by (by apply faultAt_tl).
  assert (Hother1 : forall key', key' <> keyPath ->
    kvstore.lookup key' (kvstore.pairs (snd u1)) = kvstore.lookup key' (kvstore.pairs (store s))).
  { intros key' Hne. destruct (faultAt 0 (store s)) as [e|] eqn:Hf.
    - by rewrite (Hu1e e).
    - by apply Hu1ok. }
  assert (Hother2 : forall key', key' <> valueKey ->
    kvstore.lookup key' (kvstore.pairs (snd u2)) = kvstore.lookup key' (kvstore.pairs (snd u1))).
  { intros key' Hne. destruct (faultAt 0 (snd u1)) as [e|] eqn:Hf.
    - by rewrite (Hu2e e).
    - by apply Hu2ok. }
  split_and!.
  - intros flag key' Hk Hv. rewrite recreateMasterKey_state. cbn [store].
    fold keyPath valueKey. unfold kvstore.UpdateIfDifferent, kvstore.CreateOnly.
    fold u1 c1. fold u2 c2. destruct flag.
    + rewrite Hc2o by done. by apply Hc1o.
    + rewrite Hother2 by done. by apply Hother1.
  - intros Hs1. apply Hu2ok. by rewrite Hf1.
  - intros Hs0 Hs1. split.
    + rewrite Hother2 by done. by apply Hu1ok.
    + intros Hs2 Hs3.
      assert (Hfaults : kvstore.faults (snd u2)
                        = List.tl (List.tl (kvstore.faults (store s)))).
      { by rewrite Hu2f, Hu1f. }
      assert (Hmaster : kvstore.Data <$> kvstore.lookup keyPath (kvstore.pairs (snd u2))
                        = Some value).
      { rewrite Hother2 by done. by apply Hu1ok. }
      assert (Hslave : kvstore.Data <$> kvstore.lookup valueKey (kvstore.pairs (snd u2))
                       = Some (ID_String id)).
      { apply Hu2ok. by rewrite Hf1. }
      assert (Hf2 : faultAt 0 (snd u2) = None).
      { unfold faultAt in *. rewrite Hfaults.
        by destruct (kvstore.faults (store s)) as [|? [|? [|? ?]]]. }
      set (again := kvstore.updateIfDifferent _ keyPath value false (snd u2)).
      assert (Hagain : kvstore.pairs (snd again) = kvstore.pairs (snd u2))
        by (by apply updateIfDifferent_same).
      rewrite updateIfDifferent_same; [done| |by rewrite Hagain].
      pose proof (updateIfDifferent_spec (kvstore.UpdateIfDifferentCall keyPath value false)
        keyPath value false (snd u2)) as (_ & _ & Hf & _). cbn zeta in Hf. fold again in Hf.
      unfold faultAt in *. rewrite Hf, Hfaults.
      by destruct (kvstore.faults (store s)) as [|? [|? [|? [|? ?]]]].
  - intros v Hv. rewrite Hc2o by done.
    destruct (Hc1keep ltac:(left; eauto)) as [-> _]. done.
  - intros v Hv.
    destruct (Hc2keep ltac:(left; rewrite Hc1o by done; eauto)) as [-> _].
    by rewrite Hc1o.
  - intros Hs0 Hs1 Hk Hv.
    destruct (Hc1new Hs0 Hk) as [Hm Hrev]. split.
    + by rewrite Hc2o.
    + destruct Hc2new as [-> _]; [by rewrite Hg1|by rewrite Hc1o|].
      by rewrite Hrev, <- Z.add_assoc.
Qed.

End Recreate.

Lemma recreateMasterKey_restores_both_keys_witness :
  kvstore.Data <$> kvstore.lookup "cilium/state/identities/v1/id/1"
    (kvstore.pairs (store (snd (recreateMasterKey 1 "a" false staleMaster))))
  = Some "a".
Proof.
  unshelve epose proof (recreateMasterKey_restores_both_keys 1 "a" staleMaster _) as Hre;
    [ by_evaluation | ].
  destruct Hre as (_ & _ & Hok & _).
  destruct (Hok ltac:(vm_compute; reflexivity) ltac:(vm_compute; reflexivity)) as [Hmaster _].
  exact Hmaster.
Defined.

(** ** What construction fixes *)

Lemma providedOption_layout o a :
  providedOption o ->
  basePrefix (o a) = basePrefix a /\ idPrefix (o a) = idPrefix a
  /\ valuePrefix (o a) = valuePrefix a /\ lockPrefix (o a) = lockPrefix a
  /\ localKeys (o a) = localKeys a /\ lockless (o a) = lockless a
  /\ initialListDone (o a) = initialListDone a.
Proof. by intros []. Qed.

Lemma applyOptions_layout opts a :
  Forall providedOption opts ->
  basePrefix (applyOptions opts a) = basePrefix a
  /\ idPrefix (applyOptions opts a) = idPrefix a
  /\ valuePrefix (applyOptions opts a) = valuePrefix a
  /\ lockPrefix (applyOptions opts a) = lockPrefix a
  /\ localKeys (applyOptions opts a) = localKeys a
  /\ lockless (applyOptions opts a) = lockless a
  /\ initialListDone (applyOptions opts a) = initialListDone a.
Proof.
  intros Hopts. revert a. unfold applyOptions.
  induction Hopts as [|o opts Ho _ IH]; intros a; [done|].
  cbn [fold_left]. destruct (IH (o a)) as (-> & -> & -> & -> & -> & -> & ->).
  by apply providedOption_layout.
Qed.

(** X15: what [NewAllocator] returns with no error has a minimum of at
    least 1 below its maximum, a suffix other than ["<nil>"], a fresh
    cache, and a pool made for exactly its minimum and maximum, whatever
    the options did.  With the options the package offers, the base
    prefix is the base path and the prefixes of the master keys, the
    slave keys and the locks are the base path joined with ["id"],
    ["value"] and ["locks"]; the local table is empty and the initial
    list is still to come. *)
Theorem NewAllocator_postconditions (client : bool) (uuid : string)
    (locklessCapability : bool) (basePath : string) (opts : list AllocatorOption)
    (a : Allocator) :
  NewAllocator client uuid locklessCapability basePath opts = Some (Some a, None) ->
  1 <= min a < max a
  /\ suffix a <> "<nil>"
  /\ mainCache a = cache.newCache
  /\ idPool a = idpool.NewIDPool (min a) (max a)
  /\ (Forall providedOption opts ->
      basePrefix a = basePath
      /\ idPrefix a = gopath.Join [basePath; "id"]
      /\ valuePrefix a = gopath.Join [basePath; "value"]
      /\ lockPrefix a = gopath.Join [basePath; "locks"]
      /\ localKeys a = []
      /\ lockless a = locklessCapability
      /\ initialListDone a = false).
Proof.
  unfold NewAllocator. destruct (negb client); [done|]. destruct (_ <? _)%nat; [done|].
  set (a0 := initialAllocator _ _ _).
  destruct (String.eqb_spec (suffix (set_mainCache cache.newCache (applyOptions opts a0)))
              "<nil>") as [|Hsuffix]; [done|].
  destruct (Z.ltb_spec (min (set_mainCache cache.newCache (applyOptions opts a0))) 1);
    [done|].
  destruct (Z.leb_spec (max (set_mainCache cache.newCache (applyOptions opts a0)))
              (min (set_mainCache cache.newCache (applyOptions opts a0)))); [done|].
  intros [= <-]. cbn [min max suffix mainCache idPool set_idPool set_mainCache] in *.
  split_and!; try done; try lia.
  intros Hopts. cbn [basePrefix idPrefix valuePrefix lockPrefix localKeys lockless
                     initialListDone set_idPool set_mainCache].
  by destruct (applyOptions_layout opts a0 Hopts) as (-> & -> & -> & -> & -> & -> & ->).
Qed.

Lemma NewAllocator_postconditions_witness :
  idPrefix n1Allocator = "cilium/state/identities/v1/id"
  /\ idPool n1Allocator = idpool.NewIDPool 1 3.
Proof.
  unshelve epose proof (NewAllocator_postconditions true
    "0f1e2d3c-4b5a-6978-8796-a5b4c3d2e1f0" false "cilium/state/identities/v1" n1Options
    (set_idPool (idPool n1Allocator)
       (set_mainCache cache.newCache
          (applyOptions n1Options
             (initialAllocator "cilium/state/identities/v1" "0f1e2d3c-4" false)))) _)
    as Hpost; [ by_evaluation | ].
  destruct Hpost as (_ & _ & _ & Hpool & Hlayout).
  destruct Hlayout as (_ & Hid & _); [repeat constructor|].
  vm_compute in Hid, Hpool. vm_compute. auto.
Defined.

(** ** The allocator made for garbage collection *)

Lemma TrimPrefix_empty s : gostrings.TrimPrefix s "" = s.
Proof. unfold gostrings.TrimPrefix, gostrings.HasPrefix. by destruct s. Qed.

Lemma hasUsers_content vp st1 st2 :
  kvstore.pairs st1 = kvstore.pairs st2 -> hasUsers vp st1 = hasUsers vp st2.
Proof. unfold hasUsers, listed. by intros ->. Qed.

Lemma faultAt_content n st1 st2 :
  kvstore.faults st1 = kvstore.faults st2 -> faultAt n st1 = faultAt n st2.
Proof. unfold faultAt. by intros ->. Qed.

Section SameContent.

Variable prev : gmap string Z.

Variables (s1 s2 : State).

Lemma runGCIteration_content key v stale :
  valuePrefix (alloc s1) = valuePrefix (alloc s2) ->
  sameContent (store s1) (store s2) ->
  fst (runGCIteration prev key v stale s1) = fst (runGCIteration prev key v stale s2)
  /\ sameContent (store (snd (runGCIteration prev key v stale s1)))
       (store (snd (runGCIteration prev key v stale s2))).
Proof.
  intros Hvp (Hp & Hr & Hf). rewrite !runGCIteration_run. cbn zeta. rewrite Hvp.
  rewrite !(faultAt_content _ _ _ Hf).
  rewrite (hasUsers_content _ _ _ Hp).
  unfold sameContent.
  destruct (faultAt 0 (store s2)); [st_simpl; by rewrite Hp, Hr, Hf|].
  destruct (faultAt 1 (store s2)); [st_simpl; by rewrite Hp, Hr, Hf|].
  destruct (hasUsers _ _); [st_simpl; by rewrite Hp, Hr, Hf|].
  destruct (bool_decide _); [|st_simpl; by rewrite Hp, Hr, Hf].
  destruct (faultAt 2 (store s2)); st_simpl; by rewrite Hp, Hr, Hf.
Qed.

End SameContent.

Lemma runGCLoop_content prev l stale s1 s2 :
  valuePrefix (alloc s1) = valuePrefix (alloc s2) ->
  sameContent (store s1) (store s2) ->
  fst (runGCLoop prev l stale s1) = fst (runGCLoop prev l stale s2)
  /\ sameContent (store (snd (runGCLoop prev l stale s1)))
       (store (snd (runGCLoop prev l stale s2))).
Proof.
  revert stale s1 s2. induction l as [|[key v] l IH]; intros stale s1 s2 Hvp Hsame; [done|].
  cbn [runGCLoop]. rewrite !bind_run.
  destruct (runGCIteration_content prev s1 s2 key v stale Hvp Hsame) as [Hres Hnext].
  pose proof (runGCIteration_alloc prev key v stale s1) as Ha1.
  pose proof (runGCIteration_alloc prev key v stale s2) as Ha2.
  destruct (runGCIteration prev key v stale s1) as [stale1 t1].
  destruct (runGCIteration prev key v stale s2) as [stale2 t2].
  cbn [fst snd] in *. subst stale2. apply IH; [by rewrite Ha1, Ha2|done].
Qed.

(** X16: [RunGC] looks at nothing of the allocator but its prefixes.
    Two allocators with the same prefix of the master keys and the same
    prefix of the slave keys, in front of stores with the same content,
    get the same map and the same error from [RunGC] and leave the same
    content behind.  The allocator of [NewAllocatorForGC] has the
    prefixes of an allocator built by [NewAllocator] on the same base
    path with the options the package offers, so its [RunGC] does what
    the other's does; since it has no base prefix, it locks each master
    key under the lock prefix joined with the whole key. *)
Theorem RunGC_needs_only_the_prefixes (prev : gmap string Z) (s1 s2 : State) :
  idPrefix (alloc s1) = idPrefix (alloc s2) ->
  valuePrefix (alloc s1) = valuePrefix (alloc s2) ->
  sameContent (store s1) (store s2) ->
  (fst (RunGC prev s1) = fst (RunGC prev s2)
   /\ sameContent (store (snd (RunGC prev s1))) (store (snd (RunGC prev s2))))
  /\ (forall client uuid locklessCapability basePath opts a,
        Forall providedOption opts ->
        NewAllocator client uuid locklessCapability basePath opts = Some (Some a, None) ->
        idPrefix (NewAllocatorForGC basePath) = idPrefix a
        /\ valuePrefix (NewAllocatorForGC basePath) = valuePrefix a
        /\ lockPrefix (NewAllocatorForGC basePath) = lockPrefix a)
  /\ (forall basePath key,
        lockName (NewAllocatorForGC basePath) key
        = gopath.Join [gopath.Join [basePath; "locks"]; key]).
Proof.
  intros Hid Hvp Hsame. split; [|split].
  - rewrite !RunGC_run. cbn zeta. destruct Hsame as (Hp & Hr & Hf).
    rewrite (faultAt_content _ _ _ Hf), Hid.
    destruct (faultAt 0 (store s2)) as [err|].
    { cbn [fst snd]. unfold sameContent. st_simpl. by rewrite Hp, Hr, Hf. }
    assert (Hlisted : listed (idPrefix (alloc s2)) (store s1)
                      = listed (idPrefix (alloc s2)) (store s2)) by (by apply listed_pairs).
    rewrite Hlisted.
    destruct (runGCLoop_content prev (listed (idPrefix (alloc s2)) (store s2)) ∅
      (called (kvstore.ListPrefixCall (idPrefix (alloc s2))) s1)
      (called (kvstore.ListPrefixCall (idPrefix (alloc s2))) s2)) as [Hres Hnext].
    { done. }
    { unfold sameContent. st_simpl. by rewrite Hp, Hr, Hf. }
    destruct (runGCLoop prev _ ∅ (called _ s1)) as [stale1 t1].
    destruct (runGCLoop prev _ ∅ (called _ s2)) as [stale2 t2].
    cbn [fst snd] in *. by subst stale2.
  - intros client uuid locklessCapability basePath opts a Hopts Hnew.
    revert Hnew. unfold NewAllocator. destruct (negb client); [done|].
    destruct (_ <? _)%nat; [done|]. destruct (String.eqb _ _); [done|].
    destruct (_ <? _); [done|]. destruct (_ <=? _); [done|]. intros [= <-].
    cbn [idPrefix valuePrefix lockPrefix set_idPool set_mainCache NewAllocatorForGC].
    by destruct (applyOptions_layout opts
      (initialAllocator basePath (String.substring 0 10 uuid) locklessCapability) Hopts)
      as (_ & -> & -> & -> & _).
  - intros basePath key. unfold lockName, NewAllocatorForGC. cbn [lockPrefix basePrefix].
    by rewrite TrimPrefix_empty.
Qed.

Lemma RunGC_needs_only_the_prefixes_witness :
  fst (RunGC staleOne
         (mkState (NewAllocatorForGC "cilium/state/identities/v1")
            (store (unusedMaster [])) []))
  = fst (RunGC staleOne (unusedMaster [])).
Proof.
  unshelve epose proof (RunGC_needs_only_the_prefixes staleOne
    (mkState (NewAllocatorForGC "cilium/state/identities/v1") (store (unusedMaster [])) [])
    (unusedMaster []) _ _ _) as Hsame; [ by_evaluation .. | | ].
  - by repeat split.
  - destruct Hsame as [[Hres _] _]. exact Hres.
Defined.
